(** * Duplicate-file clean-up: [clean_up.py] and [cleanup_v2.py]

    A shallow embedding of the two clean-up scripts and the properties of
    their scan / group / confirm / delete pipeline.

    Conventions of the embedding:
    - Path names and printed lines are [string]s; a line typed at a prompt
      is a list of Unicode code points; file contents are [list byte].
    - [os.sep] is ["/"] (POSIX).
    - A Python [dict] is an association list in insertion order, which is the
      iteration order of [dict.items()].
    - Python [list] objects live in a store and are referred to by address,
      because [collisions] and [hash_to_files] hold the very same list
      objects and [delete_duplicates] sorts them in place.
    - The file system is a tree of directories and regular files below
      ["/"], with a working directory; path names are resolved component by
      component, and [open], [os.walk], [os.remove] and [os.path.abspath]
      are functions on it.  [os.remove] fails on the files marked as such.
      Symbolic links and special files are outside the model.
    - Console interaction is a scripted list of replies consumed by [input]
      and a trace of events produced by [print], [input] and [os.remove]. *)

From Stdlib Require Import List String Ascii ZArith Bool Arith Lia.
From Stdlib.Strings Require Import Byte.
From Stdlib Require Import Permutation Sorted DecimalString.
Import ListNotations.
Local Open Scope string_scope.
Local Open Scope list_scope.

(** ** [hashlib.md5] *)

Module Md5.
Local Open Scope Z_scope.

Definition mask32 (x : Z) : Z := Z.land x 0xffffffff.

Definition rotl32 (x : Z) (c : Z) : Z :=
  mask32 (Z.lor (Z.shiftl x c) (Z.shiftr (mask32 x) (32 - c))).

Definition not32 (x : Z) : Z := Z.lxor (mask32 x) 0xffffffff.

Definition K : list Z :=
  [ 0xd76aa478; 0xe8c7b756; 0x242070db; 0xc1bdceee; 0xf57c0faf; 0x4787c62a; 0xa8304613; 0xfd469501;
    0x698098d8; 0x8b44f7af; 0xffff5bb1; 0x895cd7be; 0x6b901122; 0xfd987193; 0xa679438e; 0x49b40821;
    0xf61e2562; 0xc040b340; 0x265e5a51; 0xe9b6c7aa; 0xd62f105d; 0x02441453; 0xd8a1e681; 0xe7d3fbc8;
    0x21e1cde6; 0xc33707d6; 0xf4d50d87; 0x455a14ed; 0xa9e3e905; 0xfcefa3f8; 0x676f02d9; 0x8d2a4c8a;
    0xfffa3942; 0x8771f681; 0x6d9d6122; 0xfde5380c; 0xa4beea44; 0x4bdecfa9; 0xf6bb4b60; 0xbebfbc70;
    0x289b7ec6; 0xeaa127fa; 0xd4ef3085; 0x04881d05; 0xd9d4d039; 0xe6db99e5; 0x1fa27cf8; 0xc4ac5665;
    0xf4292244; 0x432aff97; 0xab9423a7; 0xfc93a039; 0x655b59c3; 0x8f0ccc92; 0xffeff47d; 0x85845dd1;
    0x6fa87e4f; 0xfe2ce6e0; 0xa3014314; 0x4e0811a1; 0xf7537e82; 0xbd3af235; 0x2ad7d2bb; 0xeb86d391 ].

Definition shifts : list Z :=
  [ 7; 12; 17; 22; 7; 12; 17; 22; 7; 12; 17; 22; 7; 12; 17; 22;
    5;  9; 14; 20; 5;  9; 14; 20; 5;  9; 14; 20; 5;  9; 14; 20;
    4; 11; 16; 23; 4; 11; 16; 23; 4; 11; 16; 23; 4; 11; 16; 23;
    6; 10; 15; 21; 6; 10; 15; 21; 6; 10; 15; 21; 6; 10; 15; 21 ].

(** Little-endian decoding of a word and encoding of a [w]-byte field. *)
Fixpoint le_word (bs : list Z) : Z :=
  match bs with
  | [] => 0
  | b :: rest => b + 256 * le_word rest
  end.

Fixpoint le_bytes (w : nat) (x : Z) : list Z :=
  match w with
  | O => []
  | S w' => (x mod 256) :: le_bytes w' (x / 256)
  end.

(** The padded message: a [0x80] byte, zeros up to 56 modulo 64, and the
    bit length as a 64-bit little-endian field. *)
Definition pad (msg : list Z) : list Z :=
  let n := Z.of_nat (List.length msg) in
  let zeros := Z.to_nat ((55 - n) mod 64) in
  msg ++ [0x80] ++ repeat 0 zeros ++ le_bytes 8 ((8 * n) mod 2 ^ 64).

Fixpoint words (count : nat) (bs : list Z) : list Z :=
  match count with
  | O => []
  | S c => le_word (firstn 4 bs) :: words c (skipn 4 bs)
  end.

Definition quad : Type := Z * Z * Z * Z.

Definition round (M : list Z) (st : quad) (i : Z) : quad :=
  let '(a, b, c, d) := st in
  let '(f, g) :=
    if i <? 16 then (Z.lor (Z.land b c) (Z.land (not32 b) d), i)
    else if i <? 32 then (Z.lor (Z.land d b) (Z.land (not32 d) c), (5 * i + 1) mod 16)
    else if i <? 48 then (Z.lxor (Z.lxor b c) d, (3 * i + 5) mod 16)
    else (Z.lxor c (Z.lor b (not32 d)), (7 * i) mod 16) in
  let f' := mask32 (f + a + nth (Z.to_nat i) K 0 + nth (Z.to_nat g) M 0) in
  (d, mask32 (b + rotl32 f' (nth (Z.to_nat i) shifts 0)), b, c).

Definition compress (st : quad) (block : list Z) : quad :=
  let M := words 16 block in
  let '(a, b, c, d) := st in
  let '(a', b', c', d') :=
    fold_left (round M) (map Z.of_nat (seq 0 64)) st in
  (mask32 (a + a'), mask32 (b + b'), mask32 (c + c'), mask32 (d + d')).

Fixpoint blocks (count : nat) (bs : list Z) : list (list Z) :=
  match count with
  | O => []
  | S c => firstn 64 bs :: blocks c (skipn 64 bs)
  end.

Definition init : quad := (0x67452301, 0xefcdab89, 0x98badcfe, 0x10325476).

Definition digest (msg : list byte) : list Z :=
  let padded := pad (map (fun b => Z.of_N (Byte.to_N b)) msg) in
  let '(a, b, c, d) :=
    fold_left compress (blocks (List.length padded / 64) padded) init in
  le_bytes 4 a ++ le_bytes 4 b ++ le_bytes 4 c ++ le_bytes 4 d.

Definition hex_digit (x : Z) : ascii :=
  nth (Z.to_nat x)
      (list_ascii_of_string "0123456789abcdef") "0"%char.

Fixpoint hex (bs : list Z) : string :=
  match bs with
  | [] => EmptyString
  | b :: rest => String (hex_digit (b / 16)) (String (hex_digit (b mod 16)) (hex rest))
  end.

(** The hash object of [hashlib.md5()]: the message fed so far.
    [update] appends; [hexdigest] finalises a copy. *)
Definition t : Type := list byte.
Definition new : t := [].
Definition update (h : t) (block : list byte) : t := h ++ block.
Definition hexdigest (h : t) : string := hex (digest h).
End Md5.

Definition bytes_of_string (s : string) : list byte := list_byte_of_string s.

(** ** Python values and exceptions *)

Inductive exn : Type :=
| OSError               (* any other member of the OSError hierarchy *)
| FileNotFoundError
| PermissionError
| MemoryError           (* an [Exception] outside the OSError hierarchy *)
| EOFError
| KeyboardInterrupt.    (* a [BaseException] that is not an [Exception] *)

(** [except (OSError, PermissionError)] *)
Definition is_OSError (e : exn) : bool :=
  match e with
  | OSError | FileNotFoundError | PermissionError => true
  | MemoryError | EOFError | KeyboardInterrupt => false
  end.

(** [except Exception] *)
Definition is_Exception (e : exn) : bool :=
  match e with
  | KeyboardInterrupt => false
  | _ => true
  end.

(** [except KeyboardInterrupt] *)
Definition is_KeyboardInterrupt (e : exn) : bool :=
  match e with
  | KeyboardInterrupt => true
  | _ => false
  end.

Inductive result (A : Type) : Type :=
| Ok (a : A)
| Raise (e : exn).
Arguments Ok {A} a.
Arguments Raise {A} e.

Definition os_sep : ascii := "/"%char.
Definition nl : string := String (ascii_of_nat 10) EmptyString.

(** [s.count(c)] for a one-character [c]. *)
Fixpoint str_count (c : ascii) (s : string) : nat :=
  match s with
  | EmptyString => 0
  | String x rest => (if Ascii.eqb x c then 1 else 0) + str_count c rest
  end.

(** [str(n)] for a non-negative integer. *)
Definition str_of_nat (n : nat) : string := NilEmpty.string_of_uint (Nat.to_uint n).

(** ** Text typed at a prompt *)

(** A line read by [input] is a Python [str]: a sequence of Unicode code
    points. *)
Definition text : Type := list N.

(** The code points of a literal of ASCII characters. *)
Definition typed (s : string) : text := map N_of_ascii (list_ascii_of_string s).
Coercion typed : string >-> text.

(** The code points that [str.strip()] removes, those for which
    [str.isspace()] holds: the ASCII controls 9 to 13 and 28 to 31, the
    space, NEL (133), the no-break space (160), and the Unicode spaces
    U+1680, U+2000 to U+200A, U+2028, U+2029, U+202F, U+205F and U+3000. *)
Definition is_space (c : N) : bool :=
  ((9 <=? c) && (c <=? 13) || (28 <=? c) && (c <=? 32)
   || (c =? 133) || (c =? 160) || (c =? 5760)
   || (8192 <=? c) && (c <=? 8202)
   || (c =? 8232) || (c =? 8233) || (c =? 8239) || (c =? 8287) || (c =? 12288))%N.

Fixpoint lstrip (s : text) : text :=
  match s with
  | [] => []
  | c :: rest => if is_space c then lstrip rest else s
  end.

Fixpoint rstrip (s : text) : text :=
  match s with
  | [] => []
  | c :: rest =>
      match rstrip rest with
      | [] => if is_space c then [] else [c]
      | r => c :: r
      end
  end.

(** [s.strip()] *)
Definition strip (s : text) : text := rstrip (lstrip s).

(** [str.lower()] on one code point.  The letters [A] to [Z] go to [a] to
    [z]; U+0130 goes to [i] followed by U+0307 and the Kelvin sign U+212A
    to [k]: these are all the code points whose lower-case form holds an
    ASCII character.  The other cased letters, whose lower-case forms are
    letters outside ASCII, are left as they are; that cannot be told from
    [str.lower()] by a comparison with a word of ASCII letters, the only
    use the scripts make of the result. *)
Definition lower_char (c : N) : list N :=
  if ((65 <=? c) && (c <=? 90))%N then [(c + 32)%N]
  else if (c =? 304)%N then [105%N; 775%N]
  else if (c =? 8490)%N then [107%N]
  else [c].

(** [s.lower()] *)
Definition lower (s : text) : text := flat_map lower_char s.

Fixpoint text_eqb (a b : text) : bool :=
  match a, b with
  | [], [] => true
  | x :: a', y :: b' => (x =? y)%N && text_eqb a' b'
  | _, _ => false
  end.

(** [x in [...]] for typed text. *)
Definition str_in (x : text) (l : list text) : bool := existsb (text_eqb x) l.

(** ** The file system *)

(** The model covers a file system of directories and regular files: no
    symbolic links, no special files, and directories that can all be
    listed.  Path names are resolved as the kernel resolves them, one
    component after the other, from the root or from the working
    directory. *)

(** A regular file: its bytes, or the exception that [open] or [read]
    raises on it (a denied permission, an I/O error, or any other fault
    that hits the hashing of this file). *)
Inductive file : Type :=
| Readable (data : list byte)
| Unreadable (e : exn).

#[local] Unset Elimination Schemes.
Inductive node : Type :=
| File (f : file)
| Dir (entries : list (string * node)).
#[local] Set Elimination Schemes.

(** Where an object is: the names that lead to it from the root. *)
Definition location : Type := list string.

Definition location_eqb (a b : location) : bool :=
  if list_eq_dec string_dec a b then true else false.

(** The state of the file system: the entries of the root directory ["/"],
    in listing order; the working directory of the process, as
    [os.getcwd()] returns it; and the regular files that cannot be
    unlinked for lack of permission on their directory, on which
    [os.remove] raises [PermissionError]. *)
Record filesystem : Type := FileSystem {
  root : list (string * node);
  cwd : string;
  stuck : list location
}.

Fixpoint last_char (s : string) : option ascii :=
  match s with
  | EmptyString => None
  | String c EmptyString => Some c
  | String _ rest => last_char rest
  end.

Definition endswith_sep (s : string) : bool :=
  match last_char s with
  | Some c => Ascii.eqb c os_sep
  | None => false
  end.

(** [os.path.isabs] *)
Definition isabs (p : string) : bool := String.prefix "/" p.

(** [os.path.join(a, b)] of [posixpath], for two components. *)
Definition join (a b : string) : string :=
  if isabs b then b
  else if (a =? "") || endswith_sep a then (a ++ b)%string
  else (a ++ "/" ++ b)%string.

(** [s.split('/')] *)
Fixpoint split_sep (s : string) : list string :=
  match s with
  | EmptyString => [EmptyString]
  | String c rest =>
      if Ascii.eqb c os_sep then EmptyString :: split_sep rest
      else
        match split_sep rest with
        | comp :: comps => String c comp :: comps
        | [] => [String c EmptyString]
        end
  end.

(** One round of the loop of [normpath]; [new_comps] is kept with its last
    element first. *)
Definition norm_step (initial_slashes : nat) (new_comps : list string) (comp : string) :
    list string :=
  if (comp =? "") || (comp =? ".") then new_comps
  else if negb (comp =? "..")
          || ((initial_slashes =? 0)%nat && match new_comps with [] => true | _ => false end)
          || match new_comps with last :: _ => last =? ".." | [] => false end
       then comp :: new_comps
       else match new_comps with
            | _ :: popped => popped
            | [] => []
            end.

(** [os.path.normpath] of [posixpath] *)
Definition normpath (path : string) : string :=
  if path =? "" then "."
  else
    let initial_slashes :=
      if String.prefix "/" path
      then (if String.prefix "//" path && negb (String.prefix "///" path) then 2 else 1)
      else 0 in
    let new_comps := rev (fold_left (norm_step initial_slashes) (split_sep path) []) in
    let joined := (String.concat "/" (repeat EmptyString initial_slashes ++ [String.concat "/" new_comps]))%list in
    if joined =? "" then "." else joined.

(** [os.path.abspath], in a process whose working directory is [cwd]. *)
Definition abspath (cwd : string) (p : string) : string :=
  normpath (if isabs p then p else join cwd p).

Fixpoint lookup (name : string) (es : list (string * node)) : option node :=
  match es with
  | [] => None
  | (n, child) :: rest => if n =? name then Some child else lookup name rest
  end.

(** The object at a location below [n]. *)
Fixpoint node_at (n : node) (loc : location) : option node :=
  match loc with
  | [] => Some n
  | name :: rest =>
      match n with
      | Dir es =>
          match lookup name es with
          | Some child => node_at child rest
          | None => None
          end
      | File _ => None
      end
  end.

Definition find_node (fs : filesystem) (loc : location) : option node :=
  node_at (Dir (root fs)) loc.

(** One component of a path name, from the directory at [loc]. *)
Definition step (loc : location) (comp : string) : location :=
  if (comp =? "") || (comp =? ".") then loc
  else if comp =? ".." then removelast loc
  else (loc ++ [comp])%list.

(** Path resolution: every component is looked up in what the components
    before it lead to, which must be a directory. *)
Fixpoint walk_to (fs : filesystem) (loc : location) (comps : list string) : result location :=
  match comps with
  | [] => Ok loc
  | comp :: rest =>
      match find_node fs loc with
      | Some (Dir _) => walk_to fs (step loc comp) rest
      | Some (File _) => Raise OSError
      | None => Raise FileNotFoundError
      end
  end.

Definition components (p : string) : list string :=
  filter (fun comp => negb (comp =? "")) (split_sep p).

(** Where the path name [p] leads, if the directories on the way exist;
    the object named last need not exist. *)
Definition resolve (fs : filesystem) (p : string) : result location :=
  if p =? "" then Raise FileNotFoundError
  else walk_to fs (if isabs p then [] else components (cwd fs)) (split_sep p).

Definition dirnames (es : list (string * node)) : list string :=
  flat_map (fun '(name, child) => match child with Dir _ => [name] | File _ => [] end) es.

Definition filenames (es : list (string * node)) : list string :=
  flat_map (fun '(name, child) => match child with File _ => [name] | Dir _ => [] end) es.

(** [os.walk(top)], top-down: the triple of [top], then the walks of its
    sub-directories in listing order, each under the name
    [join(top, dirname)]. *)
Fixpoint walk_from (top : string) (n : node) {struct n} : list (string * list string * list string) :=
  match n with
  | File _ => []
  | Dir es =>
      (top, dirnames es, filenames es) ::
      (fix sub (es : list (string * node)) : list (string * list string * list string) :=
         match es with
         | [] => []
         | (name, child) :: rest => walk_from (join top name) child ++ sub rest
         end) es
  end.

(** A [top] that does not exist or is not a directory yields nothing:
    [os.walk] swallows the error of its first listing ([onerror] is
    [None]). *)
Definition os_walk (fs : filesystem) (top : string) : list (string * list string * list string) :=
  match resolve fs top with
  | Ok loc =>
      match find_node fs loc with
      | Some n => walk_from top n
      | None => []
      end
  | Raise _ => []
  end.

(** [open(path, 'rb')] followed by reading the whole file. *)
Definition open_read (fs : filesystem) (path : string) : result (list byte) :=
  match resolve fs path with
  | Raise e => Raise e
  | Ok loc =>
      match find_node fs loc with
      | Some (File (Readable data)) => Ok data
      | Some (File (Unreadable e)) => Raise e
      | Some (Dir _) => Raise OSError
      | None => Raise FileNotFoundError
      end
  end.

(** A directory listing without the entries called [name]. *)
Definition without (name : string) (es : list (string * node)) : list (string * node) :=
  filter (fun '(n, _) => negb (n =? name)) es.

(** A directory listing with [f] applied to the entry that [name] leads
    to. *)
Fixpoint update (name : string) (f : node -> node) (es : list (string * node)) :
    list (string * node) :=
  match es with
  | [] => []
  | (n, child) :: rest =>
      if n =? name then (n, f child) :: rest else (n, child) :: update name f rest
  end.

(** The tree without the entry at [loc]. *)
Fixpoint unlink (n : node) (loc : location) : node :=
  match loc with
  | [] => n
  | name :: rest =>
      match n with
      | File _ => n
      | Dir es =>
          match rest with
          | [] => Dir (without name es)
          | _ :: _ => Dir (update name (fun child => unlink child rest) es)
          end
      end
  end.

Definition entries_of (n : node) : list (string * node) :=
  match n with
  | Dir es => es
  | File _ => []
  end.

(** [os.remove(path)]: unlinks a regular file.  It raises when the path
    leads nowhere or to a directory, and when the file cannot be unlinked;
    the file system is then as it was. *)
Definition os_remove (fs : filesystem) (path : string) : result filesystem :=
  match resolve fs path with
  | Raise e => Raise e
  | Ok loc =>
      match find_node fs loc with
      | Some (File _) =>
          if existsb (location_eqb loc) (stuck fs) then Raise PermissionError
          else Ok {| root := entries_of (unlink (Dir (root fs)) loc);
                     cwd := cwd fs;
                     stuck := stuck fs |}
      | Some (Dir _) => Raise OSError
      | None => Raise FileNotFoundError
      end
  end.

(** [os.path.isfile(path)] *)
Definition is_file (fs : filesystem) (path : string) : bool :=
  match resolve fs path with
  | Ok loc =>
      match find_node fs loc with
      | Some (File _) => true
      | _ => false
      end
  | Raise _ => false
  end.

(** [os.path.isdir(path)] *)
Definition is_dir (fs : filesystem) (path : string) : bool :=
  match resolve fs path with
  | Ok loc =>
      match find_node fs loc with
      | Some (Dir _) => true
      | _ => false
      end
  | Raise _ => false
  end.

(** The regular file, and whether a directory is, at a location. *)
Definition file_at (n : node) (loc : location) : option file :=
  match node_at n loc with
  | Some (File f) => Some f
  | _ => None
  end.

Definition dir_at (n : node) (loc : location) : bool :=
  match node_at n loc with
  | Some (Dir _) => true
  | _ => false
  end.

(** The location that [os.remove(path)] unlinks, if it unlinks one. *)
Definition target (fs : filesystem) (path : string) : option location :=
  match resolve fs path with
  | Ok loc =>
      match file_at (Dir (root fs)) loc with
      | Some _ => if existsb (location_eqb loc) (stuck fs) then None else Some loc
      | None => None
      end
  | Raise _ => None
  end.

(** A listed file, seen from the directory at [loc] above. *)
Definition below (loc : location) (e : string * location) : string * location :=
  (fst e, (loc ++ snd e)%list).

(** The files that the walk of [n] lists: for each, the path name that
    [get_file_paths] makes of it when the walk started as [top], and where
    the file is below [n]. *)
Fixpoint files_from (cwd top : string) (n : node) {struct n} : list (string * location) :=
  match n with
  | File _ => []
  | Dir es =>
      map (fun name => (abspath cwd (join top name), [name])) (filenames es) ++
      flat_map (fun e => map (below [fst e]) (files_from cwd (join top (fst e)) (snd e))) es
  end.

Definition listing (fs : filesystem) (dir : string) : list (string * location) :=
  match resolve fs dir with
  | Ok loc =>
      match find_node fs loc with
      | Some n => map (below loc) (files_from (cwd fs) dir n)
      | None => []
      end
  | Raise _ => []
  end.

(** The listed file is not the one at [loc]. *)
Definition elsewhere (loc : location) (e : string * location) : bool :=
  negb (location_eqb (snd e) loc).

Fixpoint distinct {A} (eqb : A -> A -> bool) (l : list A) : bool :=
  match l with
  | [] => true
  | x :: rest => negb (existsb (eqb x) rest) && distinct eqb rest
  end.

(** No directory lists a name twice. *)
Fixpoint distinct_names (n : node) : bool :=
  match n with
  | File _ => true
  | Dir es =>
      distinct String.eqb (map fst es) &&
      forallb (fun e => distinct_names (snd e)) es
  end.

(** The path [p] leads to the regular file at [loc]. *)
Definition leads_to (fs : filesystem) (p : string) (loc : location) : bool :=
  match resolve fs p with
  | Ok l =>
      location_eqb l loc &&
      match file_at (Dir (root fs)) loc with
      | Some _ => true
      | None => false
      end
  | Raise _ => false
  end.

(** What the scan of [dir] gathers is coherent: no directory lists a name
    twice, every gathered path leads back to the regular file it was
    listed for, and no file is gathered twice.  This is what a tree of
    directories and regular files gives (every scan of a [well_formed]
    file system is coherent); a symbolic link among the files would break
    it, as its path leads to another file or to none. *)
Definition coherent (fs : filesystem) (dir : string) : bool :=
  distinct_names (Dir (root fs)) &&
  forallb (fun e => leads_to fs (fst e) (snd e)) (listing fs dir) &&
  distinct location_eqb (map snd (listing fs dir)).

(** A name that a directory can list: not empty, not [.] or [..], and
    free of separators. *)
Fixpoint has_sep (s : string) : bool :=
  match s with
  | EmptyString => false
  | String c rest => Ascii.eqb c os_sep || has_sep rest
  end.

Definition plain (name : string) : bool :=
  negb (name =? "") && negb (name =? ".") && negb (name =? "..") && negb (has_sep name).

Fixpoint plain_names (n : node) : bool :=
  match n with
  | File _ => true
  | Dir es => forallb (fun e => plain (fst e) && plain_names (snd e)) es
  end.

(** The way to [loc] is clear: the names on it are plain and every
    directory above [loc] exists. *)
Definition clear_way (fs : filesystem) (loc : location) : Prop :=
  Forall (fun name => plain name = true) loc /\
  forall i, (i < List.length loc)%nat -> dir_at (Dir (root fs)) (firstn i loc) = true.

(** The absolute path name of a location, as [os.getcwd] gives it. *)
Definition path_of (loc : location) : string := ("/" ++ String.concat "/" loc)%string.

(** A file system as the system presents it: every directory lists plain
    names, each once, and the working directory is an existing directory,
    given by its absolute path name. *)
Definition well_formed (fs : filesystem) : bool :=
  distinct_names (Dir (root fs)) && plain_names (Dir (root fs)) &&
  (cwd fs =? path_of (components (cwd fs))) &&
  forallb plain (components (cwd fs)) &&
  dir_at (Dir (root fs)) (components (cwd fs)).

(** Whether [path] leads to a file that cannot be unlinked. *)
Definition is_stuck (fs : filesystem) (path : string) : bool :=
  match resolve fs path with
  | Ok loc => existsb (location_eqb loc) (stuck fs)
  | Raise _ => false
  end.

(** ** Interpreter state: module globals, file system, console *)

(** The module-level [file_to_hash] and [hash_to_files], with the store of
    the list objects that [hash_to_files] (and later [collisions]) refer
    to by address. *)
Record globals : Type := Globals {
  store : list (list string);
  file_to_hash : list (string * string);
  hash_to_files : list (string * nat)
}.

(** The state right after the module is loaded. *)
Definition module_init : globals :=
  {| store := []; file_to_hash := []; hash_to_files := [] |}.

Inductive reply : Type :=
| Line (s : text)       (* a line typed at the prompt *)
| CtrlC.                (* the operator interrupts the prompt *)

Inductive event : Type :=
| Print (s : string)        (* [print(s)] *)
| Input (prompt : string)   (* [input(prompt)] is called *)
| Remove (path : string)    (* [os.remove(path)] is called *)
| Elapsed (func : string).  (* the line printed by [time_it], whose figure is not modelled *)

Record world : Type := World {
  glob : globals;
  fs : filesystem;
  stdin : list reply;       (* replies not yet consumed; none left is end of input *)
  console : list event      (* what happened so far, oldest first *)
}.

Definition set_glob (g : globals) (w : world) : world :=
  {| glob := g; fs := fs w; stdin := stdin w; console := console w |}.
Definition set_fs (t : filesystem) (w : world) : world :=
  {| glob := glob w; fs := t; stdin := stdin w; console := console w |}.
Definition set_stdin (i : list reply) (w : world) : world :=
  {| glob := glob w; fs := fs w; stdin := i; console := console w |}.
Definition emit (evs : list event) (w : world) : world :=
  {| glob := glob w; fs := fs w; stdin := stdin w; console := console w ++ evs |}.

(** Computations that read and change the world and may raise. *)
Definition M (A : Type) : Type := world -> result A * world.

Definition ret {A} (a : A) : M A := fun w => (Ok a, w).
Definition raise {A} (e : exn) : M A := fun w => (Raise e, w).
Definition bind {A B} (m : M A) (k : A -> M B) : M B :=
  fun w =>
    match m w with
    | (Ok a, w') => k a w'
    | (Raise e, w') => (Raise e, w')
    end.

Declare Scope py_scope.
Delimit Scope py_scope with py.
Notation "x <- m ;; k" := (bind m (fun x => k))
  (at level 61, m at next level, right associativity) : py_scope.
Notation "m ;;; k" := (bind m (fun _ => k))
  (at level 61, right associativity) : py_scope.
Local Open Scope py_scope.

(** [try: m except <classes>: handler] *)
Definition try_except {A} (m : M A) (classes : exn -> bool) (handler : exn -> M A) : M A :=
  fun w =>
    match m w with
    | (Ok a, w') => (Ok a, w')
    | (Raise e, w') => if classes e then handler e w' else (Raise e, w')
    end.

Definition when (b : bool) (m : M unit) : M unit := if b then m else ret tt.

(** [for x in l: body(x)] *)
Fixpoint for_each {A} (l : list A) (body : A -> M unit) : M unit :=
  match l with
  | [] => ret tt
  | x :: rest => body x ;;; for_each rest body
  end.

Definition get_glob : M globals := fun w => (Ok (glob w), w).
Definition put_glob (g : globals) : M unit := fun w => (Ok tt, set_glob g w).
Definition get_fs : M filesystem := fun w => (Ok (fs w), w).
Definition lift {A} (r : result A) : M A := fun w => (r, w).

Definition print (s : string) : M unit := fun w => (Ok tt, emit [Print s] w).

(** [input(prompt)]: the next reply, [KeyboardInterrupt] when the operator
    interrupts, [EOFError] when nothing is left to read. *)
Definition input (prompt : string) : M text :=
  fun w =>
    let w' := emit [Input prompt] w in
    match stdin w with
    | Line s :: rest => (Ok s, set_stdin rest w')
    | CtrlC :: rest => (Raise KeyboardInterrupt, set_stdin rest w')
    | [] => (Raise EOFError, w')
    end.

Definition remove (path : string) : M unit :=
  fun w =>
    let w' := emit [Remove path] w in
    match os_remove (fs w) path with
    | Ok t => (Ok tt, set_fs t w')
    | Raise e => (Raise e, w')
    end.

(** *** Dictionaries and list objects *)

Fixpoint dict_get {V} (d : list (string * V)) (k : string) : option V :=
  match d with
  | [] => None
  | (k', v) :: rest => if k' =? k then Some v else dict_get rest k
  end.

(** [d[k] = v] *)
Fixpoint dict_set {V} (d : list (string * V)) (k : string) (v : V) : list (string * V) :=
  match d with
  | [] => [(k, v)]
  | (k', v') :: rest => if k' =? k then (k', v) :: rest else (k', v') :: dict_set rest k v
  end.

Definition deref (st : list (list string)) (a : nat) : list string := nth a st [].

Fixpoint assign (st : list (list string)) (a : nat) (l : list string) : list (list string) :=
  match st, a with
  | [], _ => []
  | _ :: rest, O => l :: rest
  | x :: rest, S a' => x :: assign rest a' l
  end.

(** [hash_to_files[h].append(path)] on a [defaultdict(list)]: a missing key
    first gets a fresh empty list object. *)
Definition index_append (g : globals) (h path : string) : globals :=
  match dict_get (hash_to_files g) h with
  | Some a =>
      {| store := assign (store g) a (deref (store g) a ++ [path]);
         file_to_hash := file_to_hash g;
         hash_to_files := hash_to_files g |}
  | None =>
      {| store := store g ++ [[path]];
         file_to_hash := file_to_hash g;
         hash_to_files := hash_to_files g ++ [(h, List.length (store g))] |}
  end.

Definition record_hash (g : globals) (path h : string) : globals :=
  {| store := store g;
     file_to_hash := dict_set (file_to_hash g) path h;
     hash_to_files := hash_to_files g |}.

(** The index as a value: each fingerprint with the contents of its list. *)
Definition index_view (g : globals) : list (string * list string) :=
  map (fun '(h, a) => (h, deref (store g) a)) (hash_to_files g).

(** ** The scripts *)

(** Which script runs: [clean_up.py] or [cleanup_v2.py]. *)
Inductive script : Type := V1 | V2.

(** [get_file_paths] (the same in both scripts). *)
Definition get_file_paths (t : filesystem) (dir : string) : list string :=
  flat_map
    (fun '(dirpath, _, filenames) =>
       map (fun filename => abspath (cwd t) (join dirpath filename)) filenames)
    (os_walk t dir).

(** The blocks produced by [iter(lambda: f.read(chunk_size), b'')]: reads of
    at most [chunk_size] bytes until a read returns nothing. *)
Fixpoint read_blocks (fuel chunk_size : nat) (data : list byte) : list (list byte) :=
  match fuel with
  | O => []
  | S fuel' =>
      match firstn chunk_size data with
      | [] => []
      | block => block :: read_blocks fuel' chunk_size (skipn chunk_size data)
      end
  end.

Definition chunk_size : nat := N.to_nat 8192.

(** The body shared by [hash_file] and [process_file]: feed the blocks of
    the file to a fresh MD5 object. *)
Definition md5_of_file (t : filesystem) (file_path : string) : result string :=
  match open_read t file_path with
  | Raise e => Raise e
  | Ok data =>
      let f_hash :=
        fold_left Md5.update (read_blocks (List.length data) chunk_size data) Md5.new in
      Ok (Md5.hexdigest f_hash)
  end.

(** [clean_up.py]: [hash_file] has no handler. *)
Definition hash_file (t : filesystem) (file_path : string) : result string :=
  md5_of_file t file_path.

(** [cleanup_v2.py]: [process_file] turns an [OSError] into a [None] hash. *)
Definition process_file (t : filesystem) (file_path : string) : result (string * option string) :=
  match md5_of_file t file_path with
  | Ok h => Ok (file_path, Some h)
  | Raise e => if is_OSError e then Ok (file_path, None) else Raise e
  end.

(** [executor.map(f, items)]: the outcome of every call, in the order the
    calls were submitted. *)
Definition executor_map {A B} (f : A -> result B) (items : list A) : list (result B) :=
  map f items.

(** Truth value of a hash that may be [None]. *)
Definition truthy (h : option string) : bool :=
  match h with
  | Some s => negb (s =? "")
  | None => false
  end.

Definition add_to_index (path file_hash : string) : M unit :=
  g <- get_glob ;;
  put_glob (index_append (record_hash g path file_hash) file_hash path).

(** The hashing loop of [clean_up]. *)
Definition scan (v : script) (file_paths : list string) : M unit :=
  match v with
  | V1 =>
      for_each file_paths (fun path =>
        t <- get_fs ;;
        file_hash <- lift (hash_file t path) ;;
        add_to_index path file_hash)
  | V2 =>
      t <- get_fs ;;
      let results := executor_map (process_file t) file_paths in
      for_each results (fun r =>
        res <- lift r ;;
        let '(path, file_hash) := res in
        when (truthy file_hash)
          (match file_hash with
           | Some h => add_to_index path h
           | None => ret tt
           end))
  end.

(** [{h: paths for h, paths in hash_to_files.items() if len(paths) > 1}]:
    the values are the list objects of [hash_to_files] themselves. *)
Definition collisions_of (g : globals) : list (string * nat) :=
  filter (fun '(_, a) => 1 <? List.length (deref (store g) a))%nat (hash_to_files g).

Definition display_collisions (collisions : list (string * nat)) : M unit :=
  match collisions with
  | [] => print "No hash collisions found."
  | _ =>
      for_each collisions (fun '(h, a) =>
        print (nl ++ "The following files share the same hash (" ++ h
                  ++ "), and have the same binary data.")%string ;;;
        g <- get_glob ;;
        let paths := deref (store g) a in
        for_each (combine (seq 0 (List.length paths)) paths) (fun '(i, path) =>
          print (str_of_nat (i + 1) ++ " - " ++ path)%string))
  end.

(** [paths.sort(key=...)]: a stable sort by key, here by insertion from the
    right, where an element stops in front of the first one whose key is
    not smaller. *)
Fixpoint insert_by {A} (key : A -> nat) (x : A) (l : list A) : list A :=
  match l with
  | [] => [x]
  | y :: rest => if (key x <=? key y)%nat then x :: l else y :: insert_by key x rest
  end.

Fixpoint sort_by {A} (key : A -> nat) (l : list A) : list A :=
  match l with
  | [] => []
  | x :: rest => insert_by key x (sort_by key rest)
  end.

(** [lambda p: p.count(os.sep)] *)
Definition depth (p : string) : nat := str_count os_sep p.

Definition str_of_exn (e : exn) (path : string) : string :=
  match e with
  | FileNotFoundError => "[Errno 2] No such file or directory: '" ++ path ++ "'"
  | PermissionError => "[Errno 13] Permission denied: '" ++ path ++ "'"
  | OSError => "[Errno 21] Is a directory: '" ++ path ++ "'"
  | _ => ""
  end%string.

(** [list.sort] works in place: the list object at [a] is overwritten. *)
Definition sort_in_place (a : nat) : M (list string) :=
  g <- get_glob ;;
  let sorted := sort_by depth (deref (store g) a) in
  put_glob {| store := assign (store g) a sorted;
              file_to_hash := file_to_hash g;
              hash_to_files := hash_to_files g |} ;;;
  ret sorted.

(** [delete_duplicates] (the same in both scripts). *)
Definition delete_duplicates (collisions : list (string * nat)) : M unit :=
  for_each collisions (fun '(_, a) =>
    g <- get_glob ;;
    when (1 <? List.length (deref (store g) a))%nat
      (paths <- sort_in_place a ;;
       for_each (skipn 1 paths) (fun path =>
         try_except
           (remove path ;;; print ("Deleted: " ++ path)%string)
           is_Exception
           (fun e => print ("Error deleting " ++ path ++ ": " ++ str_of_exn e path)%string)))).

(** [time_it]: prints the elapsed time once the wrapped call has returned. *)
Definition time_it {A} (name : string) (func : M A) : M A :=
  result <- func ;;
  (fun w => (Ok tt, emit [Elapsed name] w)) ;;;
  ret result.

Definition yes_no : list text := [typed "yes"; typed "y"; typed "no"; typed "n"].
Definition affirmative : list text := [typed "yes"; typed "y"].

Definition please_enter : string := "Please enter 'yes'/'y' or 'no'/'n'.".

(** The loop
    [while True: x = input(prompt).strip().lower(); if x in [...]: ...; break; else: print(...)].
    Every iteration consumes one reply, so one more iteration than there are
    replies left always reaches a [break] or the end of input. *)
Fixpoint ask_loop (fuel : nat) (prompt : string) : M bool :=
  match fuel with
  | O => raise EOFError
  | S fuel' =>
      line <- input prompt ;;
      let answer := lower (strip line) in
      if str_in answer yes_no then ret (str_in answer affirmative)
      else print please_enter ;;; ask_loop fuel' prompt
  end.

Definition ask_yes_no (prompt : string) : M bool :=
  fun w => ask_loop (S (List.length (stdin w))) prompt w.

Definition unlines (ls : list string) : string := String.concat nl ls.

Definition warning_message (v : script) : string :=
  unlines
    [ "";
      "            WARNING: Deleting duplicate files can be dangerous!";
      "";
      "            - Essential files might be duplicated intentionally for accessibility.";
      "            - Programs may rely on these files being in specific directories.";
      "";
      "            - This tool will delete all duplicate instances of a file. Duplicates are defined as having the same";
      match v with
      | V1 => "              binary data. Only one single instance will be kept. This is will the file with the shortest path"
      | V2 => "              binary data. Only one single instance will be kept. This will be the file with the shortest path"
      end;
      "              from root (/)";
      "";
      "            Please consider these risks before proceeding.";
      "            " ].

Definition proceed_prompt (v : script) : string :=
  match v with
  | V1 => "Proceed to Delete? Hit Enter to Continue: "
  | V2 => "Proceed to Delete? Hit Enter to Continue (Ctrl+C to abort): "
  end.

Definition show_prompt : string :=
  "Do you want to see all the files (absolute paths) which share the same binary data? (yes/no)? ".

Definition confirm_prompt : string := "Do you know what you are doing (yes/no)? ".

(** The first prompt of the [if delete:] block.  Its reply is discarded.
    [cleanup_v2.py] catches an interrupt there and returns from [clean_up],
    which the result [false] stands for. *)
Definition proceed (v : script) : M bool :=
  match v with
  | V1 => input (proceed_prompt V1) ;;; ret true
  | V2 =>
      try_except
        (input (proceed_prompt V2) ;;; ret true)
        is_KeyboardInterrupt
        (fun _ => print (nl ++ "Operation cancelled.")%string ;;; ret false)
  end.

(** The [if collisions: ... else: ...] block under [if delete:]. *)
Definition confirm_and_delete (v : script) (show_collisions : bool)
    (collisions : list (string * nat)) : M unit :=
  match collisions with
  | [] => print "Nothing to delete. No duplicate files found"
  | _ :: _ =>
      print (warning_message v) ;;;
      when (negb show_collisions)
        (show <- ask_yes_no show_prompt ;;
         when show (display_collisions collisions)) ;;;
      confirm_delete <- ask_yes_no confirm_prompt ;;
      if confirm_delete then delete_duplicates collisions
      else print "Aborted deletion."
  end.

(** The report that follows the hashing loop. *)
Definition report (show_collisions : bool) (collisions : list (string * nat)) : M unit :=
  if show_collisions then display_collisions collisions
  else print ("Duplicates were found for " ++ str_of_nat (List.length collisions)
                 ++ " individual files" ++ nl)%string.

(** The body of [if delete:]. *)
Definition delete_block (v : script) (show_collisions : bool)
    (collisions : list (string * nat)) : M unit :=
  go_on <- proceed v ;;
  when go_on (confirm_and_delete v show_collisions collisions).

Definition is_v2 (v : script) : bool :=
  match v with
  | V2 => true
  | V1 => false
  end.

Definition clean_up_body (v : script) (dir : string) (show_collisions delete : bool) : M unit :=
  when (is_v2 v) (print "Gathering file paths...") ;;;
  t <- get_fs ;;
  let file_paths := get_file_paths t dir in
  when (is_v2 v)
    (print ("Found " ++ str_of_nat (List.length file_paths)
                     ++ " files. Hashing in parallel...")%string) ;;;
  scan v file_paths ;;;
  g <- get_glob ;;
  let collisions := collisions_of g in
  report show_collisions collisions ;;;
  when delete (delete_block v show_collisions collisions).

(** [clean_up(dir, show_collisions, delete)]; only [cleanup_v2.py] applies
    the [time_it] decorator. *)
Definition clean_up (v : script) (dir : string) (show_collisions delete : bool) : M unit :=
  match v with
  | V1 => clean_up_body V1 dir show_collisions delete
  | V2 => time_it "clean_up" (clean_up_body V2 dir show_collisions delete)
  end.

(** A process started from the command line: the module is loaded, then
    [clean_up] runs once on the given file system and replies. *)
Definition fresh (t : filesystem) (replies : list reply) : world :=
  {| glob := module_init; fs := t; stdin := replies; console := [] |}.

(** *** Sample trees *)

Definition sample_tree : filesystem :=
  {| root :=
  [ ("data", Dir [ ("A", File (Readable (bytes_of_string "x")));
                   ("sub", Dir [ ("B", File (Readable (bytes_of_string "x"))) ]);
                   ("C", File (Readable (bytes_of_string "y"))) ]);
    ("empty", Dir []);
    ("note", File (Readable [])) ];
     cwd := "/";
     stuck := [] |}.

Definition locked_tree : filesystem :=
  {| root :=
  [ ("box", Dir [ ("a", File (Readable (bytes_of_string "x")));
                  ("secret", File (Unreadable PermissionError));
                  ("b", File (Readable (bytes_of_string "x"))) ]);
    ("bad", Dir [ ("a", File (Readable (bytes_of_string "x")));
                  ("huge", File (Unreadable MemoryError)) ]) ];
     cwd := "/";
     stuck := [] |}.

Definition deep_tree : filesystem :=
  {| root :=
  [ ("r", Dir [ ("a", Dir [ ("deep", Dir [ ("x", File (Readable (bytes_of_string "x"))) ]) ]);
                ("b", Dir [ ("y", File (Readable (bytes_of_string "x"))) ]);
                ("c", Dir [ ("z", File (Readable (bytes_of_string "x"))) ]) ]) ];
     cwd := "/";
     stuck := [] |}.

(** The world after [clean_up.py] has scanned ["/r"] of [deep_tree] without
    [--delete]: one group, in the order of the walk. *)
Definition deep_world : world :=
  snd (clean_up V1 "/r" false false (fresh deep_tree [])).

Definition blank_tree : filesystem :=
  {| root :=
  [ ("t", Dir [ ("one", File (Readable []));
                ("d", Dir [ ("two", File (Readable []));
                            ("three", File (Readable (bytes_of_string "x"))) ]);
                ("four", File (Readable [])) ]) ];
     cwd := "/";
     stuck := [] |}.

(** The same tree, where the file [/t/d/two] cannot be unlinked. *)
Definition stuck_tree : filesystem :=
  {| root := root blank_tree; cwd := "/"; stuck := [["t"; "d"; "two"]] |}.

(** *** Observations used in the statements *)

(** The hashing loop as a function of the file system and the globals it
    starts from: its outcome and the globals it leaves. *)
Definition scan_from (v : script) (t : filesystem) (file_paths : list string)
    (g : globals) : result unit * globals :=
  let '(r, w) := scan v file_paths {| glob := g; fs := t; stdin := []; console := [] |} in
  (r, glob w).

(** The collision groups as values. *)
Definition groups_of (g : globals) : list (string * list string) :=
  map (fun '(h, a) => (h, deref (store g) a)) (collisions_of g).

(** The paths handed to [os.remove], in order. *)
Definition removals (evs : list event) : list string :=
  flat_map (fun ev => match ev with Remove p => [p] | _ => [] end) evs.

(** The prompts issued, in order. *)
Definition prompts (evs : list event) : list string :=
  flat_map (fun ev => match ev with Input p => [p] | _ => [] end) evs.

(** A reply that the yes/no prompts do not recognise. *)
Definition unrecognised (r : reply) : Prop :=
  exists s, r = Line s /\ str_in (lower (strip s)) yes_no = false.

(** A path that [open] and [read] accept. *)
Definition readable (t : filesystem) (p : string) : bool :=
  match open_read t p with
  | Ok _ => true
  | Raise _ => false
  end.

(** The file system after an attempt to remove [p]: a failed [os.remove]
    leaves it as it was. *)
Definition rm (t : filesystem) (p : string) : filesystem :=
  match os_remove t p with
  | Ok t' => t'
  | Raise _ => t
  end.

(** The store after the in-place sorts of [delete_duplicates]. *)
Definition sort_group (st : list (list string)) (a : nat) : list (list string) :=
  if (1 <? List.length (deref st a))%nat then assign st a (sort_by depth (deref st a))
  else st.

Definition sort_groups (st : list (list string)) (collisions : list (string * nat)) :
    list (list string) :=
  fold_left (fun st '(_, a) => sort_group st a) collisions st.

(** What [delete_duplicates] hands to [os.remove] for the list at [a]:
    everything after the first element of the sorted list. *)
Definition doomed (st : list (list string)) (a : nat) : list string :=
  skipn 1 (sort_by depth (deref st a)).

(** How one call relates the world it starts in to the world it leaves. *)
Definition respects {A} (R : world -> world -> Prop) (m : M A) : Prop :=
  forall w, R w (snd (m w)).

(** The file system changes only through the [os.remove] calls on record. *)
Definition removes_only (w w' : world) : Prop :=
  exists evs, console w' = (console w ++ evs)%list /\
              fs w' = fold_left rm (removals evs) (fs w).

(** Every entry of the index is kept, with at least the paths it had. *)
Definition index_kept (w w' : world) : Prop :=
  forall h l, In (h, l) (index_view (glob w)) ->
    exists l', In (h, l') (index_view (glob w')) /\ incl l l'.

(** What a run started from the command line finds: the collision groups
    after the hashing loop, or the error that ends the loop. *)
Definition groups_found (v : script) (t : filesystem) (dir : string) :
    result (list (string * list string)) :=
  match scan_from v t (get_file_paths t dir) module_init with
  | (Ok _, g) => Ok (groups_of g)
  | (Raise e, _) => Raise e
  end.

(** The world after the lines that [cleanup_v2.py] prints before hashing. *)
Definition announce (v : script) (file_paths : list string) (w : world) : world :=
  match v with
  | V1 => w
  | V2 => emit [ Print ("Found " ++ str_of_nat (List.length file_paths)
                                 ++ " files. Hashing in parallel...")%string ]
               (emit [ Print "Gathering file paths..." ] w)
  end.

(** Replies that answer a yes/no prompt with [b]: lines that the prompt
    does not recognise, then one that it does and that means [b]. *)
Definition answers (b : bool) (replies : list reply) : Prop :=
  exists junk s,
    replies = (junk ++ [Line s])%list /\
    Forall unrecognised junk /\
    str_in (lower (strip s)) yes_no = true /\
    str_in (lower (strip s)) affirmative = b.

(** Nothing but [print]s lies between two worlds. *)
Definition only_prints (w w' : world) : Prop :=
  exists evs, w' = emit evs w /\ removals evs = [] /\ prompts evs = [].

(** No path enters the index. *)
Definition nothing_added (w w' : world) : Prop :=
  forall h l p, In (h, l) (index_view (glob w')) -> In p l ->
    exists h0 l0, In (h0, l0) (index_view (glob w)) /\ In p l0.

(** The globals of a reachable state: [hash_to_files] has distinct keys and
    its values are the list objects of the store, one each, in the order in
    which they were created. *)
Definition wf_globals (g : globals) : Prop :=
  map snd (hash_to_files g) = seq 0 (List.length (store g)) /\
  NoDup (map fst (hash_to_files g)).

(** A regular file of no bytes. *)
Definition is_empty_file (t : filesystem) (p : string) : bool :=
  match open_read t p with
  | Ok [] => true
  | _ => false
  end.

(** The fingerprint of the empty byte sequence. *)
Definition empty_digest : string := Md5.hexdigest Md5.new.

(** *** Observations for the further properties *)

(** [hash_to_files.get(h, [])]: the paths recorded under a fingerprint. *)
Definition group_at (g : globals) (h : string) : list string :=
  match dict_get (hash_to_files g) h with
  | Some a => deref (store g) a
  | None => []
  end.

(** The path can be hashed and its fingerprint is [h]. *)
Definition has_digest (t : filesystem) (h p : string) : bool :=
  match md5_of_file t p with
  | Ok h' => h' =? h
  | Raise _ => false
  end.

(** The test of the yes/no loops on a reply. *)
Definition recognised (s : text) : bool := str_in (lower (strip s)) yes_no.

Definition all_space (s : text) : Prop :=
  Forall (fun c => is_space c = true) s.

(** The lines printed by [time_it]. *)
Definition elapsed (evs : list event) : list string :=
  flat_map (fun ev => match ev with Elapsed n => [n] | _ => [] end) evs.

(** The lines printed by [print]. *)
Definition printed (evs : list event) : list string :=
  flat_map (fun ev => match ev with Print s => [s] | _ => [] end) evs.

(** The number of regular files in a tree. *)
Fixpoint count_files (n : node) : nat :=
  match n with
  | File _ => 1
  | Dir es =>
      (fix sum (es : list (string * node)) : nat :=
         match es with
         | [] => 0
         | (_, child) :: rest => count_files child + sum rest
         end) es
  end.

(** From [w] to [w'] the script only talked: it printed and read replies,
    and left the globals and the file system alone. *)
Definition talked (w w' : world) : Prop :=
  glob w' = glob w /\
  fs w' = fs w /\
  (exists consumed, stdin w = (consumed ++ stdin w')%list) /\
  (exists evs, console w' = (console w ++ evs)%list /\ removals evs = []).

(** Among the replies waiting in [w] there is a line that means yes. *)
Definition yes_is_waiting (w : world) : Prop :=
  exists s, In (Line s) (stdin w) /\ str_in (lower (strip s)) affirmative = true.

(** The number of paths in the given groups. *)
Definition total_paths (st : list (list string)) (collisions : list (string * nat)) : nat :=
  list_sum (map (fun '(_, a) => List.length (deref st a)) collisions).

(** The hashing loop lets the exception through: [clean_up.py] catches
    nothing, [cleanup_v2.py] catches [OSError] only. *)
Definition aborts (v : script) (e : exn) : bool :=
  match v with
  | V1 => true
  | V2 => negb (is_OSError e)
  end.

(** The number of regular files below [dir], if [dir] is a directory. *)
Definition files_below (t : filesystem) (dir : string) : nat :=
  match resolve t dir with
  | Ok loc =>
      match find_node t loc with
      | Some (Dir es) => count_files (Dir es)
      | _ => 0
      end
  | Raise _ => 0
  end.

(** What one round of a yes/no loop leaves on the console when the reply
    is not recognised. *)
Definition asked_again (prompt : string) (junk : list reply) : list event :=
  flat_map (fun _ => [Input prompt; Print please_enter]) junk.

(** Two worlds with the same globals, file system and waiting replies, in
    which the same paths have been handed to [os.remove]: they differ at
    most in what was printed and asked. *)
Definition same_but_talk (w1 w2 : world) : Prop :=
  glob w1 = glob w2 /\ fs w1 = fs w2 /\ stdin w1 = stdin w2 /\
  removals (console w1) = removals (console w2).

(** Two computations that cannot be told apart by their outcome and by what
    they do to such worlds. *)
Definition agree {A} (m1 m2 : M A) : Prop :=
  forall w1 w2, same_but_talk w1 w2 ->
    fst (m1 w1) = fst (m2 w2) /\ same_but_talk (snd (m1 w1)) (snd (m2 w2)).

(** * The generator of test trees, [dupgen.py] *)

Module Dupgen.

#[local] Open Scope nat_scope.

(** The script draws from the module [random] throughout.  The random
    source is a parameter of the model: [draw k] is the number behind the
    [k]-th draw of a run, and a computation passes on the count of the
    draws made so far. *)
Definition source : Type := nat -> nat.
Definition Rand (A : Type) : Type := nat -> A * nat.

(** [random.choice(seq)] on a non-empty sequence: the element at some index
    below [len(seq)]. *)
Definition choice {A} (draw : source) (d : A) (seq : list A) : Rand A :=
  fun pos => (nth (draw pos mod List.length seq) seq d, S pos).

(** [string.ascii_letters], [string.digits] and [string.punctuation]. *)
Definition ascii_letters : list ascii := map ascii_of_nat (seq 97 26 ++ seq 65 26).
Definition digits : list ascii := map ascii_of_nat (seq 48 10).
Definition punctuation : list ascii :=
  map ascii_of_nat (seq 33 15 ++ seq 58 7 ++ seq 91 6 ++ seq 123 4).

(** [''.join(random.choice(letters) for _ in range(length))] *)
Fixpoint random_chars (draw : source) (letters : list ascii) (length : nat) : Rand string :=
  fun pos =>
    match length with
    | O => (EmptyString, pos)
    | S length' =>
        let (c, pos1) := choice draw " "%char letters pos in
        let (s, pos2) := random_chars draw letters length' pos1 in
        (String c s, pos2)
    end.

Definition text_letters : list ascii := (ascii_letters ++ digits ++ punctuation ++ [" "%char])%list.
Definition name_letters : list ascii := (ascii_letters ++ digits)%list.

Definition generate_random_text (draw : source) (length : nat) : Rand string :=
  random_chars draw text_letters length.

Definition generate_random_name (draw : source) (length : nat) : Rand string :=
  random_chars draw name_letters length.

Definition extensions : list string :=
  [".mov"; ".mp4"; ".pdf"; ".jpg"; ".png"; ".c"; ".cpp"; ".js"; ".rs"; ".sv"; ".docx"; ".ppt"].

(** The inner loop of [generate_file_paths]: the paths of
    [num_files_per_dir] files with random names in [dir_path]. *)
Fixpoint file_names (draw : source) (dir_path : string) (num_files_per_dir : nat) :
    Rand (list string) :=
  fun pos =>
    match num_files_per_dir with
    | O => ([], pos)
    | S k =>
        let (name, pos1) := generate_random_name draw 8 pos in
        let (ext, pos2) := choice draw EmptyString extensions pos1 in
        let (rest, pos3) := file_names draw dir_path k pos2 in
        (join dir_path (name ++ ext) :: rest, pos3)
    end.

(** What [generate_file_paths] changes: the count of draws, and the
    directories that [os.makedirs] has been called on, oldest first. *)
Record progress : Type := Progress {
  draws : nat;
  made : list string
}.

(** The loop [for _ in range(num_dirs): ...] of [generate_file_paths],
    with [below] for the call of the function on the new directory. *)
Fixpoint make_dirs (draw : source) (existed : string -> bool)
    (below : string -> progress -> list string * progress)
    (base_path : string) (num_files_per_dir : nat) (k : nat) (st : progress) {struct k} :
    list string * progress :=
  match k with
  | O => ([], st)
  | S k' =>
      let (dir_name, pos1) := generate_random_name draw 8 (draws st) in
      let dir_path := join base_path dir_name in
      let made1 :=
        if existed dir_path || existsb (String.eqb dir_path) (made st) then made st
        else (made st ++ [dir_path])%list in
      let (files, pos2) := file_names draw dir_path num_files_per_dir pos1 in
      let (deeper, st2) := below dir_path {| draws := pos2; made := made1 |} in
      let (rest, st3) := make_dirs draw existed below base_path num_files_per_dir k' st2 in
      ((files ++ deeper ++ rest)%list, st3)
  end.

(** [generate_file_paths] with [levels] standing for
    [depth - current_depth]: the function returns at once when
    [current_depth >= depth], and calls itself with [current_depth + 1].
    [existed] tells which paths exist before the run; directory creation is
    taken to succeed. *)
Fixpoint generate_from (draw : source) (existed : string -> bool) (levels : nat)
    (base_path : string) (num_dirs num_files_per_dir : nat) (st : progress) {struct levels} :
    list string * progress :=
  match levels with
  | O => ([], st)
  | S levels' =>
      make_dirs draw existed
        (fun dir_path st' =>
           generate_from draw existed levels' dir_path num_dirs num_files_per_dir st')
        base_path num_files_per_dir num_dirs st
  end.

Definition generate_file_paths (draw : source) (existed : string -> bool)
    (base_path : string) (num_dirs num_files_per_dir depth current_depth : nat)
    (st : progress) : list string * progress :=
  generate_from draw existed (depth - current_depth) base_path num_dirs num_files_per_dir st.

(** The exceptions that the arithmetic and the loop of [populate_files]
    could raise. *)
Inductive failure : Type :=
| ZeroDivisionError
| IndexError
| UnboundLocalError.

Inductive outcome (A : Type) : Type :=
| Done (a : A)
| Fails (e : failure).
Arguments Done {A} a.
Arguments Fails {A} e.

(** The variables that the loop of [populate_files] updates;
    [current_duplicate_content] is unbound until its first assignment. *)
Record loop_vars : Type := LoopVars {
  files_since_last_duplicate : nat;
  duplicate_index : nat;
  current_duplicate_content : option string
}.

(** One round of the loop: the content written to [file_path]. *)
Definition write_file (draw : source) (text_length num_files_per_dir duplicate_count : nat)
    (duplicate_content_list : list string) (file_path : string)
    (vars : loop_vars) (pos : nat) : outcome ((string * string) * loop_vars * nat) :=
  if (files_since_last_duplicate vars <? num_files_per_dir)
     && (duplicate_index vars <? duplicate_count)
  then
    match (if files_since_last_duplicate vars =? 0
           then match nth_error duplicate_content_list (duplicate_index vars) with
                | Some c => Done (Some c, S (duplicate_index vars))
                | None => Fails IndexError
                end
           else Done (current_duplicate_content vars, duplicate_index vars)) with
    | Fails e => Fails e
    | Done (None, _) => Fails UnboundLocalError
    | Done (Some c, index) =>
        let since := S (files_since_last_duplicate vars) in
        Done ((file_path, c),
              {| files_since_last_duplicate := if since =? num_files_per_dir then 0 else since;
                 duplicate_index := index;
                 current_duplicate_content := Some c |},
              pos)
    end
  else
    let (text, pos') := generate_random_text draw text_length pos in
    Done ((file_path, text),
          {| files_since_last_duplicate :=
               if duplicate_index vars <? duplicate_count then 0
               else S (files_since_last_duplicate vars);
             duplicate_index := duplicate_index vars;
             current_duplicate_content := current_duplicate_content vars |},
          pos').

(** [for i, file_path in enumerate(file_paths): ...]: the writes made, in
    order. *)
Fixpoint write_files (draw : source) (text_length num_files_per_dir duplicate_count : nat)
    (duplicate_content_list : list string) (file_paths : list string)
    (vars : loop_vars) (pos : nat) : outcome (list (string * string) * nat) :=
  match file_paths with
  | [] => Done ([], pos)
  | file_path :: rest =>
      match write_file draw text_length num_files_per_dir duplicate_count
              duplicate_content_list file_path vars pos with
      | Fails e => Fails e
      | Done (w, vars', pos') =>
          match write_files draw text_length num_files_per_dir duplicate_count
                  duplicate_content_list rest vars' pos' with
          | Fails e => Fails e
          | Done (ws, pos'') => Done (w :: ws, pos'')
          end
      end
  end.

(** [[generate_random_text(text_length) for _ in range(duplicate_count)]] *)
Fixpoint random_texts (draw : source) (text_length count : nat) : Rand (list string) :=
  fun pos =>
    match count with
    | O => ([], pos)
    | S count' =>
        let (text, pos1) := generate_random_text draw text_length pos in
        let (rest, pos2) := random_texts draw text_length count' pos1 in
        (text :: rest, pos2)
    end.

(** [populate_files].  [shuffle] is what [random.shuffle] does to the list
    at a given count of draws: the reordered list and the new count.  The
    quotient [int(total_files * duplicate_percentage / 100)] is taken on
    natural numbers, which is what the float division and [int] give for
    a product below 2^53.  Opening and writing the files is taken to
    succeed (their directories have been created by [generate_file_paths]).
    The result is the list of the writes, in order, each a path with the
    text written to it. *)
Definition populate_files (draw : source) (shuffle : list string -> Rand (list string))
    (file_paths : list string) (text_length duplicate_percentage num_files_per_dir : nat) :
    nat -> outcome (list (string * string) * nat) :=
  fun pos =>
    let total_files := List.length file_paths in
    let num_duplicates := total_files * duplicate_percentage / 100 in
    match num_files_per_dir with
    | O => Fails ZeroDivisionError
    | S _ =>
        let duplicate_count := num_duplicates / num_files_per_dir in
        let (shuffled, pos1) := shuffle file_paths pos in
        let (duplicate_content_list, pos2) := random_texts draw text_length duplicate_count pos1 in
        write_files draw text_length num_files_per_dir duplicate_count
          duplicate_content_list shuffled
          {| files_since_last_duplicate := 0;
             duplicate_index := 0;
             current_duplicate_content := None |}
          pos2
    end.

(** Which of the random texts of a run, counted from 0 in the order in
    which they are drawn, the [i]-th file written receives. *)
Definition text_of_file (num_files_per_dir duplicate_count i : nat) : nat :=
  if duplicate_count =? 0 then i
  else if i <? (duplicate_count - 1) * num_files_per_dir then i / num_files_per_dir
  else i - (duplicate_count - 1) * num_files_per_dir + (duplicate_count - 1).

(** The number of directories that [generate_file_paths] goes through. *)
Fixpoint directories (num_dirs levels : nat) : nat :=
  match levels with
  | O => 0
  | S levels' => num_dirs * (1 + directories num_dirs levels')
  end.

(** The script run on [root_dir], with its configuration of 2 directories
    per directory, 10 files per directory, texts of 100 characters, depth
    5 and 20 per cent of duplicates: the writes made and the line printed
    at the end. *)
Definition main (draw : source) (shuffle : list string -> Rand (list string))
    (existed : string -> bool) (root_dir : string) :
    outcome (list (string * string) * string) :=
  let num_dirs := 2 in
  let num_files_per_dir := 10 in
  let text_length := 100 in
  let depth := 5 in
  let duplicate_percentage := 20 in
  let (file_paths, st) :=
    generate_file_paths draw existed root_dir num_dirs num_files_per_dir depth 0
      {| draws := 0; made := [] |} in
  match populate_files draw shuffle file_paths text_length duplicate_percentage
          num_files_per_dir (draws st) with
  | Fails e => Fails e
  | Done (writes, _) =>
      Done (writes,
            ("Generated directory structure in " ++ root_dir ++ " with depth "
               ++ str_of_nat depth ++ ".")%string)
  end.

End Dupgen.

(** The [k]-th random text of a run of [populate_files] whose texts are
    drawn from the count [p0] of draws on. *)
Definition nth_text (draw : Dupgen.source) (text_length p0 k : nat) : string :=
  fst (Dupgen.generate_random_text draw text_length (p0 + k * text_length)).

(** The number of files written before the loop of [populate_files] turns
    to texts of their own. *)
Definition shared_files (num_files_per_dir duplicate_count : nat) : nat :=
  if (duplicate_count =? 0)%nat then 0 else (duplicate_count - 1) * num_files_per_dir + 1.

(** Where the loop of [populate_files] stands when [j] files have been
    written: about to take the duplicate text [b]; in the middle of the
    files that share the text [b]; or past the duplicate texts. *)
Definition loop_stands (draw : Dupgen.source) (text_length num_files_per_dir duplicate_count : nat)
    (p0 j : nat) (vars : Dupgen.loop_vars) (pos : nat) : Prop :=
  (exists b, b < duplicate_count /\
             Dupgen.files_since_last_duplicate vars = 0 /\
             Dupgen.duplicate_index vars = b /\
             j = b * num_files_per_dir /\
             pos = p0 + duplicate_count * text_length) \/
  (exists b f, S b < duplicate_count /\ 0 < f < num_files_per_dir /\
               Dupgen.files_since_last_duplicate vars = f /\
               Dupgen.duplicate_index vars = S b /\
               Dupgen.current_duplicate_content vars = Some (nth_text draw text_length p0 b) /\
               j = b * num_files_per_dir + f /\
               pos = p0 + duplicate_count * text_length) \/
  (Dupgen.duplicate_index vars = duplicate_count /\
   shared_files num_files_per_dir duplicate_count <= j /\
   pos = p0 + (duplicate_count + (j - shared_files num_files_per_dir duplicate_count))
              * text_length).

(** ** Basic facts *)

(** Known digests. *)
Example md5_empty : Md5.hexdigest (bytes_of_string "") = "d41d8cd98f00b204e9800998ecf8427e".
Proof. vm_compute. reflexivity. Qed.
Example md5_abc : Md5.hexdigest (bytes_of_string "abc") = "900150983cd24fb0d6963f7d28e17f72".
Proof. vm_compute. reflexivity. Qed.
Example md5_a70 : Md5.hexdigest (repeat "a"%byte 70) = "0f5c6c4e740bfcc08c3c26ccb2673d46".
Proof. vm_compute. reflexivity. Qed.

Lemma node_induction (P : node -> Prop) :
  (forall f, P (File f)) ->
  (forall es, Forall (fun e => P (snd e)) es -> P (Dir es)) ->
  forall n, P n.
Proof.
  intros P_File P_Dir. fix IH 1. intros [f|es].
  - apply P_File.
  - apply P_Dir. induction es as [|e es IHes]; constructor; [apply IH | exact IHes].
Qed.

Lemma hex_nonempty (bs : list Z) : bs <> [] -> (Md5.hex bs =? "") = false.
Proof. destruct bs as [|b rest]; [congruence | reflexivity]. Qed.

Lemma hexdigest_nonempty (h : Md5.t) : (Md5.hexdigest h =? "") = false.
Proof.
  unfold Md5.hexdigest, Md5.digest.
  destruct (fold_left Md5.compress _ Md5.init) as [[[a b] c] d].
  apply hex_nonempty. discriminate.
Qed.

Lemma fold_update (blocks : list (list byte)) (h : Md5.t) :
  fold_left Md5.update blocks h = (h ++ List.concat blocks)%list.
Proof.
  revert h; induction blocks as [|b rest IH]; intros h; simpl.
  - now rewrite app_nil_r.
  - rewrite IH. unfold Md5.update. now rewrite app_assoc.
Qed.

Lemma read_blocks_concat (size fuel : nat) (data : list byte) :
  0 < size -> List.length data <= fuel ->
  List.concat (read_blocks fuel size data) = data.
Proof.
  intros Hsize. revert data.
  induction fuel as [|fuel IH]; intros data Hlen.
  - destruct data; [reflexivity | simpl in Hlen; lia].
  - simpl. destruct (firstn size data) as [|b block] eqn:E.
    + destruct data as [|x data]; [reflexivity|].
      destruct size; [lia | discriminate].
    + rewrite concat_cons, IH.
      * rewrite <- E. apply firstn_skipn.
      * rewrite length_skipn.
        destruct data as [|x data]; [destruct size; discriminate|].
        cbn [List.length] in *. lia.
Qed.

(** Reading in blocks of [chunk_size] feeds MD5 the whole content. *)
Lemma md5_of_file_content (t : filesystem) (p : string) (data : list byte) :
  open_read t p = Ok data -> md5_of_file t p = Ok (Md5.hexdigest data).
Proof.
  intros H. unfold md5_of_file. rewrite H, fold_update.
  rewrite read_blocks_concat; [reflexivity | | lia].
  unfold chunk_size. lia.
Qed.

Lemma md5_of_file_raise (t : filesystem) (p : string) (e : exn) :
  md5_of_file t p = Raise e <-> open_read t p = Raise e.
Proof.
  unfold md5_of_file. destruct (open_read t p); split; congruence.
Qed.

(** *** The hashing loop, one path at a time *)

Lemma set_glob_same (w : world) : set_glob (glob w) w = w.
Proof. now destruct w. Qed.

Lemma scan_nil (v : script) (w : world) : scan v [] w = (Ok tt, w).
Proof. destruct v; reflexivity. Qed.

Lemma md5_of_file_truthy (t : filesystem) (p h : string) :
  md5_of_file t p = Ok h -> truthy (Some h) = true.
Proof.
  unfold md5_of_file. destruct (open_read t p); [|discriminate].
  intros [= <-]. simpl. now rewrite hexdigest_nonempty.
Qed.

Lemma scan_cons (v : script) (p : string) (ps : list string) (w : world) :
  scan v (p :: ps) w =
  match md5_of_file (fs w) p with
  | Ok h => scan v ps (set_glob (index_append (record_hash (glob w) p h) h p) w)
  | Raise e =>
      match v with
      | V1 => (Raise e, w)
      | V2 => if is_OSError e then scan v ps w else (Raise e, w)
      end
  end.
Proof.
  destruct v.
  - unfold scan. cbn [for_each]. unfold bind at 1. unfold bind at 1.
    unfold get_fs at 1. unfold bind at 1. unfold lift at 1, hash_file.
    destruct (md5_of_file (fs w) p) as [h|e]; reflexivity.
  - unfold scan, bind at 1, get_fs at 1, executor_map. cbn [map for_each].
    unfold bind at 1, bind at 1, lift at 1, process_file at 1.
    destruct (md5_of_file (fs w) p) as [h|e] eqn:E.
    + rewrite (md5_of_file_truthy _ _ _ E). reflexivity.
    + destruct (is_OSError e); reflexivity.
Qed.

Lemma scan_from_nil (v : script) (t : filesystem) (g : globals) :
  scan_from v t [] g = (Ok tt, g).
Proof. unfold scan_from. now rewrite scan_nil. Qed.

Lemma scan_from_cons (v : script) (t : filesystem) (p : string) (ps : list string)
    (g : globals) :
  scan_from v t (p :: ps) g =
  match md5_of_file t p with
  | Ok h => scan_from v t ps (index_append (record_hash g p h) h p)
  | Raise e =>
      match v with
      | V1 => (Raise e, g)
      | V2 => if is_OSError e then scan_from v t ps g else (Raise e, g)
      end
  end.
Proof.
  unfold scan_from. rewrite scan_cons. cbn [fs glob].
  destruct (md5_of_file t p) as [h|e]; [reflexivity|].
  destruct v; [reflexivity|]. destruct (is_OSError e); reflexivity.
Qed.

(** The loop reads the file system and touches nothing but the globals. *)
Lemma scan_frame (v : script) (ps : list string) (w : world) :
  scan v ps w =
  (fst (scan_from v (fs w) ps (glob w)),
   set_glob (snd (scan_from v (fs w) ps (glob w))) w).
Proof.
  revert w. induction ps as [|p ps IH]; intros w.
  - rewrite scan_nil, scan_from_nil. cbn. now rewrite set_glob_same.
  - rewrite scan_cons, scan_from_cons.
    destruct (md5_of_file (fs w) p) as [h|e].
    + rewrite IH. cbn [fs glob set_glob]. reflexivity.
    + destruct v; cbn [fst snd]; [now rewrite set_glob_same|].
      destruct (is_OSError e); [apply IH | cbn; now rewrite set_glob_same].
Qed.

(** ** Fingerprinting failures (C2) and the two hashing loops (C7) *)

Lemma readable_md5 (t : filesystem) (p : string) :
  readable t p = true -> exists h, md5_of_file t p = Ok h.
Proof.
  unfold readable. destruct (open_read t p) as [data|e] eqn:E; [|discriminate].
  intros _. exists (Md5.hexdigest data). now apply md5_of_file_content.
Qed.

Lemma unreadable_md5 (t : filesystem) (p : string) :
  readable t p = false -> exists e, open_read t p = Raise e /\ md5_of_file t p = Raise e.
Proof.
  unfold readable. destruct (open_read t p) as [data|e] eqn:E; [discriminate|].
  intros _. exists e. split; [reflexivity | now apply md5_of_file_raise].
Qed.

(** On readable paths the two loops are the same function. *)
Lemma scan_from_readable (t : filesystem) (ps : list string) (g : globals) :
  (forall p, In p ps -> readable t p = true) ->
  scan_from V2 t ps g = scan_from V1 t ps g /\ fst (scan_from V1 t ps g) = Ok tt.
Proof.
  revert g. induction ps as [|p ps IH]; intros g Hall.
  - rewrite !scan_from_nil. now split.
  - rewrite !scan_from_cons.
    destruct (readable_md5 t p) as [h Hh]; [apply Hall; now left|].
    rewrite Hh. apply IH. intros q Hq. apply Hall. now right.
Qed.

(** [cleanup_v2.py] skips the paths whose read raises an [OSError]. *)
Lemma scan_from_V2_filter (t : filesystem) (ps : list string) (g : globals) :
  (forall p e, In p ps -> open_read t p = Raise e -> is_OSError e = true) ->
  scan_from V2 t ps g = scan_from V2 t (filter (readable t) ps) g.
Proof.
  revert g. induction ps as [|p ps IH]; intros g Hall; [reflexivity|].
  cbn [filter]. destruct (readable t p) eqn:R.
  - rewrite !scan_from_cons. destruct (readable_md5 t p R) as [h ->].
    apply IH. intros q e Hq. apply Hall. now right.
  - rewrite scan_from_cons. destruct (unreadable_md5 t p R) as [e [Ho ->]].
    rewrite (Hall p e (or_introl eq_refl) Ho).
    apply IH. intros q e' Hq. apply Hall. now right.
Qed.

(** C7: on a list of readable paths the loop of [cleanup_v2.py], which takes
    the results of [executor.map] in submission order, leaves the same
    globals as the sequential loop of [clean_up.py] started from the same
    globals: the same keys in the same order, the same paths in the same
    order under each key, and the same collision groups; and neither loop
    raises. *)
Theorem C7_parallel_index_equals_sequential
    (t : filesystem) (file_paths : list string) (g : globals) :
  (forall p, In p file_paths -> exists data, open_read t p = Ok data) ->
  let seq_run := scan_from V1 t file_paths g in
  let par_run := scan_from V2 t file_paths g in
  fst seq_run = Ok tt /\ fst par_run = Ok tt /\
  snd par_run = snd seq_run /\
  index_view (snd par_run) = index_view (snd seq_run) /\
  groups_of (snd par_run) = groups_of (snd seq_run).
Proof.
  intros Hall. cbv zeta.
  destruct (scan_from_readable t file_paths g) as [Heq Hok].
  - intros p Hp. destruct (Hall p Hp) as [data Hd]. unfold readable. now rewrite Hd.
  - rewrite Heq. repeat split; assumption.
Qed.

Lemma C7_witness :
  (forall p, In p (get_file_paths sample_tree "/data") ->
             exists data, open_read sample_tree p = Ok data) /\
  index_view (snd (scan_from V2 sample_tree (get_file_paths sample_tree "/data") module_init))
  = index_view (snd (scan_from V1 sample_tree (get_file_paths sample_tree "/data") module_init)).
Proof.
  assert (H : forall p, In p (get_file_paths sample_tree "/data") ->
                        exists data, open_read sample_tree p = Ok data).
  { intros p [<-|[<-|[<-|[]]]]; eexists; reflexivity. }
  split; [exact H|].
  exact (proj1 (proj2 (proj2 (proj2
    (C7_parallel_index_equals_sequential sample_tree _ module_init H))))).
Defined.

(** *** List objects in the store *)

Lemma length_assign (st : list (list string)) (a : nat) (l : list string) :
  List.length (assign st a l) = List.length st.
Proof.
  revert a; induction st as [|x st IH]; intros [|a]; simpl; auto.
Qed.

Lemma deref_assign (st : list (list string)) (a b : nat) (l : list string) :
  deref (assign st a l) b =
  if (b =? a)%nat && (a <? List.length st)%nat then l else deref st b.
Proof.
  unfold deref. revert a b; induction st as [|x st IH]; intros a b.
  - simpl. rewrite andb_false_r. now destruct a.
  - destruct a as [|a], b as [|b]; simpl; try reflexivity.
    rewrite IH. reflexivity.
Qed.

Lemma deref_assign_same (st : list (list string)) (a : nat) (l : list string) :
  a < List.length st -> deref (assign st a l) a = l.
Proof.
  intros H. rewrite deref_assign, Nat.eqb_refl.
  now destruct (Nat.ltb_spec a (List.length st)); [|lia].
Qed.

Lemma deref_assign_other (st : list (list string)) (a b : nat) (l : list string) :
  b <> a -> deref (assign st a l) b = deref st b.
Proof.
  intros H. rewrite deref_assign.
  now destruct (Nat.eqb_spec b a).
Qed.

Lemma deref_out_of_range (st : list (list string)) (a : nat) :
  List.length st <= a -> deref st a = [].
Proof. intros H. unfold deref. now apply nth_overflow. Qed.

Lemma deref_app_old (st : list (list string)) (l : list string) (a : nat) :
  a < List.length st -> deref (st ++ [l]) a = deref st a.
Proof. intros H. unfold deref. now apply app_nth1. Qed.

Lemma deref_app_new (st : list (list string)) (l : list string) :
  deref (st ++ [l]) (List.length st) = l.
Proof. unfold deref. rewrite app_nth2, Nat.sub_diag; [reflexivity | lia]. Qed.

Lemma dict_get_In {V} (d : list (string * V)) (k : string) (v : V) :
  dict_get d k = Some v -> In (k, v) d.
Proof.
  induction d as [|[k' v'] d IH]; simpl; [discriminate|].
  destruct (String.eqb_spec k' k) as [->|N].
  - intros [= ->]. now left.
  - intros H. right. now apply IH.
Qed.

Lemma dict_get_app {V} (d : list (string * V)) (k k' : string) (v' : V) :
  dict_get (d ++ [(k', v')]) k =
  match dict_get d k with
  | Some v => Some v
  | None => if k' =? k then Some v' else None
  end.
Proof.
  induction d as [|[k0 v0] d IH]; simpl; [reflexivity|].
  destruct (k0 =? k); [reflexivity | apply IH].
Qed.

Lemma index_view_In (g : globals) (h : string) (l : list string) :
  In (h, l) (index_view g) <->
  exists a, In (h, a) (hash_to_files g) /\ l = deref (store g) a.
Proof.
  unfold index_view. rewrite in_map_iff. split.
  - intros [[k a] [[= <- <-] Hin]]. now exists a.
  - intros [a [Hin ->]]. now exists (h, a).
Qed.

(** Members of the index after an append: the appended path, or a member
    that was there before. *)
Lemma index_append_members (g : globals) (h path : string) :
  forall k l q,
    In (k, l) (index_view (index_append g h path)) -> In q l ->
    q = path \/ exists k0 l0, In (k0, l0) (index_view g) /\ In q l0.
Proof.
  intros k l q Hin Hq. apply index_view_In in Hin. destruct Hin as [b [Hb ->]].
  unfold index_append in *. destruct (dict_get (hash_to_files g) h) as [a|] eqn:G;
    cbn [store hash_to_files] in *.
  - rewrite deref_assign in Hq.
    destruct ((b =? a)%nat && (a <? List.length (store g))%nat) eqn:C.
    + apply in_app_or in Hq. destruct Hq as [Hq|[<-|[]]]; [|now left].
      right. exists h, (deref (store g) a). split; [|assumption].
      apply index_view_In. exists a. split; [now apply dict_get_In | reflexivity].
    + right. exists k, (deref (store g) b). split; [|assumption].
      apply index_view_In. now exists b.
  - apply in_app_or in Hb. destruct Hb as [Hb|[[= <- <-]|[]]].
    + destruct (Nat.lt_trichotomy b (List.length (store g))) as [Lt|[->|Gt]].
      * rewrite deref_app_old in Hq by assumption.
        right. exists k, (deref (store g) b). split; [|assumption].
        apply index_view_In. now exists b.
      * rewrite deref_app_new in Hq. destruct Hq as [<-|[]]. now left.
      * rewrite deref_out_of_range in Hq; [destruct Hq|].
        rewrite length_app. simpl. lia.
    + rewrite deref_app_new in Hq. destruct Hq as [<-|[]]. now left.
Qed.

(** Entries of the index survive an append, possibly with a longer list. *)
Lemma index_append_prefix (g : globals) (h path : string) :
  forall k l,
    In (k, l) (index_view g) ->
    exists l', In (k, (l ++ l')%list) (index_view (index_append g h path)).
Proof.
  intros k l Hin. apply index_view_In in Hin. destruct Hin as [b [Hb ->]].
  unfold index_append. destruct (dict_get (hash_to_files g) h) as [a|] eqn:G.
  - destruct ((b =? a)%nat && (a <? List.length (store g))%nat) eqn:C.
    + exists [path]. apply index_view_In. exists b. cbn [store hash_to_files].
      split; [assumption|]. rewrite deref_assign, C.
      apply andb_prop in C. destruct C as [C _].
      apply Nat.eqb_eq in C. now subst.
    + exists []. rewrite app_nil_r. apply index_view_In. exists b.
      cbn [store hash_to_files]. split; [assumption|].
      now rewrite deref_assign, C.
  - destruct (Nat.lt_trichotomy b (List.length (store g))) as [Lt|[->|Gt]].
    + exists []. rewrite app_nil_r. apply index_view_In. exists b.
      cbn [store hash_to_files]. split; [apply in_or_app; now left|].
      now rewrite deref_app_old.
    + exists [path]. apply index_view_In. exists (List.length (store g)).
      cbn [store hash_to_files]. split; [apply in_or_app; now left|].
      rewrite deref_app_new, deref_out_of_range; [reflexivity | lia].
    + exists []. rewrite app_nil_r. apply index_view_In. exists b.
      cbn [store hash_to_files]. split; [apply in_or_app; now left|].
      rewrite (deref_out_of_range (store g) b) by lia.
      rewrite deref_out_of_range; [reflexivity|].
      rewrite length_app. simpl. lia.
Qed.

Lemma index_view_record_hash (g : globals) (p h : string) :
  index_view (record_hash g p h) = index_view g.
Proof. reflexivity. Qed.

Lemma md5_readable (t : filesystem) (p h : string) :
  md5_of_file t p = Ok h -> readable t p = true.
Proof.
  unfold md5_of_file, readable. now destruct (open_read t p).
Qed.

(** Whatever the loop leaves in the index was either there before or is a
    path of this scan that could be read. *)
Lemma scan_members (v : script) (t : filesystem) (ps : list string) :
  forall g k l q,
    In (k, l) (index_view (snd (scan_from v t ps g))) -> In q l ->
    (In q ps /\ readable t q = true) \/
    (exists k0 l0, In (k0, l0) (index_view g) /\ In q l0).
Proof.
  induction ps as [|p ps IH]; intros g k l q Hin Hq.
  - rewrite scan_from_nil in Hin. right. now exists k, l.
  - rewrite scan_from_cons in Hin.
    destruct (md5_of_file t p) as [h|e] eqn:E.
    + destruct (IH _ _ _ _ Hin Hq) as [[Hp Hr]|[k0 [l0 [H0 Hq0]]]].
      * left. split; [now right | assumption].
      * destruct (index_append_members _ _ _ _ _ _ H0 Hq0) as [->|Hold].
        -- left. split; [now left | now apply md5_readable with h].
        -- right. now rewrite index_view_record_hash in Hold.
    + assert (Hskip : In (k, l) (index_view (snd (scan_from v t ps g))) \/
                      In (k, l) (index_view g)).
      { destruct v; [now right|]. destruct (is_OSError e); [now left | now right]. }
      destruct Hskip as [Hs|Hs].
      * destruct (IH _ _ _ _ Hs Hq) as [[Hp Hr]|Hold]; [|now right].
        left. split; [now right | assumption].
      * right. now exists k, l.
Qed.

(** The loop never resets the index: every entry it starts with is still
    there afterwards, with the same paths in front. *)
Lemma scan_prefix (v : script) (t : filesystem) (ps : list string) :
  forall g k l,
    In (k, l) (index_view g) ->
    exists l', In (k, (l ++ l')%list) (index_view (snd (scan_from v t ps g))).
Proof.
  induction ps as [|p ps IH]; intros g k l Hin.
  - rewrite scan_from_nil. exists []. now rewrite app_nil_r.
  - rewrite scan_from_cons.
    destruct (md5_of_file t p) as [h|e] eqn:E.
    + destruct (index_append_prefix (record_hash g p h) h p k l Hin) as [l1 H1].
      destruct (IH _ _ _ H1) as [l2 H2].
      exists (l1 ++ l2)%list. now rewrite app_assoc.
    + destruct v; [exists []; now rewrite app_nil_r|].
      destruct (is_OSError e); [now apply IH | exists []; now rewrite app_nil_r].
Qed.

(** C2, as the code has it: in [cleanup_v2.py], when opening or reading a
    path raises an [OSError] (a [PermissionError] included), [process_file]
    answers [(path, None)] instead of raising; the loop then completes
    without error, and leaves exactly the globals that the sequential loop
    leaves on the readable paths alone, so the other paths are all hashed
    and, in a run that starts from the freshly loaded module, no group
    contains an unreadable path. *)
Theorem C2_v2_skips_unreadable_paths
    (t : filesystem) (file_paths : list string) (g : globals) :
  (forall p e, In p file_paths -> open_read t p = Raise e -> is_OSError e = true) ->
  (forall p, In p file_paths -> readable t p = false ->
             process_file t p = Ok (p, None)) /\
  fst (scan_from V2 t file_paths g) = Ok tt /\
  snd (scan_from V2 t file_paths g)
  = snd (scan_from V1 t (filter (readable t) file_paths) g) /\
  (forall h l p,
      In (h, l) (index_view (snd (scan_from V2 t file_paths module_init))) ->
      In p l -> readable t p = true).
Proof.
  intros Hall.
  assert (Hf : forall p, In p (filter (readable t) file_paths) -> readable t p = true).
  { intros p Hp. now apply filter_In in Hp. }
  destruct (scan_from_readable t _ g Hf) as [Heq Hok].
  repeat split.
  - intros p Hp Hr. destruct (unreadable_md5 t p Hr) as [e [Ho Hm]].
    unfold process_file. rewrite Hm. now rewrite (Hall p e Hp Ho).
  - rewrite scan_from_V2_filter by assumption. now rewrite Heq.
  - rewrite scan_from_V2_filter by assumption. now rewrite Heq.
  - intros h l p Hin Hp.
    destruct (scan_members V2 t file_paths module_init h l p Hin Hp)
      as [[_ Hr]|[k0 [l0 [H0 _]]]]; [assumption | destruct H0].
Qed.

Lemma C2_witness :
  (forall p e, In p (get_file_paths locked_tree "/box") ->
               open_read locked_tree p = Raise e -> is_OSError e = true) /\
  process_file locked_tree "/box/secret" = Ok ("/box/secret", None) /\
  fst (scan_from V2 locked_tree (get_file_paths locked_tree "/box") module_init) = Ok tt.
Proof.
  assert (H : forall p e, In p (get_file_paths locked_tree "/box") ->
                          open_read locked_tree p = Raise e -> is_OSError e = true).
  { intros p e [<-|[<-|[<-|[]]]]; vm_compute; intros [= <-] || discriminate; reflexivity. }
  pose proof (C2_v2_skips_unreadable_paths locked_tree _ module_init H) as [H1 [H2 _]].
  split; [exact H|]. split; [|exact H2].
  apply H1; [right; left; reflexivity | reflexivity].
Defined.

(** The claim as stated fails in both scripts: [hash_file] of
    [clean_up.py] has no handler, so a file that cannot be opened aborts
    the run with its error; and [process_file] of [cleanup_v2.py] catches
    [OSError] only, so any other fault in a hashing unit aborts the run as
    well.  In both runs the group of the two readable copies is never
    reported. *)
Lemma C2_counterexample :
  clean_up V1 "/box" false false (fresh locked_tree [])
  = (Raise PermissionError,
     {| glob := {| store := [["/box/a"]];
                   file_to_hash := [("/box/a", "9dd4e461268c8034f5c8564e155c67a6")];
                   hash_to_files := [("9dd4e461268c8034f5c8564e155c67a6", 0)] |};
        fs := locked_tree; stdin := []; console := [] |}) /\
  fst (clean_up V2 "/bad" false false (fresh locked_tree [])) = Raise MemoryError.
Proof. split; vm_compute; reflexivity. Qed.

(** ** Frame reasoning for whole calls *)

Section Respects.
Variable R : world -> world -> Prop.
Hypothesis R_refl : forall w, R w w.
Hypothesis R_trans : forall a b c, R a b -> R b c -> R a c.

Lemma respects_ret {A} (a : A) : respects R (ret a).
Proof. intros w. apply R_refl. Qed.

Lemma respects_raise {A} (e : exn) : respects R (@raise A e).
Proof. intros w. apply R_refl. Qed.

Lemma respects_lift {A} (r : result A) : respects R (lift r).
Proof. intros w. apply R_refl. Qed.

Lemma respects_get_glob : respects R get_glob.
Proof. intros w. apply R_refl. Qed.

Lemma respects_get_fs : respects R get_fs.
Proof. intros w. apply R_refl. Qed.

Lemma respects_bind {A B} (m : M A) (k : A -> M B) :
  respects R m -> (forall a, respects R (k a)) -> respects R (bind m k).
Proof.
  intros Hm Hk w. unfold bind. specialize (Hm w).
  destruct (m w) as [[a|e] w1]; cbn [snd] in *.
  - eapply R_trans; [exact Hm | apply Hk].
  - exact Hm.
Qed.

Lemma respects_when (b : bool) (m : M unit) :
  respects R m -> respects R (when b m).
Proof. destruct b; [auto | intros _; apply respects_ret]. Qed.

Lemma respects_try_except {A} (m : M A) (c : exn -> bool) (h : exn -> M A) :
  respects R m -> (forall e, respects R (h e)) -> respects R (try_except m c h).
Proof.
  intros Hm Hh w. unfold try_except. specialize (Hm w).
  destruct (m w) as [[a|e] w1]; cbn [snd] in *; [exact Hm|].
  destruct (c e); [|exact Hm].
  eapply R_trans; [exact Hm | apply Hh].
Qed.

Lemma respects_for_each {A} (l : list A) (body : A -> M unit) :
  (forall x, respects R (body x)) -> respects R (for_each l body).
Proof.
  intros Hb. induction l as [|x l IH]; cbn [for_each].
  - apply respects_ret.
  - apply respects_bind; auto.
Qed.

Lemma respects_time_it {A} (name : string) (m : M A) :
  (forall w, R w (emit [Elapsed name] w)) ->
  respects R m -> respects R (time_it name m).
Proof.
  intros He Hm. unfold time_it.
  apply respects_bind; [assumption|]. intros a.
  apply respects_bind; [|intros _; apply respects_ret].
  intros w. apply He.
Qed.

(** When the primitive effects respect [R], so does everything built
    from them. *)
Hypothesis R_print : forall s w, R w (emit [Print s] w).

Lemma respects_print (s : string) : respects R (print s).
Proof. intros w. apply R_print. Qed.

Lemma respects_display_collisions (collisions : list (string * nat)) :
  respects R (display_collisions collisions).
Proof.
  unfold display_collisions. destruct collisions as [|c cs]; [apply respects_print|].
  apply respects_for_each. intros [h a].
  apply respects_bind; [apply respects_print|]. intros _.
  apply respects_bind; [apply respects_get_glob|]. intros g.
  apply respects_for_each. intros [i path]. apply respects_print.
Qed.

Lemma respects_report (show : bool) (collisions : list (string * nat)) :
  respects R (report show collisions).
Proof.
  unfold report. destruct show; [apply respects_display_collisions | apply respects_print].
Qed.

Hypothesis R_input : forall p w, R w (emit [Input p] w).
Hypothesis R_stdin : forall i w, R w (set_stdin i w).
Hypothesis R_elapsed : forall name w, R w (emit [Elapsed name] w).

Lemma respects_input (prompt : string) : respects R (input prompt).
Proof.
  intros w. unfold input.
  destruct (stdin w) as [|[s|] rest]; cbn [snd].
  - apply R_input.
  - eapply R_trans; [apply R_input | apply R_stdin].
  - eapply R_trans; [apply R_input | apply R_stdin].
Qed.

Lemma respects_ask_loop (fuel : nat) (prompt : string) :
  respects R (ask_loop fuel prompt).
Proof.
  induction fuel as [|fuel IH]; cbn [ask_loop].
  - apply respects_raise.
  - apply respects_bind; [apply respects_input|]. intros line.
    destruct (str_in _ yes_no); [apply respects_ret|].
    apply respects_bind; [apply respects_print | intros _; exact IH].
Qed.

Lemma respects_ask_yes_no (prompt : string) : respects R (ask_yes_no prompt).
Proof. intros w. unfold ask_yes_no. apply respects_ask_loop. Qed.

Lemma respects_proceed (v : script) : respects R (proceed v).
Proof.
  destruct v; cbn [proceed].
  - apply respects_bind; [apply respects_input | intros _; apply respects_ret].
  - apply respects_try_except.
    + apply respects_bind; [apply respects_input | intros _; apply respects_ret].
    + intros _. apply respects_bind; [apply respects_print | intros _; apply respects_ret].
Qed.

(** The two steps that do more than talk: the hashing loop and
    [delete_duplicates]. *)
Hypothesis R_delete : forall collisions, respects R (delete_duplicates collisions).

Lemma respects_confirm_and_delete (v : script) (show : bool)
    (collisions : list (string * nat)) :
  respects R (confirm_and_delete v show collisions).
Proof.
  unfold confirm_and_delete. destruct collisions as [|c cs]; [apply respects_print|].
  apply respects_bind; [apply respects_print|]. intros _.
  apply respects_bind.
  - apply respects_when. apply respects_bind; [apply respects_ask_yes_no|].
    intros b. apply respects_when. apply respects_display_collisions.
  - intros _. apply respects_bind; [apply respects_ask_yes_no|].
    intros [|]; [apply R_delete | apply respects_print].
Qed.

(** What follows the hashing loop. *)
Lemma respects_after_scan (v : script) (show delete : bool)
    (collisions : list (string * nat)) :
  respects R (report show collisions ;;;
              when delete (delete_block v show collisions)).
Proof.
  apply respects_bind; [apply respects_report|]. intros _.
  apply respects_when. unfold delete_block.
  apply respects_bind; [apply respects_proceed|]. intros b.
  apply respects_when, respects_confirm_and_delete.
Qed.

Hypothesis R_scan : forall v ps, respects R (scan v ps).

Lemma respects_clean_up_body (v : script) (dir : string) (show delete : bool) :
  respects R (clean_up_body v dir show delete).
Proof.
  unfold clean_up_body.
  apply respects_bind; [apply respects_when, respects_print|]. intros _.
  apply respects_bind; [apply respects_get_fs|]. intros t.
  apply respects_bind; [apply respects_when, respects_print|]. intros _.
  apply respects_bind; [apply R_scan|]. intros _.
  apply respects_bind; [apply respects_get_glob|]. intros g.
  apply respects_bind; [apply respects_report|]. intros _.
  apply respects_when. unfold delete_block.
  apply respects_bind; [apply respects_proceed|]. intros b.
  apply respects_when, respects_confirm_and_delete.
Qed.

Lemma respects_clean_up (v : script) (dir : string) (show delete : bool) :
  respects R (clean_up v dir show delete).
Proof.
  destruct v; cbn [clean_up]; [apply respects_clean_up_body|].
  apply respects_time_it; [|apply respects_clean_up_body].
  intros w. apply R_elapsed.
Qed.
End Respects.

(** ** The stable sort *)

Section SortBy.
Context {A : Type} (key : A -> nat).

Let le_key (a b : A) : Prop := key a <= key b.

Lemma insert_by_perm (x : A) (l : list A) : Permutation (insert_by key x l) (x :: l).
Proof.
  induction l as [|y l IH]; simpl; [reflexivity|].
  destruct (key x <=? key y)%nat; [reflexivity|].
  rewrite IH. apply perm_swap.
Qed.

Lemma sort_by_perm (l : list A) : Permutation (sort_by key l) l.
Proof.
  induction l as [|x l IH]; simpl; [reflexivity|].
  rewrite insert_by_perm. now constructor.
Qed.

Lemma length_sort_by (l : list A) : List.length (sort_by key l) = List.length l.
Proof. apply Permutation_length, sort_by_perm. Qed.

Lemma insert_by_sorted (x : A) (l : list A) :
  Sorted le_key l -> Sorted le_key (insert_by key x l).
Proof.
  induction l as [|y l IH]; intros Hs; simpl.
  - repeat constructor.
  - destruct (Nat.leb_spec (key x) (key y)) as [Le|Gt].
    + constructor; [assumption | now constructor].
    + inversion Hs as [|? ? Hl Hhd]; subst. constructor; [now apply IH|].
      destruct l as [|z l]; simpl.
      * constructor. unfold le_key. lia.
      * destruct (Nat.leb_spec (key x) (key z)); constructor; unfold le_key; try lia.
        now inversion Hhd.
Qed.

Lemma sort_by_sorted (l : list A) : Sorted le_key (sort_by key l).
Proof.
  induction l as [|x l IH]; simpl; [constructor | now apply insert_by_sorted].
Qed.

Lemma sort_by_fixed (l : list A) : Sorted le_key l -> sort_by key l = l.
Proof.
  induction l as [|x l IH]; intros Hs; simpl; [reflexivity|].
  inversion Hs as [|? ? Hl Hhd]; subst. rewrite IH by assumption.
  destruct l as [|y l]; simpl; [reflexivity|].
  inversion Hhd as [|? ? Hxy]; subst. unfold le_key in Hxy.
  now destruct (Nat.leb_spec (key x) (key y)); [|lia].
Qed.

Lemma insert_by_filter (k : nat) (x : A) (l : list A) :
  filter (fun y => key y =? k)%nat (insert_by key x l)
  = filter (fun y => key y =? k)%nat (x :: l).
Proof.
  induction l as [|y l IH]; [reflexivity|].
  cbn [insert_by]. destruct (Nat.leb_spec (key x) (key y)) as [Le|Gt]; [reflexivity|].
  cbn [filter] in *. rewrite IH.
  destruct (Nat.eqb_spec (key x) k) as [Ex|Nx]; [|reflexivity].
  destruct (Nat.eqb_spec (key y) k) as [Ey|Ny]; [lia | reflexivity].
Qed.

(** The sort is stable: elements of equal key keep their order.  With
    [sort_by_sorted] and [sort_by_perm] this determines the sorted list, so
    any stable sort, that of Python included, returns the same list. *)
Lemma sort_by_stable (k : nat) (l : list A) :
  filter (fun y => key y =? k)%nat (sort_by key l) = filter (fun y => key y =? k)%nat l.
Proof.
  induction l as [|x l IH]; [reflexivity|].
  cbn [sort_by]. rewrite insert_by_filter. cbn [filter]. now rewrite IH.
Qed.

(** Sorting a sorted list changes nothing. *)
Lemma sort_by_idem (l : list A) : sort_by key (sort_by key l) = sort_by key l.
Proof. apply sort_by_fixed, sort_by_sorted. Qed.

(** The head of the sorted list is the first element of least key, and
    the tail is the sorted remainder. *)
Lemma sort_by_keeper (l : list A) :
  l <> [] ->
  exists keeper pre post,
    l = (pre ++ keeper :: post)%list /\
    (forall q, In q pre -> key keeper < key q) /\
    (forall q, In q post -> key keeper <= key q) /\
    sort_by key l = keeper :: sort_by key (pre ++ post).
Proof.
  induction l as [|x l IH]; intros Hne; [congruence|].
  destruct l as [|y l].
  - exists x, [], []. repeat split; simpl; intros q [].
  - destruct IH as [k [pre [post [Hl [Hpre [Hpost Hsort]]]]]]; [discriminate|].
    change (sort_by key (x :: y :: l)) with (insert_by key x (sort_by key (y :: l))).
    rewrite Hsort. cbn [insert_by].
    destruct (Nat.leb_spec (key x) (key k)) as [Le|Gt].
    + exists x, [], (y :: l). repeat split.
      * intros q [].
      * intros q Hq. rewrite Hl in Hq. apply in_app_or in Hq.
        destruct Hq as [Hq|[<-|Hq]]; [apply Hpre in Hq; lia | assumption |].
        apply Hpost in Hq. lia.
      * cbn [app]. now rewrite Hsort.
    + exists k, (x :: pre), post. repeat split.
      * now rewrite Hl.
      * intros q [<-|Hq]; [assumption | now apply Hpre].
      * assumption.
Qed.
End SortBy.

(** ** [delete_duplicates] *)

Lemma walk_to_exn (t : filesystem) (comps : list string) :
  forall loc e, walk_to t loc comps = Raise e -> is_Exception e = true.
Proof.
  induction comps as [|comp rest IH]; intros loc e; cbn [walk_to]; [discriminate|].
  destruct (find_node t loc) as [[f|es]|].
  - now intros [= <-].
  - apply IH.
  - now intros [= <-].
Qed.

Lemma resolve_exn (t : filesystem) (p : string) (e : exn) :
  resolve t p = Raise e -> is_Exception e = true.
Proof.
  unfold resolve. destruct (p =? "")%string; [now intros [= <-]|]. apply walk_to_exn.
Qed.

Lemma os_remove_exn (t : filesystem) (p : string) (e : exn) :
  os_remove t p = Raise e -> is_Exception e = true.
Proof.
  unfold os_remove. destruct (resolve t p) as [loc|e'] eqn:E.
  - destruct (find_node t loc) as [[f|es]|]; [|now intros [= <-]..].
    destruct (existsb _ _); [now intros [= <-] | discriminate].
  - intros [= <-]. eapply resolve_exn, E.
Qed.

Lemma removals_app (a b : list event) : removals (a ++ b) = (removals a ++ removals b)%list.
Proof. unfold removals. now rewrite flat_map_app. Qed.

Lemma prompts_app (a b : list event) : prompts (a ++ b) = (prompts a ++ prompts b)%list.
Proof. unfold prompts. now rewrite flat_map_app. Qed.

(** The loop over [paths[1:]]: every path is handed to [os.remove], a
    failure is reported and the loop goes on. *)
Lemma delete_loop_spec (ps : list string) :
  forall w, exists evs,
    for_each ps (fun path =>
      try_except
        (remove path ;;; print ("Deleted: " ++ path)%string)
        is_Exception
        (fun e => print ("Error deleting " ++ path ++ ": " ++ str_of_exn e path)%string)) w
    = (Ok tt, {| glob := glob w; fs := fold_left rm ps (fs w);
                 stdin := stdin w; console := console w ++ evs |})
    /\ removals evs = ps /\ prompts evs = [].
Proof.
  induction ps as [|p ps IH]; intros w.
  - exists []. cbn. rewrite app_nil_r. now destruct w.
  - cbn [for_each]. unfold bind at 1, try_except at 1, bind at 1, remove at 1.
    cbn [fold_left].
    destruct (os_remove (fs w) p) as [t'|e] eqn:E.
    + assert (Hrm : rm (fs w) p = t') by (unfold rm; now rewrite E).
      rewrite Hrm. unfold print at 1. cbv beta iota.
      match goal with |- context [for_each ps ?b ?w1] => destruct (IH w1) as [evs [-> [Hr Hp]]] end.
      exists (Remove p :: Print ("Deleted: " ++ p)%string :: evs).
      cbn [glob fs stdin console set_fs emit removals prompts flat_map app].
      fold (removals evs). fold (prompts evs).
      rewrite Hr, Hp, <- !app_assoc. repeat split.
    + assert (Hrm : rm (fs w) p = fs w) by (unfold rm; now rewrite E).
      rewrite Hrm, (os_remove_exn _ _ _ E). unfold print at 1. cbv beta iota.
      match goal with |- context [for_each ps ?b ?w1] => destruct (IH w1) as [evs [-> [Hr Hp]]] end.
      exists (Remove p :: Print ("Error deleting " ++ p ++ ": " ++ str_of_exn e p)%string :: evs).
      cbn [glob fs stdin console set_fs emit removals prompts flat_map app].
      fold (removals evs). fold (prompts evs).
      rewrite Hr, Hp, <- !app_assoc. repeat split.
Qed.

Lemma doomed_short (st : list (list string)) (a : nat) :
  (1 <? List.length (deref st a))%nat = false -> doomed st a = [].
Proof.
  intros H. apply Nat.ltb_ge in H. unfold doomed.
  pose proof (length_sort_by depth (deref st a)) as L.
  destruct (sort_by depth (deref st a)) as [|x [|y l]]; try reflexivity.
  simpl in L. lia.
Qed.

Lemma sort_group_deref (st : list (list string)) (a b : nat) :
  sort_by depth (deref (sort_group st a) b) = sort_by depth (deref st b).
Proof.
  unfold sort_group. destruct (1 <? List.length (deref st a))%nat; [|reflexivity].
  rewrite deref_assign.
  destruct ((b =? a)%nat && (a <? List.length st)%nat) eqn:C; [|reflexivity].
  apply andb_prop in C. destruct C as [C _]. apply Nat.eqb_eq in C. subst b.
  apply sort_by_idem.
Qed.

Lemma doomed_sort_group (st : list (list string)) (a b : nat) :
  doomed (sort_group st a) b = doomed st b.
Proof. unfold doomed. now rewrite sort_group_deref. Qed.

Lemma doomed_sort_groups (collisions : list (string * nat)) :
  forall st b, doomed (sort_groups st collisions) b = doomed st b.
Proof.
  induction collisions as [|[h a] cs IH]; intros st b; [reflexivity|].
  unfold sort_groups in *. cbn [fold_left]. now rewrite IH, doomed_sort_group.
Qed.

(** What one call of [delete_duplicates] does: it never raises; it sorts
    the list objects of the groups in place and touches no other global;
    it hands to [os.remove] the tail of every sorted list and nothing else;
    it reads nothing from the console. *)
Lemma delete_duplicates_spec (collisions : list (string * nat)) :
  forall w, exists evs,
    delete_duplicates collisions w
    = (Ok tt, {| glob := {| store := sort_groups (store (glob w)) collisions;
                            file_to_hash := file_to_hash (glob w);
                            hash_to_files := hash_to_files (glob w) |};
                 fs := fold_left rm (removals evs) (fs w);
                 stdin := stdin w;
                 console := console w ++ evs |})
    /\ removals evs = flat_map (fun '(_, a) => doomed (store (glob w)) a) collisions
    /\ prompts evs = [].
Proof.
  induction collisions as [|[h a] cs IH]; intros w.
  - exists []. cbn. rewrite app_nil_r. now destruct w as [[? ? ?] ? ? ?].
  - unfold delete_duplicates in *. cbn [for_each flat_map].
    unfold bind at 1, bind at 1, get_glob at 1, when at 1.
    unfold sort_groups. cbn [fold_left]. fold (sort_groups (sort_group (store (glob w)) a) cs).
    destruct (1 <? List.length (deref (store (glob w)) a))%nat eqn:Long.
    + unfold bind at 1, sort_in_place at 1, bind at 1, get_glob at 1, bind at 1, put_glob at 1.
      cbn [ret].
      match goal with |- context [for_each (skipn 1 ?ps) ?b ?w1] =>
        destruct (delete_loop_spec (skipn 1 ps) w1) as [evs1 [-> [Hr1 Hp1]]] end.
      match goal with |- context [for_each cs ?b ?w2] =>
        destruct (IH w2) as [evs2 [-> [Hr2 Hp2]]] end.
      exists (evs1 ++ evs2)%list. cbn [glob fs stdin console store file_to_hash hash_to_files set_glob] in *.
      rewrite removals_app, prompts_app, fold_left_app, Hr1, Hr2, Hp1, Hp2, <- app_assoc.
      unfold sort_group at 1. rewrite Long. split; [reflexivity|]. split; [|reflexivity].
      f_equal. apply flat_map_ext. intros [h' b].
      change (assign (store (glob w)) a (sort_by depth (deref (store (glob w)) a)))
        with (if true then assign (store (glob w)) a (sort_by depth (deref (store (glob w)) a))
              else store (glob w)).
      rewrite <- Long. apply (doomed_sort_group (store (glob w)) a b).
    + cbn [ret].
      match goal with |- context [for_each cs ?b ?w2] =>
        destruct (IH w2) as [evs2 [-> [Hr2 Hp2]]] end.
      exists evs2. rewrite Hr2, Hp2, (doomed_short _ _ Long).
      unfold sort_group at 1. rewrite Long. repeat split.
Qed.

Lemma sort_by_short {A} (key : A -> nat) (l : list A) :
  List.length l <= 1 -> sort_by key l = l.
Proof.
  destruct l as [|x [|y l]]; simpl; intros H; try reflexivity. lia.
Qed.

Lemma deref_sort_group (st : list (list string)) (a b : nat) :
  deref (sort_group st a) b =
  if (b =? a)%nat then sort_by depth (deref st b) else deref st b.
Proof.
  unfold sort_group.
  destruct (Nat.ltb_spec 1 (List.length (deref st a))) as [Long|Short].
  - rewrite deref_assign. destruct (Nat.eqb_spec b a) as [->|N]; [|reflexivity].
    destruct (Nat.ltb_spec a (List.length st)) as [_|Out]; [reflexivity|].
    rewrite (deref_out_of_range st a Out) in Long. simpl in Long. lia.
  - destruct (Nat.eqb_spec b a) as [->|N]; [|reflexivity].
    now rewrite sort_by_short.
Qed.

Lemma length_sort_group (st : list (list string)) (a : nat) :
  List.length (sort_group st a) = List.length st.
Proof.
  unfold sort_group. destruct (1 <? _)%nat; [apply length_assign | reflexivity].
Qed.

Lemma length_sort_groups (collisions : list (string * nat)) :
  forall st, List.length (sort_groups st collisions) = List.length st.
Proof.
  induction collisions as [|[h a] cs IH]; intros st; [reflexivity|].
  unfold sort_groups in *. cbn [fold_left]. now rewrite IH, length_sort_group.
Qed.

(** After [delete_duplicates] a list is sorted if it belongs to one of the
    groups, and untouched otherwise. *)
Lemma deref_sort_groups (collisions : list (string * nat)) :
  forall st b,
    deref (sort_groups st collisions) b =
    if existsb (Nat.eqb b) (map snd collisions) then sort_by depth (deref st b)
    else deref st b.
Proof.
  induction collisions as [|[h a] cs IH]; intros st b; [reflexivity|].
  unfold sort_groups in *. cbn [fold_left map snd existsb].
  rewrite IH, deref_sort_group.
  destruct (Nat.eqb_spec b a) as [->|N]; cbn [orb].
  - rewrite sort_by_idem. now destruct (existsb _ _).
  - reflexivity.
Qed.

Lemma existsb_In_snd (collisions : list (string * nat)) (h : string) (a : nat) :
  In (h, a) collisions -> existsb (Nat.eqb a) (map snd collisions) = true.
Proof.
  intros H. apply existsb_exists. exists a. split; [|apply Nat.eqb_refl].
  apply in_map_iff. now exists (h, a).
Qed.

(** ** The retention rule (C1, C8) *)



(** The crafted group: [/r/b/y] and [/r/c/z] have the least depth, the
    first of them is kept, and the other two paths are removed. *)
Example C1_tie_example :
  deref (store (glob deep_world)) 0 = ["/r/a/deep/x"; "/r/b/y"; "/r/c/z"] /\
  map depth ["/r/a/deep/x"; "/r/b/y"; "/r/c/z"] = [4; 3; 3] /\
  removals (console (snd (delete_duplicates (collisions_of (glob deep_world)) deep_world)))
  = ["/r/c/z"; "/r/a/deep/x"] /\
  is_file (fs (snd (delete_duplicates (collisions_of (glob deep_world)) deep_world))) "/r/b/y"
  = true.
Proof. vm_compute. repeat split. Qed.

Lemma removes_only_refl (w : world) : removes_only w w.
Proof. exists []. now rewrite app_nil_r. Qed.

Lemma removes_only_trans (a b c : world) :
  removes_only a b -> removes_only b c -> removes_only a c.
Proof.
  intros [e1 [C1 F1]] [e2 [C2 F2]]. exists (e1 ++ e2)%list.
  rewrite C2, C1, F2, F1, removals_app, fold_left_app, app_assoc. now split.
Qed.

Lemma delete_duplicates_removes_only (collisions : list (string * nat)) :
  respects removes_only (delete_duplicates collisions).
Proof.
  intros w. destruct (delete_duplicates_spec collisions w) as [evs [-> _]].
  now exists evs.
Qed.



(** ** Whole runs *)

(** A call of [clean_up], split at the hashing loop. *)
Lemma clean_up_body_run (v : script) (dir : string) (show delete : bool) (w : world) :
  clean_up_body v dir show delete w =
  let file_paths := get_file_paths (fs w) dir in
  match scan_from v (fs w) file_paths (glob w) with
  | (Ok _, g1) =>
      (report show (collisions_of g1) ;;;
       when delete (delete_block v show (collisions_of g1)))
        (set_glob g1 (announce v file_paths w))
  | (Raise e, g1) => (Raise e, set_glob g1 (announce v file_paths w))
  end.
Proof.
  unfold clean_up_body.
  destruct v; cbn [is_v2 when announce].
  - unfold bind at 1. cbn [ret]. unfold bind at 1, get_fs at 1. cbv zeta.
    unfold bind at 1. cbn [ret]. unfold bind at 1. rewrite scan_frame.
    destruct (scan_from V1 (fs w) (get_file_paths (fs w) dir) (glob w)) as [[[]|e] g1];
      reflexivity.
  - unfold bind at 1, print at 1. unfold bind at 1, get_fs at 1. cbv zeta.
    unfold bind at 1, print at 1. unfold bind at 1. rewrite scan_frame.
    cbn [fs glob emit].
    destruct (scan_from V2 (fs w) (get_file_paths (fs w) dir) (glob w)) as [[[]|e] g1];
      reflexivity.
Qed.

(** ** The prompts (C5) *)

Lemma emit_emit (a b : list event) (w : world) : emit b (emit a w) = emit (a ++ b) w.
Proof. unfold emit. cbn. now rewrite app_assoc. Qed.

Lemma emit_nil (w : world) : emit [] w = w.
Proof. destruct w. unfold emit. cbn. now rewrite app_nil_r. Qed.

Lemma ask_loop_unrecognised (fuel : nat) (prompt : string) (s : text) (rest : list reply) (w : world) :
  stdin w = Line s :: rest ->
  str_in (lower (strip s)) yes_no = false ->
  ask_loop (S fuel) prompt w =
  ask_loop fuel prompt (emit [Print please_enter] (set_stdin rest (emit [Input prompt] w))).
Proof.
  intros Hin Hs. cbn [ask_loop]. unfold bind at 1, input at 1. rewrite Hin, Hs.
  reflexivity.
Qed.

Lemma ask_loop_recognised (fuel : nat) (prompt : string) (s : text) (rest : list reply) (w : world) :
  stdin w = Line s :: rest ->
  str_in (lower (strip s)) yes_no = true ->
  ask_loop (S fuel) prompt w =
  (Ok (str_in (lower (strip s)) affirmative), set_stdin rest (emit [Input prompt] w)).
Proof.
  intros Hin Hs. cbn [ask_loop]. unfold bind at 1, input at 1. rewrite Hin, Hs.
  reflexivity.
Qed.

(** One iteration more than there are replies is as good as any larger
    number: the loop has left by then. *)
Lemma ask_loop_fuel (prompt : string) (fuel : nat) :
  forall w, List.length (stdin w) < fuel ->
            ask_loop fuel prompt w = ask_loop (S (List.length (stdin w))) prompt w.
Proof.
  induction fuel as [|fuel IH]; intros w Hlt; [lia|].
  destruct (stdin w) as [|[s|] rest] eqn:E.
  - cbn [ask_loop]. unfold bind, input. now rewrite E.
  - destruct (str_in (lower (strip s)) yes_no) eqn:Hs.
    + now rewrite !(ask_loop_recognised _ _ _ _ _ E Hs).
    + rewrite !(ask_loop_unrecognised _ _ _ _ _ E Hs).
      cbn [List.length] in Hlt. rewrite IH; [reflexivity | cbn; lia].
  - cbn [ask_loop]. unfold bind, input. now rewrite E.
Qed.

Lemma ask_yes_no_unrecognised (prompt : string) (s : text) (rest : list reply) (w : world) :
  stdin w = Line s :: rest ->
  str_in (lower (strip s)) yes_no = false ->
  ask_yes_no prompt w =
  ask_yes_no prompt (emit [Print please_enter] (set_stdin rest (emit [Input prompt] w))).
Proof.
  intros Hin Hs. unfold ask_yes_no. rewrite Hin. cbn [List.length].
  now rewrite (ask_loop_unrecognised _ _ _ _ _ Hin Hs).
Qed.

Lemma ask_yes_no_recognised (prompt : string) (s : text) (rest : list reply) (w : world) :
  stdin w = Line s :: rest ->
  str_in (lower (strip s)) yes_no = true ->
  ask_yes_no prompt w =
  (Ok (str_in (lower (strip s)) affirmative), set_stdin rest (emit [Input prompt] w)).
Proof.
  intros Hin Hs. unfold ask_yes_no. now apply ask_loop_recognised.
Qed.

Lemma proceed_line (v : script) (s : text) (rest : list reply) (w : world) :
  stdin w = Line s :: rest ->
  proceed v w = (Ok true, set_stdin rest (emit [Input (proceed_prompt v)] w)).
Proof.
  intros Hin. destruct v; cbn [proceed].
  - unfold bind, input. now rewrite Hin.
  - unfold try_except, bind, input. now rewrite Hin.
Qed.

(** C5, as the code has it: the two yes/no prompts ("show the files?" and
    "do you know what you are doing?", both run by the same loop) accept a
    line only if, stripped of surrounding white space and lowered, it is one
    of yes, y, no, n; on any other line the loop prints the hint and issues
    the same prompt again, with the globals and the file system unchanged.
    The first prompt of the flow ("Proceed to Delete? Hit Enter to
    Continue") is different: it accepts any line and the flow goes on. *)
Theorem C5_yes_no_prompts_repeat_until_recognised
    (prompt : string) (s : text) (rest : list reply) (w : world) :
  stdin w = Line s :: rest ->
  (str_in (lower (strip s)) yes_no = false ->
   ask_yes_no prompt w =
   ask_yes_no prompt
     {| glob := glob w; fs := fs w; stdin := rest;
        console := console w ++ [Input prompt; Print please_enter] |}) /\
  (str_in (lower (strip s)) yes_no = true ->
   ask_yes_no prompt w =
   (Ok (str_in (lower (strip s)) affirmative),
    {| glob := glob w; fs := fs w; stdin := rest;
       console := console w ++ [Input prompt] |})) /\
  (forall v,
      proceed v w =
      (Ok true,
       {| glob := glob w; fs := fs w; stdin := rest;
          console := console w ++ [Input (proceed_prompt v)] |})).
Proof.
  intros Hin. repeat split.
  - intros Hs. rewrite (ask_yes_no_unrecognised _ _ _ _ Hin Hs).
    unfold emit, set_stdin. cbn. now rewrite <- app_assoc.
  - intros Hs. now rewrite (ask_yes_no_recognised _ _ _ _ Hin Hs).
  - intros v. now rewrite (proceed_line v _ _ _ Hin).
Qed.

Lemma C5_witness :
  stdin (fresh sample_tree [Line "perhaps"; Line " YES "]) = [Line "perhaps"; Line " YES "] /\
  str_in (lower (strip "perhaps")) yes_no = false /\
  ask_yes_no confirm_prompt (fresh sample_tree [Line "perhaps"; Line " YES "]) =
  ask_yes_no confirm_prompt
    {| glob := module_init; fs := sample_tree; stdin := [Line " YES "];
       console := [Input confirm_prompt; Print please_enter] |}.
Proof.
  split; [reflexivity|]. split; [reflexivity|].
  exact (proj1 (C5_yes_no_prompts_repeat_until_recognised
                  confirm_prompt "perhaps" [Line " YES "]
                  (fresh sample_tree [Line "perhaps"; Line " YES "]) eq_refl) eq_refl).
Defined.

(** The claim as stated fails at the first prompt of the flow: ["maybe"] is
    none of the four tokens, yet the prompt is issued once and the flow
    goes on to the next prompt. *)
Lemma C5_counterexample :
  str_in (lower (strip "maybe")) yes_no = false /\
  fst (clean_up V1 "/data" true true (fresh sample_tree [Line "maybe"; Line "n"])) = Ok tt /\
  prompts (console (snd (clean_up V1 "/data" true true
                           (fresh sample_tree [Line "maybe"; Line "n"]))))
  = [proceed_prompt V1; confirm_prompt].
Proof. vm_compute. repeat split. Qed.

(** White space is what [str.isspace] says it is: a no-break space or a
    NEL around a word is stripped, a zero-width space (U+200B) is not. *)
Example strip_follows_isspace :
  str_in (lower (strip (typed "y" ++ [160%N]))) affirmative = true /\
  str_in (lower (strip ([133%N; 8195%N] ++ typed "No" ++ [12288%N]))) yes_no = true /\
  str_in (lower (strip (typed "y" ++ [8203%N]))) yes_no = false /\
  str_in (lower [8490%N]) yes_no = false /\
  lower [304%N] = [105%N; 775%N].
Proof. repeat split. Qed.

(** ** Runs that find nothing (C3, C4) *)

Lemma report_nothing (show : bool) (w : world) :
  exists s, report show [] w = (Ok tt, emit [Print s] w).
Proof. destruct show; eexists; reflexivity. Qed.

(** A run from the command line whose hashing loop ends without error and
    without a collision group. *)
Lemma quiet_run (v : script) (t : filesystem) (dir : string) (g1 : globals) :
  scan_from v t (get_file_paths t dir) module_init = (Ok tt, g1) ->
  collisions_of g1 = [] ->
  forall (show delete : bool) (replies : list reply),
    let r := clean_up v dir show delete (fresh t replies) in
    glob (snd r) = g1 /\
    fs (snd r) = t /\
    removals (console (snd r)) = [] /\
    prompts (console (snd r)) = (if delete then [proceed_prompt v] else []) /\
    (delete = false -> fst r = Ok tt) /\
    (forall s rest, replies = Line s :: rest -> fst r = Ok tt).
Proof.
  intros Hscan Hcoll show delete replies r.
  assert (Er : r = clean_up v dir show delete (fresh t replies)) by reflexivity.
  clearbody r.
  destruct v; cbn [clean_up] in Er; [|unfold time_it in Er; unfold bind at 1 in Er];
    rewrite clean_up_body_run in Er; cbn [fresh fs glob] in Er; cbv zeta in Er;
    rewrite Hscan, Hcoll in Er; unfold bind at 1 in Er;
    match type of Er with context [report show [] ?w0] =>
      destruct (report_nothing show w0) as [line Hl]; rewrite Hl in Er; clear Hl end;
    destruct delete; cbn [when ret] in Er;
    unfold delete_block, proceed, try_except, bind, input in Er;
    cbn [stdin set_glob announce emit fresh] in Er;
    try (destruct replies as [|[s0|] rest0]);
    cbn [confirm_and_delete when ret print emit set_stdin snd fst glob fs stdin console
           set_glob is_KeyboardInterrupt app] in Er;
    subst r;
    cbn [snd fst glob fs stdin console removals prompts flat_map app];
    (repeat split; try reflexivity; try discriminate).
Qed.

Lemma get_file_paths_not_a_directory (t : filesystem) (dir : string) :
  is_dir t dir = false ->
  get_file_paths t dir = [].
Proof.
  unfold is_dir, get_file_paths, os_walk.
  destruct (resolve t dir) as [loc|e]; [|reflexivity].
  destruct (find_node t loc) as [[f|es]|]; [reflexivity | discriminate | reflexivity].
Qed.

Lemma groups_found_nothing (v : script) (t : filesystem) (dir : string) :
  groups_found v t dir = Ok [] ->
  exists g1, scan_from v t (get_file_paths t dir) module_init = (Ok tt, g1) /\
             collisions_of g1 = [].
Proof.
  unfold groups_found, groups_of.
  destruct (scan_from v t (get_file_paths t dir) module_init) as [[[]|e] g1];
    [|discriminate].
  intros [= H]. exists g1. split; [reflexivity|].
  now apply map_eq_nil in H.
Qed.







(** ** A declined confirmation (C6) *)

Lemma only_prints_refl (w : world) : only_prints w w.
Proof. exists []. now rewrite emit_nil. Qed.

Lemma only_prints_trans (a b c : world) :
  only_prints a b -> only_prints b c -> only_prints a c.
Proof.
  intros [e1 [-> [R1 P1]]] [e2 [-> [R2 P2]]]. exists (e1 ++ e2)%list.
  now rewrite emit_emit, removals_app, prompts_app, R1, R2, P1, P2.
Qed.

Lemma only_prints_print (s : string) (w : world) : only_prints w (emit [Print s] w).
Proof. now exists [Print s]. Qed.

Lemma for_each_ok {A} (l : list A) (body : A -> M unit) :
  (forall x w, fst (body x w) = Ok tt) -> forall w, fst (for_each l body w) = Ok tt.
Proof.
  intros Hb. induction l as [|x l IH]; intros w; [reflexivity|].
  cbn [for_each]. unfold bind. specialize (Hb x w).
  destruct (body x w) as [[[]|e] w1]; [apply IH | discriminate].
Qed.

Lemma display_collisions_ok (collisions : list (string * nat)) (w : world) :
  fst (display_collisions collisions w) = Ok tt.
Proof.
  unfold display_collisions. destruct collisions as [|c cs]; [reflexivity|].
  apply for_each_ok. intros [h a] w1. unfold bind, print, get_glob. cbn.
  apply for_each_ok. now intros [i path] w2.
Qed.

(** [display_collisions] only prints. *)
Lemma display_collisions_run (collisions : list (string * nat)) (w : world) :
  exists evs, display_collisions collisions w = (Ok tt, emit evs w) /\
              removals evs = [] /\ prompts evs = [].
Proof.
  pose proof (display_collisions_ok collisions w) as Hok.
  pose proof (respects_display_collisions only_prints only_prints_refl only_prints_trans
                only_prints_print collisions w) as [evs [Hw [Hr Hp]]].
  exists evs. destruct (display_collisions collisions w) as [r w']. cbn in *.
  now subst.
Qed.

(** A yes/no prompt that is answered with [b]. *)
Lemma ask_yes_no_answers (prompt : string) (b : bool) (replies rest : list reply) :
  answers b replies ->
  forall w, stdin w = (replies ++ rest)%list ->
    exists evs, ask_yes_no prompt w = (Ok b, set_stdin rest (emit evs w)) /\
                removals evs = [].
Proof.
  intros [junk [s [-> [Hjunk [Hs Hb]]]]].
  induction Hjunk as [|r junk [s0 [-> Hs0]] Hjunk IH]; intros w Hin.
  - exists [Input prompt]. rewrite (ask_yes_no_recognised prompt s rest w Hin Hs), Hb.
    now split.
  - cbn [app] in Hin. rewrite (ask_yes_no_unrecognised prompt s0 _ w Hin Hs0).
    match goal with |- context [ask_yes_no prompt ?w1] =>
      destruct (IH w1) as [evs [-> Hr]]; [reflexivity|] end.
    exists ([Input prompt; Print please_enter] ++ evs)%list. split.
    + unfold set_stdin, emit. cbn. now rewrite <- !app_assoc.
    + rewrite removals_app. exact Hr.
Qed.

Ltac world_norm :=
  unfold emit, set_stdin, set_glob, set_fs;
  cbn [glob fs stdin console];
  rewrite <- ?app_assoc.

(** A run with [--delete] up to the decision: the hashing loop ends
    without error and finds a group, the first prompt receives a line, the
    "show the files?" prompt (asked only without [--show-duplicates]) is
    answered, and the final prompt is answered with [b].  Up to there the
    run only talks; what follows is [delete_duplicates] or the message of
    an aborted deletion. *)
Lemma run_until_decision
    (v : script) (dir : string) (show : bool) (w : world) (g1 : globals)
    (s0 : text) (show_replies ack_replies rest : list reply) (b : bool) :
  scan_from v (fs w) (get_file_paths (fs w) dir) (glob w) = (Ok tt, g1) ->
  collisions_of g1 <> [] ->
  stdin w = (Line s0 :: show_replies ++ ack_replies ++ rest)%list ->
  (if show then show_replies = [] else exists b', answers b' show_replies) ->
  answers b ack_replies ->
  exists evs,
    removals evs = [] /\
    clean_up_body v dir show true w
    = (if b then delete_duplicates (collisions_of g1) else print "Aborted deletion.")
        {| glob := g1; fs := fs w; stdin := rest; console := console w ++ evs |}.
Proof.
  intros Hscan Hcoll Hin Hshow Hack.
  rewrite clean_up_body_run. cbv zeta. rewrite Hscan.
  destruct (collisions_of g1) as [|c cs] eqn:Ec; [congruence|].
  set (w0 := set_glob g1 (announce v (get_file_paths (fs w) dir) w)).
  assert (H0 : exists e0, w0 = {| glob := g1; fs := fs w; stdin := stdin w;
                                  console := console w ++ e0 |} /\ removals e0 = []).
  { destruct v; subst w0; unfold announce; world_norm.
    - exists []. now rewrite app_nil_r.
    - eexists. split; reflexivity. }
  destruct H0 as [e0 [E0 R0]]. clearbody w0. subst w0.
  unfold bind at 1.
  assert (Hrep : exists e1, report show (c :: cs)
                   {| glob := g1; fs := fs w; stdin := stdin w; console := console w ++ e0 |}
                 = (Ok tt, {| glob := g1; fs := fs w; stdin := stdin w;
                              console := console w ++ e1 |}) /\ removals e1 = []).
  { unfold report. destruct show.
    - match goal with |- context [display_collisions ?cc ?ww] =>
        destruct (display_collisions_run cc ww) as [e [-> [Re _]]] end.
      exists (e0 ++ e)%list. world_norm. rewrite removals_app, R0, Re.
      now split.
    - eexists. unfold print. world_norm. split; [reflexivity|].
      now rewrite removals_app, R0. }
  destruct Hrep as [e1 [-> R1]]. cbn [when]. unfold delete_block, bind at 1.
  match goal with |- context [proceed v ?ww] =>
    rewrite (proceed_line v s0 (show_replies ++ ack_replies ++ rest)%list ww Hin) end.
  cbn [when].
  unfold confirm_and_delete, bind at 1, print at 1.
  unfold bind at 1.
  assert (Hmid : exists e2,
             when (negb show)
               (show0 <- ask_yes_no show_prompt;;
                when show0 (display_collisions (c :: cs)))
               (emit [Print (warning_message v)]
                  (set_stdin (show_replies ++ ack_replies ++ rest)%list
                     (emit [Input (proceed_prompt v)]
                        {| glob := g1; fs := fs w; stdin := stdin w;
                           console := console w ++ e1 |})))
             = (Ok tt, {| glob := g1; fs := fs w; stdin := (ack_replies ++ rest)%list;
                          console := console w ++ e2 |}) /\ removals e2 = []).
  { destruct show; cbn [negb when].
    - subst show_replies. eexists. unfold ret. world_norm.
      split; [reflexivity|].
      now rewrite removals_app, R1.
    - destruct Hshow as [b' Hb]. unfold bind at 1.
      match goal with |- context [ask_yes_no show_prompt ?ww] =>
        destruct (ask_yes_no_answers show_prompt b' show_replies (ack_replies ++ rest)
                    Hb ww eq_refl) as [ea [-> Ra]] end.
      destruct b'; cbn [when].
      + match goal with |- context [display_collisions ?cc ?ww] =>
          destruct (display_collisions_run cc ww) as [ed [-> [Rd _]]] end.
        eexists. world_norm.
        split; [reflexivity|]. rewrite !removals_app, R1, Ra, Rd. reflexivity.
      + eexists. unfold ret. world_norm.
        split; [reflexivity|]. rewrite !removals_app, R1, Ra. reflexivity. }
  destruct Hmid as [e2 [-> R2]]. unfold bind at 1.
  match goal with |- context [ask_yes_no confirm_prompt ?ww] =>
    destruct (ask_yes_no_answers confirm_prompt b ack_replies rest
                Hack ww eq_refl) as [ea [-> Ra]] end.
  exists (e2 ++ ea)%list. split.
  - now rewrite removals_app, R2, Ra.
  - world_norm. now destruct b.
Qed.



(** ** The index across invocations (C9) *)

Lemma index_kept_refl (w : world) : index_kept w w.
Proof. intros h l H. exists l. split; [assumption | apply incl_refl]. Qed.

Lemma index_kept_trans (a b c : world) :
  index_kept a b -> index_kept b c -> index_kept a c.
Proof.
  intros Hab Hbc h l H. destruct (Hab h l H) as [l1 [H1 I1]].
  destruct (Hbc h l1 H1) as [l2 [H2 I2]]. exists l2. split; [assumption|].
  eapply incl_tran; eassumption.
Qed.

Lemma index_kept_scan (v : script) (ps : list string) : respects index_kept (scan v ps).
Proof.
  intros w h l H. rewrite scan_frame. cbn [snd glob set_glob].
  destruct (scan_prefix v (fs w) ps (glob w) h l H) as [l' H'].
  exists (l ++ l')%list. split; [assumption | now apply incl_appl, incl_refl].
Qed.

Lemma index_kept_delete (collisions : list (string * nat)) :
  respects index_kept (delete_duplicates collisions).
Proof.
  intros w h l H. destruct (delete_duplicates_spec collisions w) as [evs [-> _]].
  cbn [snd glob]. apply index_view_In in H. destruct H as [a [Ha ->]].
  exists (deref (sort_groups (store (glob w)) collisions) a). split.
  - apply index_view_In. now exists a.
  - rewrite deref_sort_groups. destruct (existsb _ _); [|apply incl_refl].
    intros x Hx.
    exact (Permutation_in x (Permutation_sym (sort_by_perm depth _)) Hx).
Qed.

Lemma nothing_added_refl (w : world) : nothing_added w w.
Proof. intros h l p H Hp. now exists h, l. Qed.

Lemma nothing_added_trans (a b c : world) :
  nothing_added a b -> nothing_added b c -> nothing_added a c.
Proof.
  intros Hab Hbc h l p H Hp. destruct (Hbc h l p H Hp) as [h1 [l1 [H1 Hp1]]].
  now apply (Hab h1 l1 p).
Qed.

Lemma nothing_added_delete (collisions : list (string * nat)) :
  respects nothing_added (delete_duplicates collisions).
Proof.
  intros w h l p H Hp. destruct (delete_duplicates_spec collisions w) as [evs [E _]].
  rewrite E in H. cbn [snd glob] in H. apply index_view_In in H.
  cbn [store hash_to_files] in H. destruct H as [a [Ha ->]].
  exists h, (deref (store (glob w)) a). split.
  - apply index_view_In. now exists a.
  - rewrite deref_sort_groups in Hp. destruct (existsb _ _); [|assumption].
    exact (Permutation_in p (sort_by_perm depth _) Hp).
Qed.

Lemma time_it_glob {A} (name : string) (m : M A) (w : world) :
  glob (snd (time_it name m w)) = glob (snd (m w)).
Proof. unfold time_it, bind. now destruct (m w) as [[a|e] w']. Qed.

Lemma clean_up_glob (v : script) (dir : string) (show delete : bool) (w : world) :
  glob (snd (clean_up v dir show delete w)) = glob (snd (clean_up_body v dir show delete w)).
Proof. destruct v; cbn [clean_up]; [reflexivity | apply time_it_glob]. Qed.

Lemma announce_glob (v : script) (ps : list string) (w : world) :
  glob (announce v ps w) = glob w.
Proof. now destruct v. Qed.

(** C9, as the code has it: the index is a module-level global.  It is
    empty when the module has just been loaded, and [clean_up] never resets
    it: whatever world a call starts in, every entry of the index is still
    there when the call ends, with at least the paths it had.  So only the
    first call in a process groups nothing but the files it scanned itself:
    after a run started from the command line, every path in the index is
    one that [get_file_paths] returned in that run. *)
Theorem C9_index_starts_empty_and_is_never_reset
    (v : script) (dir : string) (show delete : bool) :
  index_view module_init = [] /\
  (forall w, index_kept w (snd (clean_up v dir show delete w))) /\
  (forall t replies h l p,
      In (h, l) (index_view (glob (snd (clean_up v dir show delete (fresh t replies))))) ->
      In p l -> In p (get_file_paths t dir)).
Proof.
  split; [reflexivity|]. split.
  - intros w.
    exact (respects_clean_up index_kept index_kept_refl index_kept_trans
             (fun s w0 => index_kept_refl _)
             (fun q w0 => index_kept_refl _)
             (fun i w0 => index_kept_refl _)
             (fun n w0 => index_kept_refl _)
             index_kept_delete index_kept_scan v dir show delete w).
  - intros t replies h l p. rewrite clean_up_glob, clean_up_body_run.
    cbv zeta. cbn [fresh fs glob].
    pose proof (scan_members v t (get_file_paths t dir) module_init) as Hmem.
    destruct (scan_from v t (get_file_paths t dir) module_init) as [[[]|e] g1];
      cbn [snd] in Hmem.
    + intros H Hp.
      match type of H with context [snd (?m ?w0)] =>
        pose proof (respects_after_scan nothing_added nothing_added_refl
                      nothing_added_trans
                      (fun s w => nothing_added_refl _)
                      (fun q w => nothing_added_refl _)
                      (fun i w => nothing_added_refl _)
                      nothing_added_delete
                      v show delete (collisions_of g1) w0 h l p H Hp)
          as [h0 [l0 [H0 Hp0]]] end.
      cbn [glob set_glob] in H0.
      destruct (Hmem h0 l0 p H0 Hp0) as [[Hin _]|[k [l1 [[] _]]]]. exact Hin.
    + cbn [snd glob set_glob]. intros H Hp.
      destruct (Hmem h l p H Hp) as [[Hin _]|[k [l1 [[] _]]]]. exact Hin.
Qed.

Lemma C9_witness :
  In ("9dd4e461268c8034f5c8564e155c67a6", ["/data/A"; "/data/sub/B"])
     (index_view (glob (snd (clean_up V1 "/data" false false (fresh sample_tree []))))) /\
  In "/data/sub/B" (get_file_paths sample_tree "/data").
Proof.
  assert (H : In ("9dd4e461268c8034f5c8564e155c67a6", ["/data/A"; "/data/sub/B"])
                (index_view (glob (snd (clean_up V1 "/data" false false
                                          (fresh sample_tree []))))))
    by (vm_compute; left; reflexivity).
  split; [exact H|].
  apply (proj2 (proj2 (C9_index_starts_empty_and_is_never_reset V1 "/data" false false))
           sample_tree [] _ _ "/data/sub/B" H).
  right. left. reflexivity.
Defined.

(** The claim as stated fails for two calls in one process: a directory
    with a single file has no duplicate group, but a second call of
    [clean_up] on it finds the file recorded by the first call and reports
    the file as a duplicate of itself. *)
Lemma C9_counterexample :
  get_file_paths sample_tree "/data/sub" = ["/data/sub/B"] /\
  groups_found V1 sample_tree "/data/sub" = Ok [] /\
  groups_of (glob (snd (clean_up V1 "/data/sub" false false
                          (snd (clean_up V1 "/data/sub" false false
                                  (fresh sample_tree []))))))
  = [("9dd4e461268c8034f5c8564e155c67a6", ["/data/sub/B"; "/data/sub/B"])].
Proof. vm_compute. repeat split. Qed.

(** ** The file system after removals *)

Lemma location_eqb_eq (a b : location) : location_eqb a b = true <-> a = b.
Proof. unfold location_eqb. destruct (list_eq_dec string_dec a b); split; congruence. Qed.

Lemma location_eqb_refl (a : location) : location_eqb a a = true.
Proof. now apply location_eqb_eq. Qed.

Lemma location_eqb_neq (a b : location) : a <> b -> location_eqb a b = false.
Proof.
  intros N. destruct (location_eqb a b) eqn:E; [|reflexivity].
  apply location_eqb_eq in E. contradiction.
Qed.

Lemma location_eqb_cons (name : string) (a b : location) :
  location_eqb (name :: a) (name :: b) = location_eqb a b.
Proof.
  destruct (location_eqb a b) eqn:E.
  - apply location_eqb_eq in E. subst. apply location_eqb_refl.
  - apply location_eqb_neq. intros [= H]. subst. now rewrite location_eqb_refl in E.
Qed.

Lemma location_eqb_app (loc a b : location) :
  location_eqb (loc ++ a) (loc ++ b) = location_eqb a b.
Proof.
  induction loc as [|name loc IH]; [reflexivity|].
  cbn [app]. now rewrite location_eqb_cons.
Qed.

Lemma lookup_without (name name' : string) (es : list (string * node)) :
  lookup name' (without name es) = if name =? name' then None else lookup name' es.
Proof.
  induction es as [|[n c] es IH]; [now destruct (name =? name')|].
  unfold without in *. cbn [filter lookup].
  destruct (String.eqb_spec n name) as [->|Hn]; cbn [negb].
  - rewrite IH. now destruct (name =? name').
  - cbn [lookup]. rewrite IH.
    destruct (String.eqb_spec n name') as [->|Hn']; [|reflexivity].
    destruct (String.eqb_spec name name'); [congruence | reflexivity].
Qed.

Lemma lookup_update (name name' : string) (f : node -> node) (es : list (string * node)) :
  lookup name' (update name f es)
  = if name =? name' then option_map f (lookup name' es) else lookup name' es.
Proof.
  induction es as [|[n c] es IH]; [now destruct (name =? name')|].
  cbn [update]. destruct (String.eqb_spec n name) as [->|Hn]; cbn [lookup].
  - destruct (name =? name'); reflexivity.
  - rewrite IH. destruct (String.eqb_spec n name') as [->|Hn']; [|reflexivity].
    destruct (String.eqb_spec name name'); [congruence | reflexivity].
Qed.

Lemma unlink_is_dir (es : list (string * node)) (loc : location) :
  Dir (entries_of (unlink (Dir es) loc)) = unlink (Dir es) loc.
Proof. destruct loc as [|name [|r rs]]; reflexivity. Qed.

(** Unlinking the file at [loc] empties that location and no other. *)
Lemma file_at_unlink (loc : location) :
  forall es f loc',
    node_at (Dir es) loc = Some (File f) ->
    file_at (unlink (Dir es) loc) loc'
    = if location_eqb loc' loc then None else file_at (Dir es) loc'.
Proof.
  induction loc as [|name rest IH]; intros es f loc' H; [discriminate|].
  cbn [node_at] in H. destruct (lookup name es) as [child|] eqn:L; [|discriminate].
  destruct rest as [|r rs].
  - cbn [node_at] in H. injection H as ->. cbn [unlink].
    destruct loc' as [|name' rest']; [reflexivity|].
    unfold file_at. cbn [node_at]. rewrite lookup_without.
    destruct (String.eqb_spec name name') as [<-|N].
    + rewrite L. destruct rest' as [|r' rs']; [now rewrite location_eqb_refl|].
      cbn [node_at]. now destruct (location_eqb _ _).
    + rewrite location_eqb_neq by congruence. reflexivity.
  - destruct child as [g|es']; [discriminate|].
    change (unlink (Dir es) (name :: r :: rs))
      with (Dir (update name (fun child => unlink child (r :: rs)) es)).
    destruct loc' as [|name' rest']; [reflexivity|].
    unfold file_at. cbn [node_at]. rewrite lookup_update.
    destruct (String.eqb_spec name name') as [<-|N].
    + rewrite L. cbn [option_map]. rewrite location_eqb_cons.
      apply (IH es' f rest' H).
    + rewrite location_eqb_neq by congruence. reflexivity.
Qed.

(** Unlinking a file leaves every directory where it is. *)
Lemma dir_at_unlink (loc : location) :
  forall es f loc',
    node_at (Dir es) loc = Some (File f) ->
    dir_at (unlink (Dir es) loc) loc' = dir_at (Dir es) loc'.
Proof.
  induction loc as [|name rest IH]; intros es f loc' H; [discriminate|].
  cbn [node_at] in H. destruct (lookup name es) as [child|] eqn:L; [|discriminate].
  destruct rest as [|r rs].
  - cbn [node_at] in H. injection H as ->. cbn [unlink].
    destruct loc' as [|name' rest']; [reflexivity|].
    unfold dir_at. cbn [node_at]. rewrite lookup_without.
    destruct (String.eqb_spec name name') as [<-|N]; [|reflexivity].
    rewrite L. now destruct rest'.
  - destruct child as [g|es']; [discriminate|].
    change (unlink (Dir es) (name :: r :: rs))
      with (Dir (update name (fun child => unlink child (r :: rs)) es)).
    destruct loc' as [|name' rest']; [reflexivity|].
    unfold dir_at. cbn [node_at]. rewrite lookup_update.
    destruct (String.eqb_spec name name') as [<-|N]; [|reflexivity].
    rewrite L. cbn [option_map]. apply (IH es' f rest' H).
Qed.

Lemma rm_unfold (t : filesystem) (p : string) :
  rm t p = match target t p with
           | Some loc => {| root := entries_of (unlink (Dir (root t)) loc);
                            cwd := cwd t; stuck := stuck t |}
           | None => t
           end.
Proof.
  unfold rm, os_remove, target, file_at, find_node.
  destruct (resolve t p) as [loc|e]; [|reflexivity].
  destruct (node_at _ loc) as [[f|es]|]; try reflexivity.
  now destruct (existsb _ _).
Qed.

Lemma target_spec (t : filesystem) (p : string) (loc : location) :
  target t p = Some loc <->
  resolve t p = Ok loc /\
  (exists f, node_at (Dir (root t)) loc = Some (File f)) /\
  existsb (location_eqb loc) (stuck t) = false.
Proof.
  unfold target, file_at. destruct (resolve t p) as [l|e].
  - destruct (node_at (Dir (root t)) l) as [[f|es]|] eqn:N.
    + destruct (existsb (location_eqb l) (stuck t)) eqn:S; split.
      * discriminate.
      * intros [[= ->] [_ H]]. congruence.
      * intros [= ->]. repeat split; [now exists f | assumption].
      * now intros [[= ->] _].
    + split; [discriminate|]. intros [[= ->] [[f H] _]]. congruence.
    + split; [discriminate|]. intros [[= ->] [[f H] _]]. congruence.
  - split; [discriminate | now intros [H _]].
Qed.

Lemma cwd_rm (t : filesystem) (p : string) : cwd (rm t p) = cwd t.
Proof. rewrite rm_unfold. now destruct (target t p). Qed.

Lemma stuck_rm (t : filesystem) (p : string) : stuck (rm t p) = stuck t.
Proof. rewrite rm_unfold. now destruct (target t p). Qed.

Lemma file_at_rm (t : filesystem) (p : string) (l : location) :
  file_at (Dir (root (rm t p))) l
  = match target t p with
    | Some loc => if location_eqb l loc then None else file_at (Dir (root t)) l
    | None => file_at (Dir (root t)) l
    end.
Proof.
  rewrite rm_unfold. destruct (target t p) as [loc|] eqn:T; [|reflexivity].
  apply target_spec in T. destruct T as [_ [[f Hf] _]].
  cbn [root]. rewrite unlink_is_dir. now apply (file_at_unlink loc (root t) f).
Qed.

Lemma dir_at_rm (t : filesystem) (p : string) (l : location) :
  dir_at (Dir (root (rm t p))) l = dir_at (Dir (root t)) l.
Proof.
  rewrite rm_unfold. destruct (target t p) as [loc|] eqn:T; [|reflexivity].
  apply target_spec in T. destruct T as [_ [[f Hf] _]].
  cbn [root]. rewrite unlink_is_dir. now apply (dir_at_unlink loc (root t) f).
Qed.

(** Resolution looks at the directories only. *)
Lemma walk_to_dirs (t t' : filesystem) :
  (forall l, dir_at (Dir (root t')) l = dir_at (Dir (root t)) l) ->
  forall comps loc l, walk_to t loc comps = Ok l -> walk_to t' loc comps = Ok l.
Proof.
  intros H comps. induction comps as [|comp rest IH]; intros loc l; cbn [walk_to]; [trivial|].
  specialize (H loc). unfold dir_at, find_node in *.
  destruct (node_at (Dir (root t)) loc) as [[f|es]|]; try discriminate.
  destruct (node_at (Dir (root t')) loc) as [[f'|es']|]; try discriminate.
  apply IH.
Qed.

Lemma resolve_dirs (t t' : filesystem) (q : string) (l : location) :
  cwd t' = cwd t ->
  (forall l, dir_at (Dir (root t')) l = dir_at (Dir (root t)) l) ->
  resolve t q = Ok l -> resolve t' q = Ok l.
Proof.
  intros Hc Hd. unfold resolve. rewrite Hc.
  destruct (q =? ""); [discriminate|]. now apply walk_to_dirs.
Qed.

Lemma resolve_rm (t : filesystem) (p q : string) (l : location) :
  resolve (rm t p) q = Ok l <-> resolve t q = Ok l.
Proof.
  split; apply resolve_dirs.
  - symmetry. apply cwd_rm.
  - intros l'. symmetry. apply dir_at_rm.
  - apply cwd_rm.
  - intros l'. apply dir_at_rm.
Qed.

Lemma resolve_removals (rs : list string) :
  forall t q l, resolve (fold_left rm rs t) q = Ok l <-> resolve t q = Ok l.
Proof.
  induction rs as [|r rs IH]; intros t q l; [reflexivity|].
  cbn [fold_left]. rewrite IH. apply resolve_rm.
Qed.

Lemma stuck_removals (rs : list string) :
  forall t, stuck (fold_left rm rs t) = stuck t.
Proof.
  induction rs as [|r rs IH]; intros t; [reflexivity|].
  cbn [fold_left]. rewrite IH. apply stuck_rm.
Qed.

Lemma cwd_removals (rs : list string) :
  forall t, cwd (fold_left rm rs t) = cwd t.
Proof.
  induction rs as [|r rs IH]; intros t; [reflexivity|].
  cbn [fold_left]. rewrite IH. apply cwd_rm.
Qed.

Lemma dir_at_removals (rs : list string) :
  forall t l, dir_at (Dir (root (fold_left rm rs t))) l = dir_at (Dir (root t)) l.
Proof.
  induction rs as [|r rs IH]; intros t l; [reflexivity|].
  cbn [fold_left]. rewrite IH. apply dir_at_rm.
Qed.

(** No file appears: what is at a location after the removals was there
    before. *)
Lemma file_at_removals_le (rs : list string) :
  forall t l,
    file_at (Dir (root (fold_left rm rs t))) l = None \/
    file_at (Dir (root (fold_left rm rs t))) l = file_at (Dir (root t)) l.
Proof.
  induction rs as [|r rs IH]; intros t l; [now right|].
  cbn [fold_left]. destruct (IH (rm t r) l) as [H|H]; [now left|].
  rewrite H, file_at_rm. destruct (target t r) as [loc|]; [|now right].
  destruct (location_eqb l loc); [now left | now right].
Qed.

Lemma target_rm (t : filesystem) (p r : string) (l : location) :
  target (rm t p) r = Some l -> target t r = Some l.
Proof.
  intros H. apply target_spec in H. destruct H as [Hr [[f Hf] Hs]].
  apply target_spec. rewrite stuck_rm in Hs. apply resolve_rm in Hr.
  repeat split; try assumption.
  assert (Hfile : file_at (Dir (root (rm t p))) l = Some f) by (unfold file_at; now rewrite Hf).
  rewrite file_at_rm in Hfile. unfold file_at in Hfile.
  destruct (target t p) as [loc|].
  - destruct (location_eqb l loc); [discriminate|].
    destruct (node_at (Dir (root t)) l) as [[g|es]|]; try discriminate. now exists g.
  - destruct (node_at (Dir (root t)) l) as [[g|es]|]; try discriminate. now exists g.
Qed.

(** A location that no removal aims at keeps its file. *)
Lemma file_at_untouched (rs : list string) :
  forall t l,
    (forall r, In r rs -> target t r <> Some l) ->
    file_at (Dir (root (fold_left rm rs t))) l = file_at (Dir (root t)) l.
Proof.
  induction rs as [|r rs IH]; intros t l H; [reflexivity|].
  cbn [fold_left]. rewrite IH.
  - rewrite file_at_rm. destruct (target t r) as [loc|] eqn:T; [|reflexivity].
    destruct (location_eqb l loc) eqn:E; [|reflexivity].
    apply location_eqb_eq in E. subst loc. destruct (H r (or_introl eq_refl) T).
  - intros r' Hr' T. apply target_rm in T. exact (H r' (or_intror Hr') T).
Qed.

(** A location that a removal aims at is empty in the end. *)
Lemma file_at_removed (rs : list string) :
  forall t r l,
    In r rs -> target t r = Some l ->
    file_at (Dir (root (fold_left rm rs t))) l = None.
Proof.
  induction rs as [|a rs IH]; intros t r l Hin T; [destruct Hin|].
  cbn [fold_left].
  assert (Hgone : file_at (Dir (root (rm t a))) l = None ->
                  file_at (Dir (root (fold_left rm rs (rm t a)))) l = None).
  { intros H. destruct (file_at_removals_le rs (rm t a) l) as [E|E]; congruence. }
  destruct Hin as [->|Hin].
  - apply Hgone. now rewrite file_at_rm, T, location_eqb_refl.
  - destruct (file_at (Dir (root (rm t a))) l) as [f|] eqn:F; [|now apply Hgone].
    apply (IH (rm t a) r l Hin). apply target_spec in T. destruct T as [Hr [_ Hs]].
    apply target_spec. rewrite stuck_rm. repeat split; try assumption.
    + now apply resolve_rm.
    + unfold file_at in F.
      destruct (node_at (Dir (root (rm t a))) l) as [[g|es]|]; try discriminate.
      now exists g.
Qed.

Lemma is_file_view (t : filesystem) (q : string) :
  is_file t q = match resolve t q with
                | Ok l => match file_at (Dir (root t)) l with
                          | Some _ => true
                          | None => false
                          end
                | Raise _ => false
                end.
Proof.
  unfold is_file, file_at, find_node. destruct (resolve t q) as [l|e]; [|reflexivity].
  now destruct (node_at (Dir (root t)) l) as [[f|es]|].
Qed.

Lemma open_read_view (t : filesystem) (q : string) (l : location) :
  resolve t q = Ok l ->
  open_read t q = match file_at (Dir (root t)) l with
                  | Some (Readable data) => Ok data
                  | Some (Unreadable e) => Raise e
                  | None => if dir_at (Dir (root t)) l then Raise OSError
                            else Raise FileNotFoundError
                  end.
Proof.
  intros H. unfold open_read, file_at, dir_at, find_node. rewrite H.
  now destruct (node_at (Dir (root t)) l) as [[[d|e]|es]|].
Qed.

Lemma is_stuck_view (t : filesystem) (q : string) (l : location) :
  resolve t q = Ok l -> is_stuck t q = existsb (location_eqb l) (stuck t).
Proof. intros H. unfold is_stuck. now rewrite H. Qed.

Lemma target_is_file (t : filesystem) (p : string) :
  is_file t p = true -> is_stuck t p = false ->
  exists l, target t p = Some l /\ resolve t p = Ok l.
Proof.
  rewrite is_file_view. unfold is_stuck, target.
  destruct (resolve t p) as [l|e]; [|discriminate].
  destruct (file_at (Dir (root t)) l); [|discriminate].
  intros _ ->. now exists l.
Qed.

(** After [os.remove] has returned, no file is at the path. *)
Lemma is_file_removed (t t' : filesystem) (p : string) :
  os_remove t p = Ok t' -> is_file t' p = false.
Proof.
  intros H. assert (E : rm t p = t') by (unfold rm; now rewrite H). subst t'.
  rewrite is_file_view. destruct (resolve (rm t p) p) as [l|e] eqn:R; [|reflexivity].
  rewrite file_at_rm. apply resolve_rm in R.
  unfold os_remove in H. unfold target, file_at. rewrite R in *. unfold find_node in H.
  destruct (node_at (Dir (root t)) l) as [[f|es]|]; try discriminate.
  destruct (existsb _ _); [discriminate|]. now rewrite location_eqb_refl.
Qed.

Lemma rm_not_a_file (t : filesystem) (p : string) : is_file t p = false -> rm t p = t.
Proof.
  unfold is_file, rm, os_remove. destruct (resolve t p) as [l|e]; [|reflexivity].
  now destruct (find_node t l) as [[f|es]|].
Qed.

Lemma rm_stuck (t : filesystem) (p : string) : is_stuck t p = true -> rm t p = t.
Proof.
  unfold is_stuck, rm, os_remove. destruct (resolve t p) as [l|e]; [|reflexivity].
  intros ->. now destruct (find_node t l) as [[f|es]|].
Qed.

(** Every path handed to [os.remove] that led to a file which can be
    unlinked leads to no file in the end. *)
Lemma is_file_removals (rs : list string) (t : filesystem) (p : string) :
  In p rs -> is_stuck t p = false -> is_file (fold_left rm rs t) p = false.
Proof.
  intros Hin Hs. rewrite is_file_view.
  destruct (resolve (fold_left rm rs t) p) as [l|e] eqn:R; [|reflexivity].
  apply resolve_removals in R.
  destruct (file_at (Dir (root t)) l) as [f|] eqn:F.
  - rewrite (file_at_removed rs t p l Hin); [reflexivity|].
    unfold target. rewrite R, F. rewrite (is_stuck_view t p l R) in Hs. now rewrite Hs.
  - destruct (file_at_removals_le rs t l) as [E|E]; rewrite E; [reflexivity | now rewrite F].
Qed.

(** A path that leads where no removal aims reads as before. *)
Lemma untouched_reads (rs : list string) (t : filesystem) (q : string) (l : location) :
  resolve t q = Ok l ->
  (forall r, In r rs -> target t r <> Some l) ->
  open_read (fold_left rm rs t) q = open_read t q /\
  is_file (fold_left rm rs t) q = is_file t q.
Proof.
  intros R H. pose proof (proj2 (resolve_removals rs t q l) R) as R'.
  rewrite (open_read_view _ q l R'), (open_read_view _ q l R), !is_file_view, R, R'.
  now rewrite (file_at_untouched rs t l H), dir_at_removals.
Qed.

(** A file that cannot be unlinked stays. *)
Lemma stuck_reads (rs : list string) (t : filesystem) (q : string) :
  is_stuck t q = true ->
  open_read (fold_left rm rs t) q = open_read t q /\
  is_file (fold_left rm rs t) q = is_file t q.
Proof.
  intros Hs. unfold is_stuck in Hs. destruct (resolve t q) as [l|e] eqn:R; [|discriminate].
  apply (untouched_reads rs t q l R). intros r _ T.
  apply target_spec in T. destruct T as [_ [_ T]]. congruence.
Qed.

(** No removal brings a file about. *)
Lemma is_file_removals_le (rs : list string) (t : filesystem) (q : string) :
  is_file (fold_left rm rs t) q = true -> is_file t q = true.
Proof.
  rewrite !is_file_view.
  destruct (resolve (fold_left rm rs t) q) as [l|e] eqn:R; [|discriminate].
  apply resolve_removals in R. rewrite R.
  destruct (file_at_removals_le rs t l) as [E|E]; rewrite E; [discriminate | trivial].
Qed.

Lemma removals_of_nothing (rs : list string) (t : filesystem) :
  (forall p, In p rs -> is_file t p = false) -> fold_left rm rs t = t.
Proof.
  revert t. induction rs as [|r rs IH]; intros t H; [reflexivity|].
  cbn [fold_left]. rewrite rm_not_a_file by (apply H; now left).
  apply IH. intros p Hp. apply H. now right.
Qed.

Lemma is_stuck_removals (rs : list string) (t : filesystem) (q : string) :
  is_stuck (fold_left rm rs t) q = is_stuck t q.
Proof.
  unfold is_stuck. rewrite stuck_removals.
  destruct (resolve t q) as [l|e] eqn:R.
  - now rewrite (proj2 (resolve_removals rs t q l) R).
  - destruct (resolve (fold_left rm rs t) q) as [l|e'] eqn:R'; [|reflexivity].
    apply resolve_removals in R'. congruence.
Qed.

(** Removals that aim at no file, or at files that cannot be unlinked,
    change nothing. *)
Lemma removals_idle (rs : list string) (t : filesystem) :
  (forall p, In p rs -> is_file t p = false \/ is_stuck t p = true) ->
  fold_left rm rs t = t.
Proof.
  revert t. induction rs as [|r rs IH]; intros t H; [reflexivity|].
  cbn [fold_left].
  assert (E : rm t r = t).
  { destruct (H r (or_introl eq_refl)); [now apply rm_not_a_file | now apply rm_stuck]. }
  rewrite E. apply IH. intros p Hp. apply H. now right.
Qed.

(** A second round of the same removals changes nothing more. *)
Lemma removals_twice (rs : list string) (t : filesystem) :
  fold_left rm rs (fold_left rm rs t) = fold_left rm rs t.
Proof.
  apply removals_idle. intros p Hp. rewrite is_stuck_removals.
  destruct (is_stuck t p) eqn:S; [now right|]. left. now apply is_file_removals.
Qed.

(** ** What the scan gathers *)

Lemma files_from_paths (cwd : string) (n : node) :
  forall top,
    map fst (files_from cwd top n)
    = flat_map (fun '(dirpath, _, filenames) =>
                  map (fun filename => abspath cwd (join dirpath filename)) filenames)
               (walk_from top n).
Proof.
  induction n as [f|es IH] using node_induction; intros top; [reflexivity|].
  cbn [files_from walk_from flat_map]. rewrite map_app, map_map. cbn [fst]. f_equal.
  induction IH as [|[name child] es Hchild _ IHes]; [reflexivity|].
  cbn [snd] in Hchild. cbn [flat_map]. rewrite map_app, flat_map_app.
  f_equal; [|exact IHes]. rewrite map_map. cbn [below fst snd]. apply Hchild.
Qed.

Lemma listing_paths (t : filesystem) (dir : string) :
  map fst (listing t dir) = get_file_paths t dir.
Proof.
  unfold listing, get_file_paths, os_walk.
  destruct (resolve t dir) as [loc|e]; [|reflexivity].
  destruct (find_node t loc) as [n|]; [|reflexivity].
  rewrite map_map. cbn [below fst]. apply files_from_paths.
Qed.

Lemma distinct_NoDup {A} (eqb : A -> A -> bool) (l : list A) :
  (forall a b, eqb a b = true <-> a = b) ->
  distinct eqb l = true <-> NoDup l.
Proof.
  intros Heq. induction l as [|x l IH]; cbn [distinct].
  - split; [constructor | reflexivity].
  - rewrite andb_true_iff, negb_true_iff, IH. split.
    + intros [Hx Hl]. constructor; [|assumption]. intros Hin.
      assert (E : existsb (eqb x) l = true)
        by (apply existsb_exists; exists x; split; [assumption | now apply Heq]).
      congruence.
    + intros H. inversion H as [|? ? Hx Hl]; subst. split; [|assumption].
      destruct (existsb (eqb x) l) eqn:E; [|reflexivity].
      apply existsb_exists in E. destruct E as [y [Hy E]]. apply Heq in E. now subst.
Qed.

Lemma leads_to_spec (t : filesystem) (p : string) (l : location) :
  leads_to t p l = true <->
  resolve t p = Ok l /\ exists f, file_at (Dir (root t)) l = Some f.
Proof.
  unfold leads_to. destruct (resolve t p) as [l'|e].
  - rewrite andb_true_iff, location_eqb_eq. split.
    + intros [-> H]. split; [reflexivity|].
      destruct (file_at (Dir (root t)) l) as [f|]; [now exists f | discriminate].
    + intros [[= ->] [f ->]]. now split.
  - split; [discriminate | now intros [H _]].
Qed.

Lemma coherent_parts (t : filesystem) (dir : string) :
  coherent t dir = true <->
  distinct_names (Dir (root t)) = true /\
  (forall e, In e (listing t dir) -> leads_to t (fst e) (snd e) = true) /\
  NoDup (map snd (listing t dir)).
Proof.
  unfold coherent. rewrite !andb_true_iff, forallb_forall.
  rewrite (distinct_NoDup location_eqb _ location_eqb_eq). tauto.
Qed.

Lemma coherent_leads (t : filesystem) (dir p : string) :
  coherent t dir = true -> In p (get_file_paths t dir) ->
  exists l, In (p, l) (listing t dir) /\ resolve t p = Ok l /\
            exists f, file_at (Dir (root t)) l = Some f.
Proof.
  intros H Hin. apply coherent_parts in H. destruct H as [_ [H _]].
  rewrite <- listing_paths in Hin. apply in_map_iff in Hin.
  destruct Hin as [[q l] [Hq Hin]]. cbn [fst] in Hq. subst q.
  exists l. split; [assumption|]. now apply leads_to_spec, (H (p, l)).
Qed.

Lemma snd_inj {A B} (l : list (A * B)) (a a' : A) (b : B) :
  NoDup (map snd l) -> In (a, b) l -> In (a', b) l -> a = a'.
Proof.
  induction l as [|[x y] l IH]; intros Hnd H1 H2; [destruct H1|].
  cbn [map snd] in Hnd. inversion Hnd as [|? ? Hy Hl]; subst.
  destruct H1 as [E1|H1], H2 as [E2|H2].
  - congruence.
  - inversion E1; subst. destruct Hy. apply in_map_iff. now exists (a', b).
  - inversion E2; subst. destruct Hy. apply in_map_iff. now exists (a, b).
  - now apply IH.
Qed.

(** Distinct gathered paths lead to distinct files. *)
Lemma coherent_inj (t : filesystem) (dir p q : string) (l : location) :
  coherent t dir = true ->
  In p (get_file_paths t dir) -> In q (get_file_paths t dir) ->
  resolve t p = Ok l -> resolve t q = Ok l -> p = q.
Proof.
  intros H Hp Hq Rp Rq.
  destruct (coherent_leads t dir p H Hp) as [lp [Ip [Rp' _]]].
  destruct (coherent_leads t dir q H Hq) as [lq [Iq [Rq' _]]].
  assert (lp = l) by congruence. assert (lq = l) by congruence. subst lp lq.
  apply coherent_parts in H. destruct H as [_ [_ Hnd]].
  exact (snd_inj _ p q l Hnd Ip Iq).
Qed.

Lemma coherent_is_file (t : filesystem) (dir p : string) :
  coherent t dir = true -> In p (get_file_paths t dir) -> is_file t p = true.
Proof.
  intros H Hp. destruct (coherent_leads t dir p H Hp) as [l [_ [R [f F]]]].
  now rewrite is_file_view, R, F.
Qed.

Lemma coherent_NoDup (t : filesystem) (dir : string) :
  coherent t dir = true -> NoDup (get_file_paths t dir).
Proof.
  intros H. pose proof (proj1 (coherent_parts t dir) H) as [_ [Hl Hnd]].
  rewrite <- listing_paths.
  set (place := fun p => match resolve t p with Ok l => l | Raise _ => [] end).
  apply (NoDup_map_inv place). rewrite map_map.
  erewrite map_ext_in; [exact Hnd|].
  intros [p l] Hin. cbn [fst snd]. specialize (Hl (p, l) Hin). cbn [fst snd] in Hl.
  apply leads_to_spec in Hl. destruct Hl as [R _]. unfold place. now rewrite R.
Qed.

(** A gathered path that does not lead where a removal aims, given that
    the removed paths were gathered too. *)
Lemma coherent_apart (t : filesystem) (dir q : string) (rs : list string) (l : location) :
  coherent t dir = true ->
  In q (get_file_paths t dir) -> incl rs (get_file_paths t dir) -> ~ In q rs ->
  resolve t q = Ok l ->
  forall r, In r rs -> target t r <> Some l.
Proof.
  intros H Hq Hrs Hn R r Hr T. apply target_spec in T. destruct T as [Rr _].
  apply Hn. now rewrite (coherent_inj t dir q r l H Hq (Hrs r Hr) R Rr).
Qed.

(** A gathered path that is not handed to [os.remove] reads as before,
    when the paths that are were gathered too. *)
Lemma gathered_untouched (t : filesystem) (dir q : string) (rs : list string) :
  coherent t dir = true ->
  incl rs (get_file_paths t dir) -> In q (get_file_paths t dir) -> ~ In q rs ->
  open_read (fold_left rm rs t) q = open_read t q /\
  is_file (fold_left rm rs t) q = is_file t q.
Proof.
  intros H Hrs Hq Hn. destruct (coherent_leads t dir q H Hq) as [l [_ [R _]]].
  apply (untouched_reads rs t q l R). now apply (coherent_apart t dir q rs l).
Qed.

(** ** The scan after removals *)

Lemma node_at_app (a b : location) :
  forall n, node_at n (a ++ b) = match node_at n a with
                                 | Some m => node_at m b
                                 | None => None
                                 end.
Proof.
  induction a as [|name a IH]; intros n; [reflexivity|].
  cbn [app node_at]. destruct n as [f|es]; [reflexivity|].
  destruct (lookup name es); [apply IH | reflexivity].
Qed.

Lemma node_at_unlink_prefix (loc : location) :
  forall es suf f n,
    suf <> [] -> node_at (Dir es) loc = Some n -> node_at n suf = Some (File f) ->
    node_at (unlink (Dir es) (loc ++ suf)) loc = Some (unlink n suf).
Proof.
  induction loc as [|name rest IH]; intros es suf f n Hs Hn Hf.
  - cbn [node_at] in Hn. injection Hn as <-. reflexivity.
  - cbn [node_at] in Hn. destruct (lookup name es) as [child|] eqn:L; [|discriminate].
    cbn [app]. destruct (rest ++ suf) as [|r rs] eqn:E.
    { apply app_eq_nil in E. destruct E; contradiction. }
    change (unlink (Dir es) (name :: r :: rs))
      with (Dir (update name (fun child => unlink child (r :: rs)) es)).
    cbn [node_at]. rewrite lookup_update, String.eqb_refl, L. cbn [option_map].
    rewrite <- E. destruct child as [g|es'].
    + destruct rest as [|r0 rs0]; [|discriminate].
      cbn [node_at] in Hn. injection Hn as <-. reflexivity.
    + now apply (IH es' suf f n).
Qed.

Lemma lookup_In (name : string) (es : list (string * node)) (child : node) :
  lookup name es = Some child -> In (name, child) es.
Proof.
  induction es as [|[n c] es IH]; [discriminate|]. cbn [lookup].
  destruct (String.eqb_spec n name) as [->|_].
  - intros [= ->]. now left.
  - intros H. right. now apply IH.
Qed.

Lemma distinct_names_Dir (es : list (string * node)) :
  distinct_names (Dir es) = true <->
  NoDup (map fst es) /\ forall e, In e es -> distinct_names (snd e) = true.
Proof.
  cbn [distinct_names]. rewrite andb_true_iff, forallb_forall.
  now rewrite (distinct_NoDup String.eqb _ String.eqb_eq).
Qed.

Lemma distinct_names_node_at (loc : location) :
  forall n m, distinct_names n = true -> node_at n loc = Some m -> distinct_names m = true.
Proof.
  induction loc as [|name rest IH]; intros n m Hd Hn.
  - cbn [node_at] in Hn. now injection Hn as <-.
  - cbn [node_at] in Hn. destruct n as [f|es]; [discriminate|].
    destruct (lookup name es) as [child|] eqn:L; [|discriminate].
    apply (IH child m); [|assumption].
    apply distinct_names_Dir in Hd. destruct Hd as [_ Hd].
    exact (Hd (name, child) (lookup_In _ _ _ L)).
Qed.

Lemma files_from_shape (cwd top : string) (es : list (string * node)) (e : string * location) :
  In e (flat_map (fun x => map (below [fst x]) (files_from cwd (join top (fst x)) (snd x))) es) ->
  exists name r rs, snd e = name :: r :: rs /\ In name (map fst es).
Proof.
  intros H. apply in_flat_map in H. destruct H as [[name child] [Hx He]].
  cbn [fst snd] in He. apply in_map_iff in He. destruct He as [e' [<- He']].
  destruct child as [f|es']; [destruct He'|].
  cbn [files_from] in He'. apply in_app_or in He'.
  assert (Hne : exists r rs, snd e' = r :: rs).
  { destruct He' as [H|H].
    - apply in_map_iff in H. destruct H as [n [<- _]]. now exists n, [].
    - apply in_flat_map in H. destruct H as [x [_ H]]. apply in_map_iff in H.
      destruct H as [e'' [<- _]]. now exists (fst x), (snd e''). }
  destruct Hne as [r [rs Hr]]. exists name, r, rs. cbn [below snd app]. rewrite Hr.
  split; [reflexivity|]. apply in_map_iff. now exists (name, Dir es').
Qed.

Lemma without_cons (name n : string) (c : node) (es : list (string * node)) :
  without name ((n, c) :: es)
  = if n =? name then without name es else (n, c) :: without name es.
Proof. unfold without. cbn [filter]. now destruct (n =? name). Qed.

Lemma without_absent (name : string) (es : list (string * node)) :
  ~ In name (map fst es) -> without name es = es.
Proof.
  induction es as [|[n c] es IH]; intros H; [reflexivity|].
  rewrite without_cons. destruct (String.eqb_spec n name) as [->|_].
  - destruct H. now left.
  - f_equal. apply IH. intros Hin. apply H. now right.
Qed.

Section FilesFrom.
Variable cwd : string.

Lemma filenames_without (top name : string) (es : list (string * node)) :
  map (fun n => (abspath cwd (join top n), [n])) (filenames (without name es))
  = filter (elsewhere [name])
      (map (fun n => (abspath cwd (join top n), [n])) (filenames es)).
Proof.
  induction es as [|[n c] es IH]; [reflexivity|].
  rewrite without_cons. unfold filenames in *. cbn [flat_map].
  destruct (String.eqb_spec n name) as [->|N]; cbn [flat_map].
  - destruct c as [f|sub]; cbn [app map filter]; [|exact IH].
    unfold elsewhere at 1. cbn [snd]. rewrite location_eqb_refl. exact IH.
  - destruct c as [f|sub]; cbn [app map filter]; [|exact IH].
    unfold elsewhere at 1. cbn [snd]. rewrite location_eqb_neq by congruence.
    cbn [negb]. now rewrite IH.
Qed.

Lemma subwalks_without (top name : string) (f : file) (es : list (string * node)) :
  NoDup (map fst es) -> lookup name es = Some (File f) ->
  flat_map (fun x => map (below [fst x]) (files_from cwd (join top (fst x)) (snd x)))
           (without name es)
  = flat_map (fun x => map (below [fst x]) (files_from cwd (join top (fst x)) (snd x))) es.
Proof.
  induction es as [|[n c] es IH]; intros Hnd L; [discriminate|].
  cbn [map fst] in Hnd. inversion Hnd as [|? ? Hn Hes]; subst.
  cbn [lookup] in L. rewrite without_cons.
  destruct (String.eqb_spec n name) as [->|N].
  - injection L as ->. cbn [flat_map fst snd files_from map app].
    now rewrite (without_absent name es Hn).
  - cbn [flat_map]. now rewrite IH.
Qed.

Lemma filenames_update (name : string) (loc : location) (es es' : list (string * node)) :
  lookup name es = Some (Dir es') ->
  filenames (update name (fun child => unlink child loc) es) = filenames es.
Proof.
  induction es as [|[n c] es IH]; intros L; [reflexivity|].
  cbn [lookup update] in *. destruct (String.eqb_spec n name) as [->|N].
  - injection L as ->. rewrite <- unlink_is_dir. reflexivity.
  - unfold filenames in *. cbn [flat_map]. now rewrite IH.
Qed.

Lemma below_filter (loc suf : location) (l : list (string * location)) :
  map (below loc) (filter (elsewhere suf) l)
  = filter (elsewhere (loc ++ suf)) (map (below loc) l).
Proof.
  induction l as [|e l IH]; [reflexivity|]. cbn [filter map].
  assert (E : elsewhere (loc ++ suf) (below loc e) = elsewhere suf e)
    by (unfold elsewhere, below; cbn [snd]; now rewrite location_eqb_app).
  rewrite E. destruct (elsewhere suf e); cbn [map]; now rewrite IH.
Qed.

Lemma subwalks_update (top name r : string) (rs : location) (f : file)
    (es' : list (string * node)) (es : list (string * node)) :
  Forall (fun e => forall top suffix f,
            distinct_names (snd e) = true -> node_at (snd e) suffix = Some (File f) ->
            suffix <> [] ->
            files_from cwd top (unlink (snd e) suffix)
            = filter (elsewhere suffix) (files_from cwd top (snd e))) es ->
  NoDup (map fst es) ->
  (forall e, In e es -> distinct_names (snd e) = true) ->
  lookup name es = Some (Dir es') ->
  node_at (Dir es') (r :: rs) = Some (File f) ->
  flat_map (fun x => map (below [fst x]) (files_from cwd (join top (fst x)) (snd x)))
           (update name (fun child => unlink child (r :: rs)) es)
  = filter (elsewhere (name :: r :: rs))
      (flat_map (fun x => map (below [fst x]) (files_from cwd (join top (fst x)) (snd x)))
                es).
Proof.
  induction es as [|[n c] es IHes]; intros IH Hnd Hall L Hn; [discriminate|].
  inversion IH as [|? ? Hchild Hrest]; subst.
  cbn [map fst] in Hnd. inversion Hnd as [|? ? Hfresh Hes]; subst.
  cbn [lookup update] in *. destruct (String.eqb_spec n name) as [->|N].
  - injection L as ->. cbn [flat_map fst snd] in *. rewrite filter_app. f_equal.
    + rewrite (Hchild (join top name) (r :: rs) f);
        [ | apply (Hall (name, Dir es')); now left | exact Hn | discriminate ].
      apply (below_filter [name]).
    + symmetry. apply forallb_filter_id. apply forallb_forall. intros e He.
      apply files_from_shape in He. destruct He as [n' [r' [rs' [He Hin]]]].
      unfold elsewhere. rewrite He. rewrite location_eqb_neq; [reflexivity|].
      intros [= -> _ _]. contradiction.
  - cbn [flat_map fst snd]. rewrite filter_app. f_equal.
    + symmetry. apply forallb_filter_id. apply forallb_forall. intros e He.
      apply in_map_iff in He. destruct He as [e' [<- _]].
      unfold elsewhere, below. cbn [snd app].
      rewrite location_eqb_neq by congruence. reflexivity.
    + apply IHes; try assumption. intros e He. apply Hall. now right.
Qed.

(** The walk of a tree from which a file was unlinked lists what it listed
    before, less that file. *)
Lemma files_from_unlink (n : node) :
  forall top suffix f,
    distinct_names n = true -> node_at n suffix = Some (File f) -> suffix <> [] ->
    files_from cwd top (unlink n suffix) = filter (elsewhere suffix) (files_from cwd top n).
Proof.
  induction n as [g|es IH] using node_induction; intros top suffix f Hd Hn Hs.
  { destruct suffix; [contradiction | discriminate]. }
  destruct suffix as [|name rest]; [contradiction|]. clear Hs.
  cbn [node_at] in Hn. destruct (lookup name es) as [child|] eqn:L; [|discriminate].
  apply distinct_names_Dir in Hd. destruct Hd as [Hnames Hall].
  destruct rest as [|r rs].
  - cbn [node_at] in Hn. injection Hn as ->.
    cbn [unlink files_from]. rewrite filter_app, filenames_without.
    rewrite (subwalks_without top name f es Hnames L). f_equal.
    symmetry. apply forallb_filter_id. apply forallb_forall. intros e He.
    apply files_from_shape in He. destruct He as [n' [r [rs [He _]]]].
    unfold elsewhere. rewrite He. rewrite location_eqb_neq by congruence. reflexivity.
  - destruct child as [g|es']; [discriminate|].
    change (unlink (Dir es) (name :: r :: rs))
      with (Dir (update name (fun child => unlink child (r :: rs)) es)).
    cbn [files_from]. rewrite filter_app, (filenames_update name (r :: rs) es es' L). f_equal.
    + symmetry. apply forallb_filter_id. apply forallb_forall. intros e He.
      apply in_map_iff in He. destruct He as [n' [<- _]].
      unfold elsewhere. cbn [snd]. rewrite location_eqb_neq by congruence. reflexivity.
    + now apply (subwalks_update top name r rs f es').
Qed.
End FilesFrom.

Lemma listing_rm (t : filesystem) (dir p s : string) (lp : location) :
  distinct_names (Dir (root t)) = true ->
  target t p = Some lp -> In (s, lp) (listing t dir) ->
  listing (rm t p) dir = filter (elsewhere lp) (listing t dir).
Proof.
  intros Hd T Hin. unfold listing in *.
  destruct (resolve t dir) as [loc|e] eqn:R; [|destruct Hin].
  rewrite (proj2 (resolve_rm t p dir loc) R), cwd_rm.
  unfold find_node in *. destruct (node_at (Dir (root t)) loc) as [n|] eqn:N; [|destruct Hin].
  apply in_map_iff in Hin. destruct Hin as [e [He Hin]].
  unfold below in He. injection He as _ He. subst lp.
  assert (Hne : snd e <> []).
  { destruct n as [f|es]; [destruct Hin|]. cbn [files_from] in Hin.
    apply in_app_or in Hin. destruct Hin as [H|H].
    - apply in_map_iff in H. destruct H as [n' [<- _]]. discriminate.
    - apply files_from_shape in H. destruct H as [n' [r [rs [H _]]]]. now rewrite H. }
  pose proof (proj1 (target_spec t p _) T) as [_ [[f Hf] _]].
  rewrite node_at_app, N in Hf.
  rewrite rm_unfold, T. cbn [root]. rewrite unlink_is_dir.
  rewrite (node_at_unlink_prefix loc (root t) (snd e) f n Hne N Hf).
  rewrite (files_from_unlink (cwd t) n dir (snd e) f
             (distinct_names_node_at loc _ n Hd N) Hf Hne).
  apply below_filter.
Qed.

Lemma map_filter_ext {A B} (f : A -> B) (P : A -> bool) (Q : B -> bool) (l : list A) :
  (forall x, In x l -> P x = Q (f x)) ->
  map f (filter P l) = filter Q (map f l).
Proof.
  induction l as [|x l IH]; intros H; [reflexivity|]. cbn [filter map].
  rewrite <- (H x (or_introl eq_refl)).
  destruct (P x); cbn [map]; rewrite IH; auto; intros y Hy; apply H; now right.
Qed.

Lemma NoDup_map_filter {A B} (f : A -> B) (P : A -> bool) (l : list A) :
  NoDup (map f l) -> NoDup (map f (filter P l)).
Proof.
  induction l as [|x l IH]; intros H; [constructor|].
  cbn [map] in H. inversion H as [|? ? Hx Hl]; subst. cbn [filter].
  destruct (P x); [|now apply IH]. cbn [map]. constructor; [|now apply IH].
  intros Hin. apply Hx. apply in_map_iff in Hin. destruct Hin as [y [E Hy]].
  apply filter_In in Hy. apply in_map_iff. exists y. tauto.
Qed.

Lemma distinct_names_unlink (loc : location) :
  forall n, distinct_names n = true -> distinct_names (unlink n loc) = true.
Proof.
  induction loc as [|name rest IH]; intros n Hd; [now destruct n|].
  destruct n as [f|es]; [reflexivity|].
  apply distinct_names_Dir in Hd. destruct Hd as [Hnames Hall].
  destruct rest as [|r rs].
  - cbn [unlink]. apply distinct_names_Dir. split.
    + unfold without. now apply NoDup_map_filter.
    + intros e He. apply filter_In in He. now apply Hall.
  - change (unlink (Dir es) (name :: r :: rs))
      with (Dir (update name (fun child => unlink child (r :: rs)) es)).
    apply distinct_names_Dir.
    assert (Hfst : forall l, map fst (update name (fun child => unlink child (r :: rs)) l)
                             = map fst l).
    { induction l as [|[n c] l IHl]; [reflexivity|]. cbn [update].
      destruct (n =? name); cbn [map fst]; [reflexivity | now rewrite IHl]. }
    rewrite Hfst. split; [assumption|]. clear Hnames Hfst.
    induction es as [|[n c] es IHes]; intros e He; [destruct He|].
    cbn [update] in He. destruct (n =? name).
    + destruct He as [<-|He]; [|apply Hall; now right].
      cbn [snd]. apply IH. apply (Hall (n, c)). now left.
    + destruct He as [<-|He]; [apply Hall; now left|].
      apply IHes; [|assumption]. intros e' He'. apply Hall. now right.
Qed.

(** Removing a gathered file leaves a coherent tree, in which the scan
    gathers what it gathered before, less that file. *)
Lemma coherent_rm (t : filesystem) (dir p : string) :
  coherent t dir = true -> In p (get_file_paths t dir) ->
  coherent (rm t p) dir = true /\
  get_file_paths (rm t p) dir
  = if is_stuck t p then get_file_paths t dir
    else filter (fun q => negb (q =? p)) (get_file_paths t dir).
Proof.
  intros H Hp. destruct (coherent_leads t dir p H Hp) as [l [Hin [R [f F]]]].
  rewrite (is_stuck_view t p l R).
  destruct (existsb (location_eqb l) (stuck t)) eqn:S.
  { rewrite rm_stuck by (now rewrite (is_stuck_view t p l R)). now split. }
  assert (T : target t p = Some l) by (unfold target; now rewrite R, F, S).
  pose proof (proj1 (coherent_parts t dir) H) as [Hd [Hl Hnd]].
  pose proof (listing_rm t dir p p l Hd T Hin) as Hlist.
  split.
  - apply coherent_parts. rewrite Hlist. repeat split.
    + rewrite rm_unfold, T. cbn [root]. rewrite unlink_is_dir.
      now apply distinct_names_unlink.
    + intros e He. apply filter_In in He. destruct He as [He Hel].
      specialize (Hl e He). apply leads_to_spec in Hl. destruct Hl as [Re [g G]].
      apply leads_to_spec. split; [now apply resolve_rm|].
      rewrite file_at_rm, T. unfold elsewhere in Hel.
      apply negb_true_iff in Hel. rewrite Hel. now exists g.
    + now apply NoDup_map_filter.
  - rewrite <- !listing_paths, Hlist. apply map_filter_ext.
    intros [q lq] Hq. unfold elsewhere. cbn [fst snd]. f_equal.
    destruct (String.eqb_spec q p) as [->|N].
    + specialize (Hl (p, lq) Hq). cbn [fst snd] in Hl. apply leads_to_spec in Hl.
      destruct Hl as [Rq _]. apply location_eqb_eq. congruence.
    + apply location_eqb_neq. intros ->. apply N. exact (snd_inj _ q p l Hnd Hq Hin).
Qed.

Lemma is_stuck_rm (t : filesystem) (p q : string) : is_stuck (rm t p) q = is_stuck t q.
Proof.
  unfold is_stuck. rewrite stuck_rm.
  destruct (resolve t q) as [l|e] eqn:R.
  - now rewrite (proj2 (resolve_rm t p q l) R).
  - destruct (resolve (rm t p) q) as [l|e'] eqn:R'; [|reflexivity].
    apply resolve_rm in R'. congruence.
Qed.

Lemma filter_absent (p : string) (l : list string) :
  ~ In p l -> filter (fun q => negb (q =? p)) l = l.
Proof.
  induction l as [|x l IH]; intros Hn; [reflexivity|]. cbn [filter].
  destruct (String.eqb_spec x p) as [->|_]; [destruct Hn; now left|].
  cbn [negb]. rewrite IH; [reflexivity|]. intros H. apply Hn. now right.
Qed.

Lemma filter_removed (r : string) (rs l : list string) :
  filter (fun q => negb (existsb (String.eqb q) rs)) (filter (fun q => negb (q =? r)) l)
  = filter (fun q => negb (existsb (String.eqb q) (r :: rs))) l.
Proof.
  induction l as [|x l IHl]; [reflexivity|].
  cbn [filter existsb]. destruct (x =? r); cbn [negb orb filter]; [exact IHl|].
  destruct (existsb (String.eqb x) rs); cbn [negb]; now rewrite IHl.
Qed.

(** After the removal of gathered files that can be unlinked, the scan
    gathers the other paths, in the same order. *)
Lemma get_file_paths_removals (dir : string) (rs : list string) :
  forall t,
    coherent t dir = true ->
    (forall p, In p rs ->
       (In p (get_file_paths t dir) /\ is_stuck t p = false) \/
       (~ In p (get_file_paths t dir) /\ is_file t p = false)) ->
    get_file_paths (fold_left rm rs t) dir
    = filter (fun q => negb (existsb (String.eqb q) rs)) (get_file_paths t dir).
Proof.
  induction rs as [|r rs IH]; intros t Hc Hrs.
  - cbn [fold_left existsb negb]. symmetry. apply forallb_filter_id.
    now apply forallb_forall.
  - cbn [fold_left].
    assert (Hstep : coherent (rm t r) dir = true /\
                    get_file_paths (rm t r) dir
                    = filter (fun q => negb (q =? r)) (get_file_paths t dir)).
    { destruct (Hrs r (or_introl eq_refl)) as [[Hin Hs]|[Hn Hf]].
      - destruct (coherent_rm t dir r Hc Hin) as [H1 H2]. now rewrite Hs in H2.
      - rewrite (rm_not_a_file t r Hf). split; [assumption|].
        symmetry. now apply filter_absent. }
    destruct Hstep as [Hc' Hps]. rewrite IH; [| exact Hc' |].
    + rewrite Hps. apply filter_removed.
    + intros p Hp. rewrite Hps, is_stuck_rm.
      destruct (Hrs p (or_intror Hp)) as [[Hin Hs]|[Hn Hf]].
      * destruct (String.eqb_spec p r) as [->|N].
        -- right. split.
           ++ intros H. apply filter_In in H. destruct H as [_ H].
              now rewrite String.eqb_refl in H.
           ++ apply (is_file_removals [r] t r); [now left | assumption].
        -- left. split; [|assumption]. apply filter_In. split; [assumption|].
           apply negb_true_iff. now apply String.eqb_neq.
      * right. split.
        -- intros H. apply filter_In in H. now destruct H.
        -- destruct (is_file (rm t r) p) eqn:E; [|reflexivity].
           apply (is_file_removals_le [r] t p) in E. congruence.
Qed.

(** ** Well-formed file systems *)

Lemma split_sep_nonempty (s : string) : split_sep s <> [].
Proof.
  induction s as [|c s IH]; [discriminate|]. cbn [split_sep].
  destruct (Ascii.eqb c os_sep); [discriminate|].
  destruct (split_sep s); discriminate.
Qed.

Lemma split_sep_app_sep (a b : string) :
  split_sep (a ++ String os_sep b) = (split_sep a ++ split_sep b)%list.
Proof.
  induction a as [|c a IH]; cbn [append split_sep].
  - now rewrite Ascii.eqb_refl.
  - rewrite IH. destruct (Ascii.eqb c os_sep); [reflexivity|].
    pose proof (split_sep_nonempty a) as Hne.
    destruct (split_sep a) as [|comp comps]; [contradiction | reflexivity].
Qed.

Lemma split_sep_plain (name : string) : has_sep name = false -> split_sep name = [name].
Proof.
  induction name as [|c name IH]; [reflexivity|]. cbn [has_sep split_sep].
  intros H. apply orb_false_iff in H. destruct H as [H1 H2].
  now rewrite H1, IH.
Qed.

Lemma split_sep_free (s : string) : Forall (fun c => has_sep c = false) (split_sep s).
Proof.
  induction s as [|c s IH]; [repeat constructor|]. cbn [split_sep].
  destruct (Ascii.eqb c os_sep) eqn:E; [constructor; [reflexivity | assumption]|].
  destruct (split_sep s) as [|comp comps]; [repeat constructor; cbn; now rewrite E|].
  inversion IH; subst. constructor; [|assumption]. cbn [has_sep]. now rewrite E.
Qed.

Lemma split_sep_concat (l : list string) :
  l <> [] -> Forall (fun c => has_sep c = false) l ->
  split_sep (String.concat "/" l) = l.
Proof.
  induction l as [|x l IH]; intros Hne Hl; [contradiction|]. clear Hne.
  inversion Hl as [|? ? Hx Hrest]; subst.
  destruct l as [|y r]; [now apply split_sep_plain|].
  change (String.concat "/" (x :: y :: r))
    with (x ++ String os_sep (String.concat "/" (y :: r)))%string.
  rewrite split_sep_app_sep, (split_sep_plain x Hx), IH; [reflexivity | discriminate | assumption].
Qed.

Lemma plain_spec (name : string) :
  plain name = true <->
  name <> "" /\ name <> "." /\ name <> ".." /\ has_sep name = false.
Proof.
  unfold plain. rewrite !andb_true_iff, !negb_true_iff.
  rewrite !String.eqb_neq. tauto.
Qed.

Lemma step_plain (loc : location) (name : string) :
  plain name = true -> step loc name = (loc ++ [name])%list.
Proof.
  intros H. apply plain_spec in H. destruct H as [H1 [H2 [H3 _]]].
  unfold step. apply String.eqb_neq in H1, H2, H3. now rewrite H1, H2, H3.
Qed.

Lemma isabs_cons (c : ascii) (s : string) : isabs (String c s) = Ascii.eqb c os_sep.
Proof.
  unfold isabs. cbn [String.prefix]. destruct (ascii_dec "/" c) as [<-|N].
  - now destruct s.
  - symmetry. apply Ascii.eqb_neq. intros ->. now apply N.
Qed.

Lemma isabs_plain (name : string) : has_sep name = false -> isabs name = false.
Proof.
  destruct name as [|c name]; [reflexivity|]. rewrite isabs_cons. cbn [has_sep].
  intros H. apply orb_false_iff in H. tauto.
Qed.

Lemma isabs_app (a b : string) : a <> "" -> isabs (a ++ b) = isabs a.
Proof. destruct a as [|c a]; [contradiction|]. intros _. cbn [append]. now rewrite !isabs_cons. Qed.

Lemma endswith_sep_inv (s : string) :
  endswith_sep s = true -> exists s', s = (s' ++ String os_sep "")%string.
Proof.
  unfold endswith_sep. induction s as [|c s IH]; [discriminate|].
  cbn [last_char]. destruct s as [|d s].
  - intros H. apply Ascii.eqb_eq in H. subst c. now exists "".
  - intros H. destruct (IH H) as [s' ->]. now exists (String c s').
Qed.

Lemma last_char_cons (x : ascii) (s : string) :
  s <> "" -> last_char (String x s) = last_char s.
Proof. destruct s; [contradiction | reflexivity]. Qed.

Lemma last_char_app (a : string) (c : ascii) (b : string) :
  last_char (a ++ String c b) = last_char (String c b).
Proof.
  induction a as [|x a IH]; [reflexivity|]. cbn [append].
  rewrite last_char_cons by (destruct a; discriminate). exact IH.
Qed.

Lemma last_char_plain (name : string) :
  has_sep name = false -> name <> "" -> endswith_sep name = false.
Proof.
  unfold endswith_sep. induction name as [|c name IH]; [contradiction|].
  cbn [has_sep last_char]. intros H _. apply orb_false_iff in H. destruct H as [H1 H2].
  destruct name as [|d name]; [exact H1|]. apply IH; [assumption | discriminate].
Qed.

(** The walk along a path name. *)
Lemma walk_to_app (t : filesystem) (a b : list string) :
  forall loc, walk_to t loc (a ++ b)
              = match walk_to t loc a with
                | Ok l => walk_to t l b
                | Raise e => Raise e
                end.
Proof.
  induction a as [|comp a IH]; intros loc; [reflexivity|].
  cbn [app walk_to]. destruct (find_node t loc) as [[f|es]|]; try reflexivity. apply IH.
Qed.

Lemma walk_to_last (t : filesystem) (comps : list string) (comp : string) (loc l : location) :
  walk_to t loc (comps ++ [comp]) = Ok l ->
  exists l', walk_to t loc comps = Ok l' /\ dir_at (Dir (root t)) l' = true /\ l = step l' comp.
Proof.
  rewrite walk_to_app. destruct (walk_to t loc comps) as [l'|e]; [|discriminate].
  cbn [walk_to]. unfold find_node.
  destruct (node_at (Dir (root t)) l') as [[f|es]|] eqn:N; try discriminate.
  intros [= <-]. exists l'. repeat split. unfold dir_at. now rewrite N.
Qed.

Lemma walk_to_one (t : filesystem) (loc : location) (comp : string) :
  dir_at (Dir (root t)) loc = true -> walk_to t loc [comp] = Ok (step loc comp).
Proof.
  unfold dir_at, find_node. cbn [walk_to]. unfold find_node.
  now destruct (node_at (Dir (root t)) loc) as [[f|es]|].
Qed.

Lemma resolve_unfold (t : filesystem) (p : string) :
  p <> "" ->
  resolve t p = walk_to t (if isabs p then [] else components (cwd t)) (split_sep p).
Proof. intros H. unfold resolve. apply String.eqb_neq in H. now rewrite H. Qed.

Lemma resolve_nonempty (t : filesystem) (p : string) (l : location) :
  resolve t p = Ok l -> p <> "".
Proof. intros H ->. discriminate. Qed.

Lemma string_app_assoc (a b c : string) : ((a ++ b) ++ c = a ++ (b ++ c))%string.
Proof. induction a as [|x a IH]; [reflexivity|]. cbn [append]. now rewrite IH. Qed.

Lemma app_nonempty_l (a b : string) : a <> "" -> (a ++ b)%string <> "".
Proof. destruct a; [contradiction | discriminate]. Qed.

(** One more name after a path that leads to a directory. *)
Lemma resolve_join (t : filesystem) (top name : string) (loc : location) :
  resolve t top = Ok loc ->
  dir_at (Dir (root t)) loc = true ->
  plain name = true ->
  resolve t (join top name) = Ok (loc ++ [name])%list.
Proof.
  intros R Hd Hp. pose proof (resolve_nonempty t top loc R) as Hne.
  pose proof (proj1 (plain_spec name) Hp) as [_ [_ [_ Hsep]]].
  unfold join. rewrite (isabs_plain name Hsep).
  apply String.eqb_neq in Hne. rewrite Hne. cbn [orb]. apply String.eqb_neq in Hne.
  rewrite (resolve_unfold t top Hne) in R.
  destruct (endswith_sep top) eqn:E.
  - destruct (endswith_sep_inv top E) as [top' ->].
    rewrite string_app_assoc. cbn [append].
    rewrite resolve_unfold by (destruct top'; discriminate).
    assert (Habs : isabs (top' ++ String os_sep name) = isabs (top' ++ String os_sep "")).
    { destruct top' as [|c top']; cbn [append]; now rewrite !isabs_cons. }
    rewrite Habs. rewrite split_sep_app_sep in *. rewrite (split_sep_plain name Hsep).
    change (split_sep "") with [""] in R.
    apply walk_to_last in R. destruct R as [l' [R [Hd' ->]]].
    rewrite walk_to_app, R. rewrite (walk_to_one t l' name Hd').
    cbn [step String.eqb orb]. now rewrite (step_plain l' name Hp).
  - change (top ++ "/" ++ name)%string with (top ++ String os_sep name)%string.
    rewrite resolve_unfold by (now apply app_nonempty_l).
    rewrite (isabs_app top _ Hne), split_sep_app_sep, (split_sep_plain name Hsep).
    rewrite walk_to_app, R, (walk_to_one t loc name Hd). now rewrite (step_plain loc name Hp).
Qed.

Lemma walk_to_result (t : filesystem) (comps : list string) :
  forall loc l, walk_to t loc comps = Ok l -> l = fold_left step comps loc.
Proof.
  induction comps as [|comp comps IH]; intros loc l; cbn [walk_to fold_left].
  - now intros [= <-].
  - destruct (find_node t loc) as [[f|es]|]; try discriminate. apply IH.
Qed.

Lemma clear_way_nil (t : filesystem) : clear_way t [].
Proof. split; [constructor|]. intros i Hi. cbn in Hi. lia. Qed.

Lemma clear_way_step (t : filesystem) (loc : location) (comp : string) :
  has_sep comp = false ->
  dir_at (Dir (root t)) loc = true ->
  clear_way t loc -> clear_way t (step loc comp).
Proof.
  intros Hsep Hd [Hp Hw]. unfold step.
  destruct (String.eqb_spec comp "") as [->|N1]; [now split|].
  destruct (String.eqb_spec comp ".") as [->|N2]; [now split|]. cbn [orb].
  destruct (String.eqb_spec comp "..") as [->|N3].
  - rewrite removelast_firstn_len. split.
    + apply Forall_forall. intros x Hx. rewrite Forall_forall in Hp. apply Hp.
      rewrite <- (firstn_skipn (pred (List.length loc)) loc). apply in_or_app. now left.
    + intros i Hi. rewrite length_firstn in Hi. rewrite firstn_firstn.
      replace (Nat.min i (pred (List.length loc))) with i by lia. apply Hw. lia.
  - split.
    + apply Forall_app. split; [assumption|]. constructor; [|constructor].
      apply plain_spec. tauto.
    + intros i Hi. rewrite length_app in Hi. cbn [List.length] in Hi.
      rewrite firstn_app.
      destruct (Nat.eq_dec i (List.length loc)) as [->|Hne].
      * rewrite firstn_all, Nat.sub_diag. cbn [firstn]. now rewrite app_nil_r.
      * replace (i - List.length loc) with 0 by lia. cbn [firstn]. rewrite app_nil_r.
        apply Hw. lia.
Qed.

(** A walk that arrives has come a clear way. *)
Lemma walk_clear (t : filesystem) (comps : list string) :
  forall loc l,
    Forall (fun c => has_sep c = false) comps ->
    clear_way t loc -> walk_to t loc comps = Ok l -> clear_way t l.
Proof.
  induction comps as [|comp comps IH]; intros loc l Hc Hw; cbn [walk_to].
  - now intros [= <-].
  - inversion Hc as [|? ? Hcomp Hrest]; subst.
    destruct (find_node t loc) as [[f|es]|] eqn:N; try discriminate.
    apply IH; [assumption|]. apply clear_way_step; try assumption.
    unfold dir_at. unfold find_node in N. now rewrite N.
Qed.

(** Along a clear way the walk arrives. *)
Lemma walk_plain (t : filesystem) (l : location) :
  forall loc,
    Forall (fun name => plain name = true) l ->
    (forall i, i < List.length l -> dir_at (Dir (root t)) (loc ++ firstn i l) = true) ->
    walk_to t loc l = Ok (loc ++ l).
Proof.
  induction l as [|x r IH]; intros loc Hp Hd; [now rewrite app_nil_r|].
  inversion Hp as [|? ? Hx Hr]; subst. cbn [walk_to].
  pose proof (Hd 0 ltac:(cbn; lia)) as H0. cbn [firstn] in H0. rewrite app_nil_r in H0.
  unfold dir_at in H0. unfold find_node.
  destruct (node_at (Dir (root t)) loc) as [[f|es]|]; try discriminate.
  rewrite (step_plain loc x Hx), IH; [now rewrite <- app_assoc | assumption |].
  intros i Hi. rewrite <- app_assoc. apply (Hd (S i)). cbn [List.length]. lia.
Qed.

Lemma walk_clear_way (t : filesystem) (l : location) :
  clear_way t l -> dir_at (Dir (root t)) [] = true -> walk_to t [] l = Ok l.
Proof.
  intros [Hp Hw] _. apply (walk_plain t l []); assumption.
Qed.

Lemma norm_step_step (k : nat) (acc : list string) (comp : string) :
  k <> 0 -> Forall (fun c => c <> "..") acc ->
  rev (norm_step k acc comp) = step (rev acc) comp /\
  Forall (fun c => c <> "..") (norm_step k acc comp).
Proof.
  intros Hk Hacc. unfold norm_step, step.
  destruct ((comp =? "") || (comp =? ".")); [now split|].
  destruct (String.eqb_spec comp "..") as [->|N]; cbn [negb orb].
  - apply Nat.eqb_neq in Hk. rewrite Hk. cbn [andb orb].
    destruct acc as [|a p]; [now split|].
    inversion Hacc as [|? ? Ha Hp]; subst. apply String.eqb_neq in Ha. rewrite Ha.
    cbn [rev]. rewrite removelast_last. now split.
  - split; [reflexivity|]. now constructor.
Qed.

Lemma norm_fold (k : nat) (comps : list string) :
  k <> 0 ->
  forall acc, Forall (fun c => c <> "..") acc ->
    rev (fold_left (norm_step k) comps acc) = fold_left step comps (rev acc).
Proof.
  intros Hk. induction comps as [|comp comps IH]; intros acc Hacc; [reflexivity|].
  cbn [fold_left]. destruct (norm_step_step k acc comp Hk Hacc) as [E H].
  now rewrite IH, E.
Qed.

Lemma dir_at_prefix (n : node) (a b : location) :
  dir_at n (a ++ b) = true -> dir_at n a = true.
Proof.
  unfold dir_at. rewrite node_at_app.
  destruct (node_at n a) as [[f|es]|]; try discriminate; [|reflexivity].
  now destruct b.
Qed.

Lemma clear_way_dir (t : filesystem) (loc : location) :
  Forall (fun name => plain name = true) loc ->
  dir_at (Dir (root t)) loc = true -> clear_way t loc.
Proof.
  intros Hp Hd. split; [assumption|]. intros i _.
  apply (dir_at_prefix _ (firstn i loc) (skipn i loc)). now rewrite firstn_skipn.
Qed.

Lemma plain_free (l : location) :
  Forall (fun name => plain name = true) l -> Forall (fun c => has_sep c = false) l.
Proof.
  apply Forall_impl. intros name H. apply plain_spec in H. tauto.
Qed.

(** Normalising an absolute path name that leads somewhere gives a path
    name that leads to the same place. *)
Lemma resolve_normpath (t : filesystem) (p : string) (l : location) :
  isabs p = true -> resolve t p = Ok l -> resolve t (normpath p) = Ok l.
Proof.
  intros Habs R. pose proof (resolve_nonempty t p l R) as Hne.
  rewrite (resolve_unfold t p Hne), Habs in R.
  pose proof (walk_to_result t _ _ _ R) as Hl.
  pose proof (walk_clear t _ _ _ (split_sep_free p) (clear_way_nil t) R) as Hw.
  assert (Hroot : dir_at (Dir (root t)) [] = true) by reflexivity.
  unfold normpath. apply String.eqb_neq in Hne. rewrite Hne.
  change (String.prefix "/" p) with (isabs p). rewrite Habs. cbv zeta.
  set (k := if String.prefix "//" p && negb (String.prefix "///" p) then 2 else 1).
  assert (Hk : k <> 0) by (subst k; destruct (_ && _); discriminate).
  rewrite (norm_fold k (split_sep p) Hk [] (Forall_nil _)). cbn [rev]. rewrite <- Hl.
  assert (Hx : split_sep (String.concat "/" l) = match l with [] => [""] | _ :: _ => l end).
  { destruct l as [|x r] eqn:El; [reflexivity|]. rewrite <- El in *.
    apply split_sep_concat; [now rewrite El | apply plain_free, Hw]. }
  assert (Hgo : walk_to t [] (split_sep (String.concat "/" l)) = Ok l).
  { rewrite Hx. destruct l as [|x r] eqn:El; [reflexivity|]. rewrite <- El in *.
    now apply walk_clear_way. }
  assert (Hk' : k = 1 \/ k = 2) by (subst k; destruct (_ && _); auto).
  destruct Hk' as [-> | ->]; cbn [repeat app String.concat append].
  - change (String "/" (String.concat "/" l) =? "") with false. cbv iota.
    unfold resolve. change (String "/" (String.concat "/" l) =? "") with false. cbv iota.
    rewrite isabs_cons, Ascii.eqb_refl. cbn [split_sep]. rewrite Ascii.eqb_refl.
    cbn [walk_to find_node node_at step String.eqb orb]. exact Hgo.
  - change (String "/" (String "/" (String.concat "/" l)) =? "") with false. cbv iota.
    unfold resolve.
    change (String "/" (String "/" (String.concat "/" l)) =? "") with false. cbv iota.
    rewrite isabs_cons, Ascii.eqb_refl. cbn [split_sep]. rewrite !Ascii.eqb_refl.
    cbn [walk_to find_node node_at step String.eqb orb]. exact Hgo.
Qed.

Lemma concat_plain_nonempty (l : location) :
  l <> [] -> Forall (fun name => plain name = true) l ->
  String.concat "/" l <> "" /\ endswith_sep (String.concat "/" l) = false.
Proof.
  induction l as [|x r IH]; intros Hne Hp; [contradiction|]. clear Hne.
  inversion Hp as [|? ? Hx Hr]; subst. apply plain_spec in Hx.
  destruct Hx as [Hx [_ [_ Hsep]]].
  destruct r as [|y r]; [split; [assumption | now apply last_char_plain]|].
  destruct IH as [IH1 IH2]; [discriminate | assumption|].
  change (String.concat "/" (x :: y :: r))
    with (x ++ String os_sep (String.concat "/" (y :: r)))%string.
  split; [now apply app_nonempty_l|].
  unfold endswith_sep in *. rewrite last_char_app.
  now rewrite last_char_cons.
Qed.

Section WellFormed.
Variable t : filesystem.
Hypothesis Hwf : well_formed t = true.

Lemma well_formed_parts :
  distinct_names (Dir (root t)) = true /\
  plain_names (Dir (root t)) = true /\
  cwd t = path_of (components (cwd t)) /\
  Forall (fun name => plain name = true) (components (cwd t)) /\
  dir_at (Dir (root t)) (components (cwd t)) = true.
Proof.
  unfold well_formed in Hwf. rewrite !andb_true_iff in Hwf.
  destruct Hwf as [[[[H1 H2] H3] H4] H5].
  apply String.eqb_eq in H3. rewrite forallb_forall in H4.
  repeat split; try assumption. now apply Forall_forall.
Qed.

(** The working directory leads to where the process is. *)
Lemma walk_cwd : walk_to t [] (split_sep (cwd t)) = Ok (components (cwd t)).
Proof.
  destruct well_formed_parts as [_ [_ [Hc [Hp Hd]]]].
  set (lc := components (cwd t)) in *. rewrite Hc. unfold path_of.
  change ("/" ++ String.concat "/" lc)%string with (String os_sep (String.concat "/" lc)).
  cbn [split_sep]. rewrite Ascii.eqb_refl.
  cbn [walk_to find_node node_at step String.eqb orb].
  destruct lc as [|x r] eqn:E; [reflexivity|]. rewrite <- E in *.
  rewrite split_sep_concat; [| now rewrite E | now apply plain_free].
  apply walk_clear_way; [now apply clear_way_dir | reflexivity].
Qed.

(** Making a path name absolute does not change where it leads. *)
Lemma resolve_abspath (p : string) (l : location) :
  resolve t p = Ok l -> resolve t (abspath (cwd t) p) = Ok l.
Proof.
  intros R. unfold abspath. destruct (isabs p) eqn:Habs.
  { now apply resolve_normpath. }
  pose proof (resolve_nonempty t p l R) as Hne.
  destruct well_formed_parts as [_ [_ [Hc [Hp Hd]]]].
  assert (Hcwd : cwd t <> "") by (rewrite Hc; discriminate).
  assert (Hjoin : isabs (join (cwd t) p) = true /\ resolve t (join (cwd t) p) = Ok l).
  { unfold join. rewrite Habs. apply String.eqb_neq in Hcwd. rewrite Hcwd. cbn [orb].
    apply String.eqb_neq in Hcwd.
    rewrite (resolve_unfold t p Hne), Habs in R.
    assert (Hisabs : isabs (cwd t) = true).
    { rewrite Hc. unfold path_of. cbn [append]. rewrite isabs_cons. apply Ascii.eqb_refl. }
    destruct (endswith_sep (cwd t)) eqn:E.
    - destruct (endswith_sep_inv _ E) as [c' Hc'].
      split; [now rewrite isabs_app|].
      rewrite resolve_unfold by (now apply app_nonempty_l).
      rewrite (isabs_app _ _ Hcwd), Hisabs.
      pose proof walk_cwd as Hw. rewrite Hc' in *.
      rewrite split_sep_app_sep in Hw. change (split_sep "") with [""] in Hw.
      apply walk_to_last in Hw. destruct Hw as [l' [Hw [Hd' Hl']]].
      cbn [step String.eqb orb] in Hl'. subst l'.
      rewrite string_app_assoc. cbn [append].
      rewrite split_sep_app_sep, walk_to_app, Hw. exact R.
    - change (cwd t ++ "/" ++ p)%string with (cwd t ++ String os_sep p)%string.
      split; [now rewrite isabs_app|].
      rewrite resolve_unfold by (now apply app_nonempty_l).
      rewrite (isabs_app _ _ Hcwd), Hisabs, split_sep_app_sep, walk_to_app, walk_cwd.
      exact R. }
  destruct Hjoin as [H1 H2]. now apply resolve_normpath.
Qed.

Lemma plain_names_Dir (es : list (string * node)) :
  plain_names (Dir es) = true <->
  forall e, In e es -> plain (fst e) = true /\ plain_names (snd e) = true.
Proof.
  cbn [plain_names]. rewrite forallb_forall. split; intros H e He.
  - specialize (H e He). now apply andb_true_iff in H.
  - apply andb_true_iff. now apply H.
Qed.

Lemma lookup_of_In (name : string) (child : node) (es : list (string * node)) :
  NoDup (map fst es) -> In (name, child) es -> lookup name es = Some child.
Proof.
  induction es as [|[n c] es IH]; intros Hnd Hin; [destruct Hin|].
  cbn [map fst] in Hnd. inversion Hnd as [|? ? Hn Hes]; subst. cbn [lookup].
  destruct Hin as [[= -> ->]|Hin]; [now rewrite String.eqb_refl|].
  destruct (String.eqb_spec n name) as [->|_]; [|now apply IH].
  destruct Hn. apply in_map_iff. now exists (name, child).
Qed.

(** In a well-formed tree every listed file is led to by the path name
    gathered for it. *)
Lemma files_from_leads (n : node) :
  forall top loc,
    resolve t top = Ok loc ->
    node_at (Dir (root t)) loc = Some n ->
    distinct_names n = true -> plain_names n = true ->
    forall e, In e (files_from (cwd t) top n) ->
      leads_to t (fst e) (loc ++ snd e) = true.
Proof.
  induction n as [f|es IH] using node_induction; intros top loc R N Hd Hp e He;
    [destruct He|].
  apply distinct_names_Dir in Hd. destruct Hd as [Hnames Hall].
  pose proof (proj1 (plain_names_Dir es) Hp) as Hplain.
  assert (Hdir : dir_at (Dir (root t)) loc = true) by (unfold dir_at; now rewrite N).
  cbn [files_from] in He. apply in_app_or in He. destruct He as [He|He].
  - apply in_map_iff in He. destruct He as [name [<- Hname]]. cbn [fst snd].
    unfold filenames in Hname. apply in_flat_map in Hname.
    destruct Hname as [[n' child] [Hin Hname]].
    destruct child as [f|sub]; [|destruct Hname]. destruct Hname as [->|[]].
    apply leads_to_spec. split.
    + apply resolve_abspath. apply resolve_join; try assumption.
      exact (proj1 (Hplain _ Hin)).
    + exists f. unfold file_at. rewrite node_at_app, N. cbn [node_at].
      now rewrite (lookup_of_In name (File f) es Hnames Hin).
  - apply in_flat_map in He. destruct He as [[name child] [Hin He]].
    cbn [fst snd] in He. apply in_map_iff in He. destruct He as [e' [<- He']].
    rewrite Forall_forall in IH. specialize (IH (name, child) Hin). cbn [snd] in IH.
    unfold below. cbn [fst snd app].
    replace (loc ++ name :: snd e') with ((loc ++ [name]) ++ snd e')
      by (now rewrite <- app_assoc).
    apply (IH (join top name) (loc ++ [name])); try assumption.
    + apply resolve_join; try assumption. exact (proj1 (Hplain _ Hin)).
    + rewrite node_at_app, N. cbn [node_at].
      now rewrite (lookup_of_In name child es Hnames Hin).
    + exact (Hall _ Hin).
    + exact (proj2 (Hplain _ Hin)).
Qed.
End WellFormed.

(** No file is listed twice by the walk of a tree whose directories list
    every name once. *)
Lemma files_from_NoDup (cwd : string) (n : node) :
  forall top, distinct_names n = true -> NoDup (map snd (files_from cwd top n)).
Proof.
  induction n as [f|es IH] using node_induction; intros top Hd; [constructor|].
  apply distinct_names_Dir in Hd. destruct Hd as [Hnames Hall].
  cbn [files_from]. rewrite map_app. apply NoDup_app; [| |].
  - rewrite map_map. cbn [snd]. clear IH Hall.
    induction es as [|[name child] es IHes]; [constructor|].
    cbn [map fst] in Hnames. inversion Hnames as [|? ? Hn Hes]; subst.
    unfold filenames in *. cbn [flat_map]. destruct child as [f|sub]; [|now apply IHes].
    cbn [app map]. constructor; [|now apply IHes].
    intros Hin. apply in_map_iff in Hin. destruct Hin as [n' [[= ->] Hin]].
    apply Hn. apply in_flat_map in Hin. destruct Hin as [[n'' c] [Hin Hc]].
    destruct c; [|destruct Hc]. destruct Hc as [->|[]].
    apply in_map_iff. now exists (name, File f0).
  - induction es as [|[name child] es IHes]; [constructor|].
    cbn [map fst] in Hnames. inversion Hnames as [|? ? Hn Hes]; subst.
    inversion IH as [|? ? Hchild Hrest]; subst. cbn [snd] in Hchild.
    cbn [flat_map fst snd]. rewrite map_app. apply NoDup_app.
    + rewrite map_map. cbn [below snd app].
      apply (NoDup_map_inv (fun l => match l with [] => [] | _ :: r => r end)).
      rewrite map_map. cbn. rewrite <- map_map with (f := snd) (g := fun l => l).
      rewrite map_id. apply Hchild. apply (Hall (name, child)). now left.
    + apply IHes; try assumption. intros e He. apply Hall. now right.
    + intros l H1 H2. apply in_map_iff in H1. destruct H1 as [e1 [<- H1]].
      apply in_map_iff in H1. destruct H1 as [e1' [<- _]].
      apply in_map_iff in H2. destruct H2 as [e2 [E2 H2]].
      apply files_from_shape in H2. destruct H2 as [n2 [r2 [rs2 [H2 Hin2]]]].
      rewrite H2 in E2. cbn [below snd app] in E2. injection E2 as -> _.
      contradiction.
  - intros l H1 H2. apply in_map_iff in H1. destruct H1 as [e1 [<- H1]].
    apply in_map_iff in H1. destruct H1 as [n1 [<- _]]. cbn [snd] in H2.
    apply in_map_iff in H2. destruct H2 as [e2 [E2 H2]].
    apply files_from_shape in H2. destruct H2 as [n2 [r2 [rs2 [H2 _]]]].
    rewrite H2 in E2. discriminate.
Qed.

Lemma plain_names_node_at (loc : location) :
  forall n m, plain_names n = true -> node_at n loc = Some m -> plain_names m = true.
Proof.
  induction loc as [|name rest IH]; intros n m Hp Hn.
  - cbn [node_at] in Hn. now injection Hn as <-.
  - cbn [node_at] in Hn. destruct n as [f|es]; [discriminate|].
    destruct (lookup name es) as [child|] eqn:L; [|discriminate].
    apply (IH child m); [|assumption].
    exact (proj2 (proj1 (plain_names_Dir es) Hp _ (lookup_In _ _ _ L))).
Qed.

(** ** Invariants of the hashing loop *)

Lemma wf_module_init : wf_globals module_init.
Proof. split; [reflexivity | constructor]. Qed.

Lemma dict_get_None {V} (d : list (string * V)) (k : string) :
  dict_get d k = None -> ~ In k (map fst d).
Proof.
  induction d as [|[k' v'] d IH]; simpl; [tauto|].
  destruct (String.eqb_spec k' k) as [->|N]; [discriminate|].
  intros H [E|Hin]; [congruence | now apply IH].
Qed.

Lemma wf_in_range (g : globals) (h : string) (a : nat) :
  wf_globals g -> In (h, a) (hash_to_files g) -> a < List.length (store g).
Proof.
  intros [Hseq _] Hin.
  assert (Ha : In a (map snd (hash_to_files g))) by (apply in_map_iff; now exists (h, a)).
  rewrite Hseq in Ha. apply in_seq in Ha. lia.
Qed.

Lemma wf_key_address (g : globals) (h : string) (a b : nat) :
  wf_globals g -> In (h, a) (hash_to_files g) -> In (h, b) (hash_to_files g) -> a = b.
Proof.
  intros [_ Hk]. induction (hash_to_files g) as [|[k c] d IH]; [intros []|].
  cbn [map fst] in Hk. inversion Hk as [|? ? Hnot Hd]; subst.
  intros [E1|H1] [E2|H2].
  - congruence.
  - inversion E1; subst. exfalso. apply Hnot. apply in_map_iff. now exists (h, b).
  - inversion E2; subst. exfalso. apply Hnot. apply in_map_iff. now exists (h, a).
  - now apply IH.
Qed.

Lemma wf_index_append (g : globals) (h p : string) :
  wf_globals g -> wf_globals (index_append g h p).
Proof.
  intros [Hseq Hk]. unfold index_append, wf_globals.
  destruct (dict_get (hash_to_files g) h) as [a|] eqn:G; cbn [store hash_to_files].
  - now rewrite length_assign.
  - rewrite !map_app, length_app, Hseq. cbn [map fst snd List.length].
    rewrite Nat.add_1_r, seq_S. split; [reflexivity|].
    apply NoDup_app; [assumption | repeat constructor; intros [] |].
    intros k Hin [<-|[]]. now apply (dict_get_None _ _ G).
Qed.

Lemma scan_from_wf (v : script) (t : filesystem) (ps : list string) :
  forall g, wf_globals g -> wf_globals (snd (scan_from v t ps g)).
Proof.
  induction ps as [|p ps IH]; intros g Hwf.
  - now rewrite scan_from_nil.
  - rewrite scan_from_cons. destruct (md5_of_file t p) as [h|e].
    + apply IH. now apply (wf_index_append (record_hash g p h)).
    + destruct v; [exact Hwf|]. destruct (is_OSError e); [now apply IH | exact Hwf].
Qed.

Lemma index_append_has (g : globals) (h p : string) :
  wf_globals g ->
  exists a, In (h, a) (hash_to_files (index_append g h p)) /\
            In p (deref (store (index_append g h p)) a).
Proof.
  intros Hwf. unfold index_append.
  destruct (dict_get (hash_to_files g) h) as [a|] eqn:G; cbn [store hash_to_files].
  - apply dict_get_In in G. exists a. split; [assumption|].
    rewrite deref_assign_same by (now apply (wf_in_range g h)).
    apply in_or_app. right. now left.
  - exists (List.length (store g)). split; [apply in_or_app; right; now left|].
    rewrite deref_app_new. now left.
Qed.

Lemma index_append_persist (g : globals) (h p k q : string) (b : nat) :
  wf_globals g ->
  In (k, b) (hash_to_files g) -> In q (deref (store g) b) ->
  In (k, b) (hash_to_files (index_append g h p)) /\
  In q (deref (store (index_append g h p)) b).
Proof.
  intros Hwf Hb Hq. unfold index_append.
  destruct (dict_get (hash_to_files g) h) as [a|] eqn:G; cbn [store hash_to_files].
  - split; [assumption|]. rewrite deref_assign.
    destruct ((b =? a)%nat && _) eqn:C; [|assumption].
    apply andb_prop in C. destruct C as [C _]. apply Nat.eqb_eq in C. subst b.
    apply in_or_app. now left.
  - split; [apply in_or_app; now left|].
    rewrite deref_app_old; [assumption | now apply (wf_in_range g k)].
Qed.

Lemma scan_persist (v : script) (t : filesystem) (ps : list string) (k q : string) (b : nat) :
  forall g, wf_globals g ->
    In (k, b) (hash_to_files g) -> In q (deref (store g) b) ->
    In (k, b) (hash_to_files (snd (scan_from v t ps g))) /\
    In q (deref (store (snd (scan_from v t ps g))) b).
Proof.
  induction ps as [|p ps IH]; intros g Hwf Hb Hq.
  - rewrite scan_from_nil. now split.
  - rewrite scan_from_cons. destruct (md5_of_file t p) as [h|e].
    + destruct (index_append_persist (record_hash g p h) h p k q b Hwf Hb Hq) as [H1 H2].
      apply IH; [now apply (wf_index_append (record_hash g p h)) | assumption..].
    + destruct v; [now split|]. destruct (is_OSError e); [now apply IH | now split].
Qed.

(** Every path that was hashed sits in the list of its fingerprint. *)
Lemma scan_complete (v : script) (t : filesystem) (ps : list string) (q h : string) :
  forall g, wf_globals g ->
    fst (scan_from v t ps g) = Ok tt ->
    In q ps -> md5_of_file t q = Ok h ->
    exists a, In (h, a) (hash_to_files (snd (scan_from v t ps g))) /\
              In q (deref (store (snd (scan_from v t ps g))) a).
Proof.
  induction ps as [|p ps IH]; intros g Hwf Hok Hin Hq; [destruct Hin|].
  rewrite scan_from_cons in *.
  destruct (md5_of_file t p) as [hp|e] eqn:E.
  - destruct (in_dec string_dec q ps) as [Hps|Hps].
    + apply IH; try assumption. now apply (wf_index_append (record_hash g p hp)).
    + destruct Hin as [->|Hin]; [|contradiction].
      rewrite E in Hq. injection Hq as ->.
      destruct (index_append_has (record_hash g q h) h q Hwf) as [a [Ha Hqa]].
      exists a. apply scan_persist; try assumption.
      now apply (wf_index_append (record_hash g q h)).
  - destruct Hin as [->|Hin]; [congruence|].
    destruct v; [discriminate|].
    destruct (is_OSError e); [now apply IH | discriminate].
Qed.

Lemma concat_assign_append (st : list (list string)) (a : nat) (p : string) :
  a < List.length st ->
  Permutation (List.concat (assign st a (deref st a ++ [p]))) (p :: List.concat st).
Proof.
  unfold deref. revert a. induction st as [|l st IH]; intros a Ha; [simpl in Ha; lia|].
  destruct a as [|a]; cbn [assign nth List.concat].
  - rewrite <- app_assoc. cbn [app].
    apply Permutation_sym, Permutation_middle.
  - rewrite IH by (simpl in Ha; lia).
    apply Permutation_sym, Permutation_middle.
Qed.

Lemma index_append_store (g : globals) (h p : string) :
  wf_globals g ->
  Permutation (List.concat (store (index_append g h p))) (p :: List.concat (store g)).
Proof.
  intros Hwf. unfold index_append.
  destruct (dict_get (hash_to_files g) h) as [a|] eqn:G; cbn [store].
  - apply concat_assign_append. apply (wf_in_range g h); [assumption|].
    now apply dict_get_In.
  - rewrite concat_app. cbn [List.concat]. rewrite app_nil_r.
    apply Permutation_sym, Permutation_cons_append.
Qed.

(** The lists of the store hold the readable paths of the scan, each once
    more than before. *)
Lemma scan_store (v : script) (t : filesystem) (ps : list string) :
  forall g, wf_globals g ->
    fst (scan_from v t ps g) = Ok tt ->
    Permutation (List.concat (store (snd (scan_from v t ps g))))
                (filter (readable t) ps ++ List.concat (store g)).
Proof.
  induction ps as [|p ps IH]; intros g Hwf Hok.
  - now rewrite scan_from_nil.
  - rewrite scan_from_cons in *. cbn [filter].
    destruct (md5_of_file t p) as [h|e] eqn:E.
    + rewrite (md5_readable t p h E).
      rewrite IH; [|now apply (wf_index_append (record_hash g p h)) | assumption].
      rewrite (index_append_store (record_hash g p h) h p Hwf).
      cbn [store record_hash app]. apply Permutation_sym, Permutation_middle.
    + assert (R : readable t p = false).
      { apply md5_of_file_raise in E. unfold readable. now rewrite E. }
      rewrite R. destruct v; [discriminate|].
      destruct (is_OSError e); [now apply IH | discriminate].
Qed.

Lemma nodup_app_disjoint {A} (l l' : list A) (x : A) :
  NoDup (l ++ l') -> In x l -> In x l' -> False.
Proof.
  induction l as [|y l IH]; intros Hn Hl Hl'; [destruct Hl|].
  cbn [app] in Hn. inversion Hn as [|? ? Hnot Hrest]; subst.
  destruct Hl as [->|Hl]; [|now apply IH].
  apply Hnot, in_or_app. now right.
Qed.

Lemma nodup_concat_deref (st : list (list string)) (a : nat) :
  NoDup (List.concat st) -> NoDup (deref st a).
Proof.
  unfold deref. revert a. induction st as [|l st IH]; intros a Hn.
  - destruct a; constructor.
  - cbn [List.concat] in Hn. destruct a as [|a]; cbn [nth].
    + now apply NoDup_app_remove_r in Hn.
    + apply IH. now apply NoDup_app_remove_l in Hn.
Qed.

Lemma in_deref_concat (st : list (list string)) (a : nat) (x : string) :
  In x (deref st a) -> In x (List.concat st).
Proof.
  unfold deref. revert a. induction st as [|l st IH]; intros a Hx.
  - now destruct a.
  - cbn [List.concat]. apply in_or_app. destruct a as [|a]; cbn [nth] in Hx.
    + now left.
    + right. now apply (IH a).
Qed.

(** Two list objects of a store without repetition share no path. *)
Lemma nodup_concat_disjoint (st : list (list string)) (x : string) :
  NoDup (List.concat st) ->
  forall a b, a <> b -> In x (deref st a) -> In x (deref st b) -> False.
Proof.
  induction st as [|l st IH]; intros Hn a b Hab Ha Hb.
  - unfold deref in Ha. now destruct a.
  - cbn [List.concat] in Hn.
    destruct a as [|a], b as [|b]; unfold deref in Ha, Hb; cbn [nth] in Ha, Hb.
    + congruence.
    + apply (nodup_app_disjoint _ _ x Hn Ha). now apply (in_deref_concat st b).
    + apply (nodup_app_disjoint _ _ x Hn Hb). now apply (in_deref_concat st a).
    + apply (IH (NoDup_app_remove_l _ _ Hn) a b); [congruence | assumption..].
Qed.

Lemma in_skipn {A} (n : nat) (l : list A) (x : A) : In x (skipn n l) -> In x l.
Proof.
  revert l. induction n as [|n IH]; intros l H; [exact H|].
  destruct l as [|y l]; [exact H|]. right. now apply IH.
Qed.

Lemma two_members {A} (l : list A) (x y : A) :
  In x l -> In y l -> x <> y -> 1 < List.length l.
Proof.
  destruct l as [|a [|b l]]; simpl; intros Hx Hy Hne; try lia; try tauto.
  destruct Hx as [->|[]], Hy as [->|[]]. congruence.
Qed.

Lemma two_in_filter {A} (f : A -> bool) (l : list A) :
  NoDup l -> 2 <= List.length (filter f l) ->
  exists x y, x <> y /\ In x l /\ In y l /\ f x = true /\ f y = true.
Proof.
  intros Hn Hlen. pose proof (NoDup_filter f Hn) as Hf.
  destruct (filter f l) as [|x [|y rest]] eqn:E; simpl in Hlen; try lia.
  assert (Hx : In x (filter f l)) by (rewrite E; now left).
  assert (Hy : In y (filter f l)) by (rewrite E; right; now left).
  apply filter_In in Hx, Hy. exists x, y. repeat split; try tauto.
  intros ->. inversion Hf as [|? ? Hnot _]; subst. apply Hnot. now left.
Qed.

Lemma empty_file_digest (t : filesystem) (p : string) :
  is_empty_file t p = true -> md5_of_file t p = Ok empty_digest.
Proof.
  unfold is_empty_file. destruct (open_read t p) as [[|b data]|e] eqn:E; try discriminate.
  intros _. now apply md5_of_file_content.
Qed.

Lemma clean_up_of_body (v : script) (dir : string) (show delete : bool) (w w' : world) :
  clean_up_body v dir show delete w = (Ok tt, w') ->
  fst (clean_up v dir show delete w) = Ok tt /\
  fs (snd (clean_up v dir show delete w)) = fs w'.
Proof.
  intros H. destruct v; cbn [clean_up].
  - rewrite H. now split.
  - unfold time_it, bind. rewrite H. now split.
Qed.

Lemma in_doomed (st : list (list string)) (a : nat) (p : string) :
  In p (doomed st a) -> In p (deref st a).
Proof.
  unfold doomed. intros H. apply in_skipn in H.
  exact (Permutation_in p (sort_by_perm depth _) H).
Qed.

Lemma doomed_were_scanned (v : script) (t : filesystem) (ps : list string) (p : string) :
  In p (flat_map (fun '(_, a) => doomed (store (snd (scan_from v t ps module_init))) a)
                 (collisions_of (snd (scan_from v t ps module_init)))) ->
  In p ps /\ readable t p = true.
Proof.
  intros H. apply in_flat_map in H. destruct H as [[k a] [Ha Hp]].
  apply in_doomed in Hp. unfold collisions_of in Ha. apply filter_In in Ha.
  destruct Ha as [Ha _].
  destruct (scan_members v t ps module_init k _ p
              (proj2 (in_map_iff _ _ _) (ex_intro _ (k, a) (conj eq_refl Ha))) Hp)
    as [H|[k0 [l0 [[] _]]]].
  exact H.
Qed.

Lemma clean_up_of_body_removals (v : script) (dir : string) (show delete : bool)
    (w w' : world) :
  clean_up_body v dir show delete w = (Ok tt, w') ->
  removals (console (snd (clean_up v dir show delete w))) = removals (console w').
Proof.
  intros H. destruct v; cbn [clean_up].
  - now rewrite H.
  - unfold time_it, bind. rewrite H. cbn [snd ret emit console].
    rewrite removals_app. cbn. apply app_nil_r.
Qed.

(** ** Empty files (C10) *)

(* The digest is a constant here: no step below depends on its digits. *)
#[local] Opaque empty_digest.


#[local] Transparent empty_digest.


(** The run on the sample tree with three empty files: the shallowest of
    them that the walk met first is kept, the other two are removed, and
    the file that is not empty is untouched. *)
Example C10_blank_tree_run :
  get_file_paths blank_tree "/t" = ["/t/one"; "/t/four"; "/t/d/two"; "/t/d/three"] /\
  groups_found V1 blank_tree "/t"
  = Ok [("d41d8cd98f00b204e9800998ecf8427e", ["/t/one"; "/t/four"; "/t/d/two"])] /\
  removals (console (snd (clean_up V1 "/t" true true (fresh blank_tree [Line ""; Line "yes"]))))
  = ["/t/four"; "/t/d/two"] /\
  root (fs (snd (clean_up V1 "/t" true true (fresh blank_tree [Line ""; Line "yes"]))))
  = [ ("t", Dir [ ("one", File (Readable []));
                  ("d", Dir [ ("three", File (Readable (bytes_of_string "x"))) ]) ]) ].
Proof. vm_compute. repeat split. Qed.


(** * Further properties of the scripts *)

(** ** Reading and hashing one file *)

Lemma read_blocks_bounded (size fuel : nat) (data : list byte) :
  0 < size ->
  Forall (fun b => 0 < List.length b <= size) (read_blocks fuel size data).
Proof.
  intros Hsize. revert data. induction fuel as [|fuel IH]; intros data; [constructor|].
  cbn [read_blocks]. destruct (firstn size data) as [|b block] eqn:E; [constructor|].
  constructor; [|apply IH].
  rewrite <- E, length_firstn. split; [|lia].
  destruct data as [|x data]; [destruct size; discriminate|].
  cbn [List.length]. lia.
Qed.

(** X1: the loop [for byte_block in iter(lambda: f.read(chunk_size), b'')]
    of [hash_file] and [process_file], for any positive chunk size: every
    block it feeds to the hash is non-empty and at most [chunk_size] bytes
    long, and the blocks in order are the whole content of the file. *)
Theorem X1_blocks_are_bounded_and_cover_the_file (size : nat) (data : list byte) :
  0 < size ->
  Forall (fun b => 0 < List.length b <= size) (read_blocks (List.length data) size data) /\
  List.concat (read_blocks (List.length data) size data) = data /\
  fold_left Md5.update (read_blocks (List.length data) size data) Md5.new = data.
Proof.
  intros Hsize. split; [now apply read_blocks_bounded|].
  assert (H : List.concat (read_blocks (List.length data) size data) = data)
    by (now apply read_blocks_concat).
  split; [exact H|]. rewrite fold_update. exact H.
Qed.

Lemma X1_witness :
  0 < 2 /\
  read_blocks 5 2 (bytes_of_string "abcde")
  = [bytes_of_string "ab"; bytes_of_string "cd"; bytes_of_string "e"] /\
  List.concat (read_blocks 5 2 (bytes_of_string "abcde")) = bytes_of_string "abcde".
Proof.
  assert (H : 0 < 2) by lia.
  split; [exact H|]. split; [reflexivity|].
  exact (proj1 (proj2 (X1_blocks_are_bounded_and_cover_the_file
                         2 (bytes_of_string "abcde") H))).
Defined.

(** X2: the fingerprint depends on the bytes only: [hash_file] and
    [process_file] return the MD5 digest of the whole content, so two
    readable files with the same bytes get the same fingerprint, whatever
    their paths and whatever file system they are in. *)
Theorem X2_fingerprint_depends_on_content_only
    (t t' : filesystem) (p q : string) (data : list byte) :
  open_read t p = Ok data ->
  open_read t' q = Ok data ->
  hash_file t p = Ok (Md5.hexdigest data) /\
  process_file t p = Ok (p, Some (Md5.hexdigest data)) /\
  hash_file t' q = hash_file t p /\
  process_file t' q = Ok (q, Some (Md5.hexdigest data)).
Proof.
  intros Hp Hq. unfold hash_file, process_file.
  rewrite (md5_of_file_content t p data Hp), (md5_of_file_content t' q data Hq).
  repeat split.
Qed.

Lemma X2_witness :
  open_read sample_tree "/data/A" = Ok (bytes_of_string "x") /\
  open_read sample_tree "/data/sub/B" = Ok (bytes_of_string "x") /\
  hash_file sample_tree "/data/sub/B" = hash_file sample_tree "/data/A".
Proof.
  assert (H1 : open_read sample_tree "/data/A" = Ok (bytes_of_string "x")) by reflexivity.
  assert (H2 : open_read sample_tree "/data/sub/B" = Ok (bytes_of_string "x")) by reflexivity.
  split; [exact H1|]. split; [exact H2|].
  exact (proj1 (proj2 (proj2 (X2_fingerprint_depends_on_content_only
                                sample_tree sample_tree _ _ _ H1 H2)))).
Defined.

(** X3: how [process_file] ends: it hands back the path it was given; its hash
    is [None] exactly when reading the path raises an [OSError]; and it
    raises exactly when reading raises something else, which it passes on
    unchanged.  [hash_file] raises whatever reading raises. *)
Theorem X3_process_file_outcomes (t : filesystem) (p : string) :
  (forall q h, process_file t p = Ok (q, h) ->
     q = p /\
     (h = None <-> exists e, open_read t p = Raise e /\ is_OSError e = true) /\
     (forall d, h = Some d -> exists data, open_read t p = Ok data /\ d = Md5.hexdigest data)) /\
  (forall e, process_file t p = Raise e <->
             open_read t p = Raise e /\ is_OSError e = false) /\
  (forall e, hash_file t p = Raise e <-> open_read t p = Raise e).
Proof.
  unfold process_file, hash_file. split; [|split].
  - intros q h H. split; [|split].
    + destruct (md5_of_file t p) as [d|e]; [congruence|].
      destruct (is_OSError e); congruence.
    + split.
      * intros ->. destruct (md5_of_file t p) as [d|e] eqn:E; [discriminate|].
        exists e. apply md5_of_file_raise in E. split; [assumption|].
        destruct (is_OSError e); [reflexivity | discriminate].
      * intros [e [Ho He]]. apply md5_of_file_raise in Ho. rewrite Ho, He in H.
        congruence.
    + intros d ->. destruct (open_read t p) as [data|e] eqn:Ho.
      * exists data. split; [reflexivity|].
        rewrite (md5_of_file_content t p data Ho) in H. congruence.
      * apply md5_of_file_raise in Ho. rewrite Ho in H.
        destruct (is_OSError e); discriminate.
  - intros e. split.
    + destruct (md5_of_file t p) as [d|e0] eqn:E; [discriminate|].
      destruct (is_OSError e0) eqn:O; [discriminate|]. intros [= <-].
      split; [now apply md5_of_file_raise | assumption].
    + intros [Ho He]. apply md5_of_file_raise in Ho. now rewrite Ho, He.
  - intros e. apply md5_of_file_raise.
Qed.

(** ** The index that the hashing loop builds *)

Lemma dict_get_of_In {V} (d : list (string * V)) (k : string) (v : V) :
  NoDup (map fst d) -> In (k, v) d -> dict_get d k = Some v.
Proof.
  induction d as [|[k' v'] d IH]; intros Hn Hin; [destruct Hin|].
  cbn [map fst] in Hn. inversion Hn as [|? ? Hnot Hd]; subst. cbn [dict_get].
  destruct Hin as [[= -> ->]|Hin]; [now rewrite String.eqb_refl|].
  destruct (String.eqb_spec k' k) as [->|_]; [|now apply IH].
  exfalso. apply Hnot. apply in_map_iff. now exists (k, v).
Qed.

Lemma wf_address_key (g : globals) (h k : string) (a : nat) :
  wf_globals g -> In (h, a) (hash_to_files g) -> In (k, a) (hash_to_files g) -> h = k.
Proof.
  intros [Hseq _].
  assert (Hn : NoDup (map snd (hash_to_files g))) by (rewrite Hseq; apply seq_NoDup).
  clear Hseq. induction (hash_to_files g) as [|[k0 c] d IH]; [intros []|].
  cbn [map snd] in Hn. inversion Hn as [|? ? Hnot Hd]; subst.
  intros [E1|H1] [E2|H2].
  - congruence.
  - inversion E1; subst. exfalso. apply Hnot. apply in_map_iff. now exists (k, a).
  - inversion E2; subst. exfalso. apply Hnot. apply in_map_iff. now exists (h, a).
  - now apply IH.
Qed.

Lemma group_at_index_append (g : globals) (h p k : string) :
  wf_globals g ->
  group_at (index_append g h p) k
  = (group_at g k ++ (if h =? k then [p] else []))%list.
Proof.
  intros Hwf. unfold group_at, index_append.
  destruct (dict_get (hash_to_files g) h) as [a|] eqn:Gh; cbn [store hash_to_files].
  - pose proof (dict_get_In _ _ _ Gh) as Ha.
    destruct (dict_get (hash_to_files g) k) as [b|] eqn:Gk.
    + pose proof (dict_get_In _ _ _ Gk) as Hb.
      destruct (String.eqb_spec h k) as [->|Hne].
      * assert (b = a) by congruence. subst b.
        apply deref_assign_same. now apply (wf_in_range g k).
      * rewrite app_nil_r. apply deref_assign_other. intros ->.
        apply Hne. now apply (wf_address_key g h k a).
    + destruct (String.eqb_spec h k) as [->|Hne]; [congruence | reflexivity].
  - rewrite dict_get_app.
    destruct (dict_get (hash_to_files g) k) as [b|] eqn:Gk.
    + pose proof (dict_get_In _ _ _ Gk) as Hb.
      destruct (String.eqb_spec h k) as [->|Hne]; [congruence|].
      rewrite app_nil_r. apply deref_app_old. now apply (wf_in_range g k).
    + destruct (String.eqb_spec h k) as [->|Hne]; [apply deref_app_new | reflexivity].
Qed.

(** After the loop, the list under every fingerprint is what it was,
    followed by the scanned paths of that fingerprint in scan order. *)
Lemma scan_group_at (v : script) (t : filesystem) (ps : list string) (k : string) :
  forall g, wf_globals g ->
    fst (scan_from v t ps g) = Ok tt ->
    group_at (snd (scan_from v t ps g)) k
    = (group_at g k ++ filter (has_digest t k) ps)%list.
Proof.
  induction ps as [|p ps IH]; intros g Hwf Hok.
  - rewrite scan_from_nil. cbn. now rewrite app_nil_r.
  - rewrite scan_from_cons in *. cbn [filter]. unfold has_digest at 1.
    destruct (md5_of_file t p) as [h|e] eqn:E.
    + rewrite IH; [|now apply (wf_index_append (record_hash g p h)) | assumption].
      rewrite (group_at_index_append (record_hash g p h) h p k Hwf).
      rewrite <- app_assoc. f_equal.
      now destruct (h =? k).
    + destruct v; [discriminate|].
      destruct (is_OSError e); [now apply IH | discriminate].
Qed.

Lemma groups_of_In (g : globals) (h : string) (l : list string) :
  wf_globals g ->
  In (h, l) (groups_of g) <-> l = group_at g h /\ 2 <= List.length l.
Proof.
  intros Hwf. unfold groups_of, collisions_of, group_at. rewrite in_map_iff. split.
  - intros [[k a] [Heq Hin]].
    pose proof (f_equal fst Heq) as H1. pose proof (f_equal snd Heq) as H2.
    cbn [fst snd] in H1, H2. subst k l. apply filter_In in Hin.
    destruct Hin as [Hin Hlen]. apply Nat.ltb_lt in Hlen.
    rewrite (dict_get_of_In _ _ _ (proj2 Hwf) Hin). split; [reflexivity | lia].
  - intros [-> Hlen].
    destruct (dict_get (hash_to_files g) h) as [a|] eqn:G; [|simpl in Hlen; lia].
    exists (h, a). split; [reflexivity|]. apply filter_In.
    split; [now apply dict_get_In | apply Nat.ltb_lt; lia].
Qed.

(** What a run started from the command line reports as duplicates. *)
Lemma fresh_groups (v : script) (t : filesystem) (ps : list string) (h : string)
    (l : list string) :
  fst (scan_from v t ps module_init) = Ok tt ->
  In (h, l) (groups_of (snd (scan_from v t ps module_init))) <->
  l = filter (has_digest t h) ps /\ 2 <= List.length l.
Proof.
  intros Hok.
  rewrite (groups_of_In _ h l (scan_from_wf v t ps module_init wf_module_init)).
  rewrite (scan_group_at v t ps h module_init wf_module_init Hok).
  reflexivity.
Qed.

(** X4: when the hashing loop of either script ends without error, the
    list [hash_to_files[h]] of every fingerprint [h] is the list it was
    before, followed by exactly the scanned paths whose fingerprint is [h],
    in the order of the scan; a fingerprint without a scanned path keeps
    its list (or stays absent). *)
Theorem X4_index_groups_paths_by_fingerprint
    (v : script) (t : filesystem) (file_paths : list string) (g : globals) (h : string) :
  wf_globals g ->
  fst (scan_from v t file_paths g) = Ok tt ->
  group_at (snd (scan_from v t file_paths g)) h
  = (group_at g h ++ filter (has_digest t h) file_paths)%list.
Proof. intros Hwf Hok. now apply scan_group_at. Qed.

Lemma X4_witness :
  wf_globals module_init /\
  group_at (snd (scan_from V2 sample_tree (get_file_paths sample_tree "/data") module_init))
           "9dd4e461268c8034f5c8564e155c67a6"
  = filter (has_digest sample_tree "9dd4e461268c8034f5c8564e155c67a6")
           (get_file_paths sample_tree "/data").
Proof.
  assert (H : fst (scan_from V2 sample_tree (get_file_paths sample_tree "/data") module_init)
              = Ok tt) by (vm_compute; reflexivity).
  split; [exact wf_module_init|].
  exact (X4_index_groups_paths_by_fingerprint V2 sample_tree _ module_init _
           wf_module_init H).
Defined.

(** X5: in a run started from the command line whose hashing loop ends
    without error, a fingerprint is reported as a collision exactly when
    two or more of the scanned paths have it, and its group is then exactly
    those paths, in the order of the scan. *)
Theorem X5_collisions_are_the_fingerprints_seen_twice
    (v : script) (t : filesystem) (dir h : string) (group : list string) :
  fst (scan_from v t (get_file_paths t dir) module_init) = Ok tt ->
  In (h, group) (groups_of (snd (scan_from v t (get_file_paths t dir) module_init))) <->
  group = filter (has_digest t h) (get_file_paths t dir) /\ 2 <= List.length group.
Proof. intros Hok. now apply fresh_groups. Qed.

Lemma X5_witness :
  fst (scan_from V1 sample_tree (get_file_paths sample_tree "/empty/../data/") module_init)
  = Ok tt /\
  In ("9dd4e461268c8034f5c8564e155c67a6", ["/data/A"; "/data/sub/B"])
     (groups_of (snd (scan_from V1 sample_tree (get_file_paths sample_tree "/empty/../data/")
                        module_init))).
Proof.
  assert (H : fst (scan_from V1 sample_tree (get_file_paths sample_tree "/empty/../data/")
                     module_init)
              = Ok tt) by (vm_compute; reflexivity).
  split; [exact H|].
  apply (proj2 (X5_collisions_are_the_fingerprints_seen_twice
                  V1 sample_tree "/empty/../data/" _ _ H)).
  split; [vm_compute; reflexivity | vm_compute; repeat constructor].
Defined.

(** X6: no false negatives.  In a run started from the command line whose
    hashing loop ends without error, two different scanned paths with the
    same bytes are members of one and the same collision group, the one of
    the digest of those bytes. *)
Theorem X6_equal_content_same_group
    (v : script) (t : filesystem) (dir p q : string) (data : list byte) :
  fst (scan_from v t (get_file_paths t dir) module_init) = Ok tt ->
  In p (get_file_paths t dir) -> In q (get_file_paths t dir) -> p <> q ->
  open_read t p = Ok data -> open_read t q = Ok data ->
  exists group,
    In (Md5.hexdigest data, group)
       (groups_of (snd (scan_from v t (get_file_paths t dir) module_init))) /\
    In p group /\ In q group.
Proof.
  intros Hok Hp Hq Hne Dp Dq.
  set (h := Md5.hexdigest data).
  assert (Fp : In p (filter (has_digest t h) (get_file_paths t dir))).
  { apply filter_In. split; [assumption|]. unfold has_digest.
    rewrite (md5_of_file_content t p data Dp). apply String.eqb_refl. }
  assert (Fq : In q (filter (has_digest t h) (get_file_paths t dir))).
  { apply filter_In. split; [assumption|]. unfold has_digest.
    rewrite (md5_of_file_content t q data Dq). apply String.eqb_refl. }
  exists (filter (has_digest t h) (get_file_paths t dir)).
  split; [|split; assumption].
  apply (fresh_groups v t _ h _ Hok). split; [reflexivity|].
  pose proof (two_members _ p q Fp Fq Hne). lia.
Qed.

Lemma X6_witness :
  "/data/A" <> "/data/sub/B" /\
  exists group,
    In (Md5.hexdigest (bytes_of_string "x"), group)
       (groups_of (snd (scan_from V1 sample_tree (get_file_paths sample_tree "/data")
                          module_init))) /\
    In "/data/A" group /\ In "/data/sub/B" group.
Proof.
  assert (Hne : "/data/A" <> "/data/sub/B") by discriminate.
  split; [exact Hne|].
  apply (X6_equal_content_same_group V1 sample_tree "/data" "/data/A" "/data/sub/B"
           (bytes_of_string "x")).
  - vm_compute. reflexivity.
  - left. reflexivity.
  - right. right. left. reflexivity.
  - exact Hne.
  - reflexivity.
  - reflexivity.
Defined.

Lemma dict_get_set {V} (d : list (string * V)) (k k' : string) (v : V) :
  dict_get (dict_set d k v) k' = if k =? k' then Some v else dict_get d k'.
Proof.
  induction d as [|[k0 v0] d IH]; cbn [dict_set dict_get].
  - now destruct (k =? k').
  - destruct (String.eqb_spec k0 k) as [->|N0]; cbn [dict_get].
    + now destruct (k =? k').
    + rewrite IH. destruct (String.eqb_spec k0 k') as [->|N1]; [|reflexivity].
      destruct (String.eqb_spec k k') as [->|_]; [congruence | reflexivity].
Qed.

Lemma file_to_hash_index_append (g : globals) (h p : string) :
  file_to_hash (index_append g h p) = file_to_hash g.
Proof. unfold index_append. now destruct (dict_get (hash_to_files g) h). Qed.

Lemma scan_file_to_hash_other (v : script) (t : filesystem) (ps : list string) (q : string) :
  ~ In q ps ->
  forall g, dict_get (file_to_hash (snd (scan_from v t ps g))) q
            = dict_get (file_to_hash g) q.
Proof.
  induction ps as [|p ps IH]; intros Hn g.
  - now rewrite scan_from_nil.
  - assert (Hq : ~ In q ps) by (intros H; apply Hn; now right).
    assert (Hpq : p <> q) by (intros ->; apply Hn; now left).
    rewrite scan_from_cons. destruct (md5_of_file t p) as [h|e].
    + rewrite (IH Hq), file_to_hash_index_append. cbn [file_to_hash record_hash].
      rewrite dict_get_set. now destruct (String.eqb_spec p q).
    + destruct v; [reflexivity|]. destruct (is_OSError e); [now apply IH | reflexivity].
Qed.

(** X7: when the hashing loop ends without error, [file_to_hash] maps
    every scanned path that could be read to its fingerprint, and every path
    that was not scanned to what it was mapped to before. *)
Theorem X7_file_to_hash_records_every_fingerprint
    (v : script) (t : filesystem) (file_paths : list string) (g : globals) :
  fst (scan_from v t file_paths g) = Ok tt ->
  (forall p h, In p file_paths -> md5_of_file t p = Ok h ->
     dict_get (file_to_hash (snd (scan_from v t file_paths g))) p = Some h) /\
  (forall p, ~ In p file_paths ->
     dict_get (file_to_hash (snd (scan_from v t file_paths g))) p
     = dict_get (file_to_hash g) p).
Proof.
  intros Hok. split; [|intros p Hn; now apply scan_file_to_hash_other].
  revert g Hok. induction file_paths as [|p0 ps IH]; intros g Hok p h Hin Hh;
    [destruct Hin|].
  rewrite scan_from_cons in *.
  destruct (md5_of_file t p0) as [h0|e] eqn:E.
  - destruct (in_dec string_dec p ps) as [Hps|Hps]; [now apply IH|].
    destruct Hin as [->|Hin]; [|contradiction].
    rewrite (scan_file_to_hash_other v t ps p Hps), file_to_hash_index_append.
    cbn [file_to_hash record_hash]. rewrite dict_get_set, String.eqb_refl. congruence.
  - destruct Hin as [->|Hin]; [congruence|].
    destruct v; [discriminate|].
    destruct (is_OSError e); [now apply IH | discriminate].
Qed.

Lemma X7_witness :
  fst (scan_from V1 sample_tree (get_file_paths sample_tree "/data") module_init) = Ok tt /\
  dict_get (file_to_hash (snd (scan_from V1 sample_tree (get_file_paths sample_tree "/data")
                                 module_init))) "/data/C"
  = Some "415290769594460e2e485922904f345d".
Proof.
  assert (H : fst (scan_from V1 sample_tree (get_file_paths sample_tree "/data") module_init)
              = Ok tt) by (vm_compute; reflexivity).
  split; [exact H|].
  apply (proj1 (X7_file_to_hash_records_every_fingerprint V1 sample_tree _ module_init H)).
  - right. left. reflexivity.
  - vm_compute. reflexivity.
Defined.

(** ** The shape of the globals *)

Lemma wf_sorted (g : globals) (collisions : list (string * nat)) :
  wf_globals g ->
  wf_globals {| store := sort_groups (store g) collisions;
                file_to_hash := file_to_hash g;
                hash_to_files := hash_to_files g |}.
Proof.
  intros [Hseq Hk]. split; cbn [store hash_to_files]; [|assumption].
  now rewrite length_sort_groups.
Qed.

(** X8: the shape of the globals is an invariant of [clean_up]: if the keys
    of [hash_to_files] are distinct and every key has a list object of its
    own, as in a freshly loaded module, the same holds when the call ends,
    whatever the flags, the replies and the way the call ends. *)
Theorem X8_clean_up_keeps_the_index_well_formed
    (v : script) (dir : string) (show delete : bool) (w : world) :
  wf_globals (glob w) ->
  wf_globals (glob (snd (clean_up v dir show delete w))).
Proof.
  set (R := fun a b : world => wf_globals (glob a) -> wf_globals (glob b)).
  assert (Hrefl : forall a, R a a) by (intros a H; exact H).
  assert (Htrans : forall a b c, R a b -> R b c -> R a c) by (unfold R; auto).
  apply (respects_clean_up R Hrefl Htrans
           (fun s a => Hrefl _) (fun q a => Hrefl _)
           (fun i a => Hrefl _) (fun n a => Hrefl _)).
  - intros collisions a Ha.
    destruct (delete_duplicates_spec collisions a) as [evs [-> _]].
    cbn [snd glob]. now apply wf_sorted.
  - intros v0 ps a Ha. rewrite scan_frame. cbn [snd glob set_glob].
    now apply scan_from_wf.
Qed.

Lemma X8_witness :
  wf_globals (glob (fresh sample_tree [Line ""; Line "y"])) /\
  wf_globals (glob (snd (clean_up V2 "/data" true true
                           (fresh sample_tree [Line ""; Line "y"])))).
Proof.
  assert (H : wf_globals (glob (fresh sample_tree [Line ""; Line "y"])))
    by exact wf_module_init.
  split; [exact H|].
  exact (X8_clean_up_keeps_the_index_well_formed V2 "/data" true true _ H).
Defined.

(** ** Runs that delete nothing *)

Lemma talked_refl (w : world) : talked w w.
Proof.
  repeat split; [now exists [] | exists []; now rewrite app_nil_r].
Qed.

Lemma talked_trans (a b c : world) : talked a b -> talked b c -> talked a c.
Proof.
  intros [G1 [F1 [[c1 S1] [e1 [C1 R1]]]]] [G2 [F2 [[c2 S2] [e2 [C2 R2]]]]].
  repeat split; try congruence.
  - exists (c1 ++ c2)%list. now rewrite S1, S2, app_assoc.
  - exists (e1 ++ e2)%list. now rewrite C2, C1, removals_app, R1, R2, app_assoc.
Qed.

Lemma talked_emit (evs : list event) (w : world) :
  removals evs = [] -> talked w (emit evs w).
Proof. intros H. repeat split; [now exists [] | now exists evs]. Qed.

Lemma talked_only_prints (w w' : world) : only_prints w w' -> talked w w'.
Proof. intros [evs [-> [Hr _]]]. now apply talked_emit. Qed.

Lemma talked_set_glob_same (w w' : world) :
  talked w w' -> talked w (set_glob (glob w) w').
Proof.
  intros [G [F [S C]]]. repeat split; assumption.
Qed.

Lemma talked_input (prompt : string) (w : world) : talked w (snd (input prompt w)).
Proof.
  unfold input. destruct (stdin w) as [|[s|] rest] eqn:E; cbn [snd].
  - now apply talked_emit.
  - repeat split; cbn [stdin set_stdin emit console];
      [exists [Line s]; now rewrite E | now exists [Input prompt]].
  - repeat split; cbn [stdin set_stdin emit console];
      [exists [CtrlC]; now rewrite E | now exists [Input prompt]].
Qed.

Lemma talked_bind {A B} (m : M A) (k : A -> M B) (w : world) :
  talked w (snd (m w)) -> (forall a w1, talked w1 (snd (k a w1))) ->
  talked w (snd (bind m k w)).
Proof.
  intros Hm Hk. unfold bind. destruct (m w) as [[a|e] w1]; cbn [snd] in *; [|exact Hm].
  eapply talked_trans; [exact Hm | apply Hk].
Qed.

Lemma talked_ask_loop (prompt : string) (fuel : nat) :
  forall w, talked w (snd (ask_loop fuel prompt w)).
Proof.
  induction fuel as [|fuel IH]; intros w; [apply talked_refl|].
  cbn [ask_loop]. apply talked_bind; [apply talked_input|]. intros line w1.
  destruct (str_in _ yes_no); [apply talked_refl|].
  apply talked_bind; [now apply talked_emit | intros _ w2; apply IH].
Qed.

Lemma talked_ask_yes_no (prompt : string) (w : world) :
  talked w (snd (ask_yes_no prompt w)).
Proof. apply talked_ask_loop. Qed.

Lemma talked_display (collisions : list (string * nat)) (w : world) :
  talked w (snd (display_collisions collisions w)).
Proof.
  apply talked_only_prints.
  apply (respects_display_collisions only_prints only_prints_refl only_prints_trans
           only_prints_print).
Qed.

Lemma talked_report (show : bool) (collisions : list (string * nat)) (w : world) :
  talked w (snd (report show collisions w)).
Proof.
  apply talked_only_prints.
  apply (respects_report only_prints only_prints_refl only_prints_trans only_prints_print).
Qed.

Lemma talked_proceed (v : script) (w : world) : talked w (snd (proceed v w)).
Proof.
  destruct v; cbn [proceed].
  - apply talked_bind; [apply talked_input | intros; apply talked_refl].
  - unfold try_except, bind. pose proof (talked_input (proceed_prompt V2) w) as H.
    destruct (input (proceed_prompt V2) w) as [[s|e] w1]; cbn [snd ret] in *; [exact H|].
    destruct (is_KeyboardInterrupt e); [|exact H].
    eapply talked_trans; [exact H|]. unfold print. now apply talked_emit.
Qed.

Lemma yes_is_waiting_back (w w' : world) :
  talked w w' -> yes_is_waiting w' -> yes_is_waiting w.
Proof.
  intros [_ [_ [[c Hc] _]]] [s [Hin Hs]]. exists s. split; [|assumption].
  rewrite Hc. apply in_or_app. now right.
Qed.

(** A yes/no prompt answers [True] only to a line that means yes. *)
Lemma ask_loop_true (prompt : string) (fuel : nat) :
  forall w w', ask_loop fuel prompt w = (Ok true, w') -> yes_is_waiting w.
Proof.
  induction fuel as [|fuel IH]; intros w w' H; [discriminate|].
  cbn [ask_loop] in H. unfold bind at 1, input at 1 in H.
  destruct (stdin w) as [|[s|] rest] eqn:E; try discriminate.
  destruct (str_in (lower (strip s)) yes_no) eqn:Hs.
  - injection H as Hyes _. exists s. split; [rewrite E; now left | assumption].
  - unfold bind at 1, print at 1 in H. apply IH in H.
    destruct H as [s' [Hin Hs']]. exists s'. split; [|assumption].
    rewrite E. right. exact Hin.
Qed.

(** The block under [if delete:] either only talks, or found a yes among
    the replies. *)
Lemma confirm_and_delete_needs_yes (v : script) (show : bool)
    (collisions : list (string * nat)) (w : world) :
  talked w (snd (confirm_and_delete v show collisions w)) \/ yes_is_waiting w.
Proof.
  unfold confirm_and_delete. destruct collisions as [|c cs].
  - left. unfold print. now apply talked_emit.
  - set (pre := (print (warning_message v) ;;;
                 when (negb show)
                   (show0 <- ask_yes_no show_prompt ;;
                    when show0 (display_collisions (c :: cs))))).
    assert (Hpre : talked w (snd (pre w))).
    { subst pre. apply talked_bind; [unfold print; now apply talked_emit|].
      intros _ w1. destruct show; cbn [negb when]; [apply talked_refl|].
      apply talked_bind; [apply talked_ask_yes_no|]. intros b w2.
      destruct b; cbn [when]; [apply talked_display | apply talked_refl]. }
    change (talked w (snd (bind pre (fun _ =>
              confirm_delete <- ask_yes_no confirm_prompt ;;
              if confirm_delete then delete_duplicates (c :: cs)
              else print "Aborted deletion.") w)) \/ yes_is_waiting w).
    unfold bind at 1. destruct (pre w) as [[[]|e] w1]; cbn [snd] in Hpre; [|now left].
    unfold bind. pose proof (talked_ask_yes_no confirm_prompt w1) as Hask.
    destruct (ask_yes_no confirm_prompt w1) as [[b|e] w2] eqn:E; cbn [snd] in Hask.
    + destruct b.
      * right. apply (yes_is_waiting_back w w1 Hpre).
        unfold ask_yes_no in E. now apply ask_loop_true in E.
      * left. eapply talked_trans; [exact Hpre|]. eapply talked_trans; [exact Hask|].
        unfold print. now apply talked_emit.
    + left. eapply talked_trans; eassumption.
Qed.

Lemma talked_announce (v : script) (ps : list string) (w : world) :
  talked w (announce v ps w).
Proof.
  destruct v; cbn [announce]; [apply talked_refl|].
  eapply talked_trans; now apply talked_emit.
Qed.

Lemma clean_up_body_needs_yes (v : script) (dir : string) (show delete : bool) (w : world) :
  (fs (snd (clean_up_body v dir show delete w)) = fs w /\
   exists evs, console (snd (clean_up_body v dir show delete w)) = (console w ++ evs)%list /\
               removals evs = []) \/
  (delete = true /\ yes_is_waiting w).
Proof.
  set (r := clean_up_body v dir show delete w).
  assert (Er : r = clean_up_body v dir show delete w) by reflexivity. clearbody r.
  rewrite clean_up_body_run in Er. cbv zeta in Er.
  assert (Hfin : forall w1 w', talked w1 w' -> fs w1 = fs w ->
            (exists evs, console w1 = (console w ++ evs)%list /\ removals evs = []) ->
            fs w' = fs w /\
            exists evs, console w' = (console w ++ evs)%list /\ removals evs = []).
  { intros w1 w' [_ [F [_ [e3 [C3 R3]]]]] Hfs [e1 [C1 R1]]. split; [congruence|].
    exists (e1 ++ e3)%list. now rewrite C3, C1, removals_app, R1, R3, app_assoc. }
  pose proof (talked_announce v (get_file_paths (fs w) dir) w) as H0.
  destruct (scan_from v (fs w) (get_file_paths (fs w) dir) (glob w)) as [[[]|e] g1].
  - set (w0 := announce v (get_file_paths (fs w) dir) w) in *.
    assert (Hfs : fs (set_glob g1 w0) = fs w) by (cbn; apply H0).
    assert (Hst : exists c, stdin w = (c ++ stdin (set_glob g1 w0))%list)
      by (cbn; apply H0).
    assert (Hco : exists evs, console (set_glob g1 w0) = (console w ++ evs)%list /\
                              removals evs = []) by (cbn; apply H0).
    generalize dependent (set_glob g1 w0). clear H0 w0. intros w1 Er Hfs Hst Hco.
    unfold bind at 1 in Er. pose proof (talked_report show (collisions_of g1) w1) as Hrep.
    destruct (report show (collisions_of g1) w1) as [[[]|e] w2]; cbn [snd] in Hrep.
    + destruct delete; cbn [when] in Er.
      * unfold delete_block, bind in Er. pose proof (talked_proceed v w2) as Hpro.
        destruct (proceed v w2) as [[go|e] w3]; cbn [snd] in Hpro.
        -- destruct go; cbn [when] in Er.
           ++ destruct (confirm_and_delete_needs_yes v show (collisions_of g1) w3)
                as [Ht|Hy].
              ** left. subst r.
                 apply (Hfin w1); try assumption.
                 exact (talked_trans _ _ _ Hrep (talked_trans _ _ _ Hpro Ht)).
              ** right. split; [reflexivity|].
                 pose proof (yes_is_waiting_back _ _ (talked_trans _ _ _ Hrep Hpro) Hy)
                   as [s [Hin Hs]].
                 destruct Hst as [c Hc]. exists s. split; [|assumption].
                 rewrite Hc. apply in_or_app. now right.
           ++ left. subst r. cbn [snd ret]. apply (Hfin w1); try assumption.
              exact (talked_trans _ _ _ Hrep Hpro).
        -- left. subst r. cbn [snd]. apply (Hfin w1); try assumption.
           exact (talked_trans _ _ _ Hrep Hpro).
      * left. subst r. cbn [snd ret]. now apply (Hfin w1).
    + left. subst r. cbn [snd]. now apply (Hfin w1).
  - left. subst r. destruct H0 as [_ [F [_ [e1 [C1 R1]]]]].
    cbn [snd fs console set_glob]. split; [assumption | now exists e1].
Qed.

(** X9: nothing is deleted without a typed yes.  Whatever the script, the
    flags, the state it starts in and the replies, and however the call
    ends, a call of [clean_up] either hands nothing to [os.remove] and
    leaves the file system as it was, or it ran with [--delete] and among
    the replies it was given there is a line that, stripped and lowered, is
    yes or y. *)
Theorem X9_no_deletion_without_a_yes
    (v : script) (dir : string) (show delete : bool) (w : world) :
  let r := clean_up v dir show delete w in
  (fs (snd r) = fs w /\
   exists evs, console (snd r) = (console w ++ evs)%list /\ removals evs = []) \/
  (delete = true /\
   exists s, In (Line s) (stdin w) /\ str_in (lower (strip s)) affirmative = true).
Proof.
  cbv zeta. destruct (clean_up_body_needs_yes v dir show delete w) as [[F [evs [C R]]]|H];
    [|now right].
  left. destruct v; cbn [clean_up]; [split; [assumption | now exists evs]|].
  unfold time_it, bind.
  destruct (clean_up_body V2 dir show delete w) as [[[]|e] w1]; cbn [snd fs console emit ret] in *.
  - split; [assumption|]. exists (evs ++ [Elapsed "clean_up"])%list.
    now rewrite C, removals_app, R, app_assoc.
  - split; [assumption | now exists evs].
Qed.

Lemma report_run (show : bool) (collisions : list (string * nat)) (w : world) :
  exists evs, report show collisions w = (Ok tt, emit evs w) /\
              removals evs = [] /\ prompts evs = [].
Proof.
  unfold report. destruct show; [apply display_collisions_run|].
  eexists. split; [reflexivity | now split].
Qed.

Lemma announce_run (v : script) (ps : list string) (w : world) :
  exists evs, announce v ps w = emit evs w /\ removals evs = [] /\ prompts evs = [].
Proof.
  destruct v; cbn [announce].
  - exists []. now rewrite emit_nil.
  - eexists. rewrite emit_emit. split; [reflexivity | now split].
Qed.

(** A call without [--delete]. *)
Lemma quiet_call
    (v : script) (dir : string) (show : bool) (w : world) :
  let r := clean_up v dir show false w in
  let loop := scan_from v (fs w) (get_file_paths (fs w) dir) (glob w) in
  fst r = fst loop /\
  glob (snd r) = snd loop /\
  fs (snd r) = fs w /\
  stdin (snd r) = stdin w /\
  exists evs, console (snd r) = (console w ++ evs)%list /\
              removals evs = [] /\ prompts evs = [].
Proof.
  cbv zeta.
  assert (Hbody : exists evs,
            clean_up_body v dir show false w
            = (fst (scan_from v (fs w) (get_file_paths (fs w) dir) (glob w)),
               {| glob := snd (scan_from v (fs w) (get_file_paths (fs w) dir) (glob w));
                  fs := fs w; stdin := stdin w; console := console w ++ evs |})
            /\ removals evs = [] /\ prompts evs = []).
  { rewrite clean_up_body_run. cbv zeta.
    destruct (announce_run v (get_file_paths (fs w) dir) w) as [e0 [-> [R0 P0]]].
    destruct (scan_from v (fs w) (get_file_paths (fs w) dir) (glob w)) as [[[]|e] g1].
    - unfold bind.
      match goal with |- context [report show ?cc ?ww] =>
        destruct (report_run show cc ww) as [e1 [-> [R1 P1]]] end.
      exists (e0 ++ e1)%list. cbn [when ret fst snd]. world_norm.
      now rewrite removals_app, prompts_app, R0, R1, P0, P1.
    - exists e0. cbn [fst snd]. world_norm. now split. }
  destruct Hbody as [evs [Hrun [Hr Hp]]].
  destruct v; cbn [clean_up].
  - rewrite Hrun. cbn [fst snd glob fs stdin console]. repeat split. now exists evs.
  - unfold time_it, bind. rewrite Hrun.
    destruct (fst (scan_from V2 (fs w) (get_file_paths (fs w) dir) (glob w))) as [[]|e];
      cbn [fst snd glob fs stdin console ret emit]; repeat split.
    + exists (evs ++ [Elapsed "clean_up"])%list.
      now rewrite removals_app, prompts_app, Hr, Hp, app_assoc.
    + now exists evs.
Qed.


(** ** The first prompt *)

Lemma proceed_end_of_input (v : script) (w : world) :
  stdin w = [] ->
  proceed v w = (Raise EOFError, emit [Input (proceed_prompt v)] w).
Proof.
  intros E. destruct v; cbn [proceed]; unfold try_except, bind, input; now rewrite E.
Qed.

Lemma proceed_interrupted (v : script) (rest : list reply) (w : world) :
  stdin w = CtrlC :: rest ->
  proceed v w =
  match v with
  | V1 => (Raise KeyboardInterrupt, set_stdin rest (emit [Input (proceed_prompt V1)] w))
  | V2 => (Ok false, emit [Print (nl ++ "Operation cancelled.")%string]
                       (set_stdin rest (emit [Input (proceed_prompt V2)] w)))
  end.
Proof.
  intros E. destruct v; cbn [proceed]; unfold try_except, bind, input; now rewrite E.
Qed.



(** ** What [delete_duplicates] leaves behind *)

Lemma printed_app (a b : list event) : printed (a ++ b) = (printed a ++ printed b)%list.
Proof. unfold printed. now rewrite flat_map_app. Qed.

(** One attempt of the inner loop of [delete_duplicates]: one call of
    [os.remove], then one line, whether the call failed or not. *)
Lemma attempt_reports (path : string) (w : world) :
  exists line,
    console (snd (try_except
                    (remove path ;;; print ("Deleted: " ++ path)%string)
                    is_Exception
                    (fun e => print ("Error deleting " ++ path ++ ": "
                                       ++ str_of_exn e path)%string) w))
    = (console w ++ [Remove path; Print line])%list.
Proof.
  unfold try_except, bind, remove, print.
  destruct (os_remove (fs w) path) as [t'|e] eqn:E.
  - eexists. world_norm. reflexivity.
  - rewrite (os_remove_exn _ _ _ E). eexists. world_norm. reflexivity.
Qed.

Lemma delete_duplicates_reports (collisions : list (string * nat)) (w : world) :
  exists evs,
    console (snd (delete_duplicates collisions w)) = (console w ++ evs)%list /\
    List.length (printed evs) = List.length (removals evs).
Proof.
  set (R := fun a b : world =>
              exists evs, console b = (console a ++ evs)%list /\
                          List.length (printed evs) = List.length (removals evs)).
  assert (Hrefl : forall a, R a a) by (intros a; exists []; now rewrite app_nil_r).
  assert (Htrans : forall a b c, R a b -> R b c -> R a c).
  { intros a b c [e1 [C1 L1]] [e2 [C2 L2]]. exists (e1 ++ e2)%list.
    rewrite C2, C1, printed_app, removals_app, !length_app, app_assoc. split; [reflexivity | lia]. }
  unfold delete_duplicates.
  apply (respects_for_each R Hrefl Htrans). intros [h a].
  apply (respects_bind R Htrans); [apply (respects_get_glob R Hrefl)|]. intros g.
  apply (respects_when R Hrefl).
  apply (respects_bind R Htrans).
  - unfold sort_in_place.
    apply (respects_bind R Htrans); [apply (respects_get_glob R Hrefl)|]. intros g0.
    apply (respects_bind R Htrans);
      [intros a0; exists []; cbn; now rewrite app_nil_r|].
    intros _. apply (respects_ret R Hrefl).
  - intros paths. apply (respects_for_each R Hrefl Htrans). intros path a0.
    destruct (attempt_reports path a0) as [line Hl]. now exists [Remove path; Print line].
Qed.


Lemma sort_groups_idem (collisions : list (string * nat)) (st : list (list string)) :
  sort_groups (sort_groups st collisions) collisions = sort_groups st collisions.
Proof.
  apply nth_ext with (d := []) (d' := []).
  - now rewrite !length_sort_groups.
  - intros n _. change (deref (sort_groups (sort_groups st collisions) collisions) n
                        = deref (sort_groups st collisions) n).
    rewrite !deref_sort_groups. destruct (existsb _ _); [apply sort_by_idem | reflexivity].
Qed.


(** ** A confirmed run *)

(** A run with [--delete] whose final prompt is answered with yes: it ends
    normally and the file system is the one it started with, after the
    attempts of [delete_duplicates] to remove every path but the first of
    each sorted group. *)
Lemma confirmed_run
    (v : script) (dir : string) (show : bool) (w : world) (g1 : globals)
    (s0 : text) (show_replies ack_replies rest : list reply) :
  scan_from v (fs w) (get_file_paths (fs w) dir) (glob w) = (Ok tt, g1) ->
  collisions_of g1 <> [] ->
  stdin w = (Line s0 :: show_replies ++ ack_replies ++ rest)%list ->
  (if show then show_replies = [] else exists b, answers b show_replies) ->
  answers true ack_replies ->
  fst (clean_up v dir show true w) = Ok tt /\
  fs (snd (clean_up v dir show true w))
  = fold_left rm (flat_map (fun '(_, a) => doomed (store g1) a) (collisions_of g1)) (fs w).
Proof.
  intros Hscan Hcoll Hin Hshow Hack.
  destruct (run_until_decision v dir show w g1 s0 show_replies ack_replies rest true
              Hscan Hcoll Hin Hshow Hack) as [evs [Hrem Hrun]].
  match type of Hrun with _ = delete_duplicates ?cs ?w1 =>
    destruct (delete_duplicates_spec cs w1) as [evs2 [Hdel [Hrem2 _]]] end.
  rewrite Hdel in Hrun. cbn [fs glob store] in Hrun, Hrem2.
  destruct (clean_up_of_body _ _ _ _ _ _ Hrun) as [Hfst Hfs].
  split; [exact Hfst|]. rewrite Hfs. cbn [fs]. now rewrite Hrem2.
Qed.

(** With every path recorded once, the first path of a sorted group is in
    no group's tail. *)
Lemma keeper_is_spared (g : globals) (h : string) (a : nat)
    (keeper : string) (pre post : list string) :
  wf_globals g -> NoDup (List.concat (store g)) ->
  deref (store g) a = (pre ++ keeper :: post)%list ->
  sort_by depth (deref (store g) a) = keeper :: sort_by depth (pre ++ post) ->
  ~ In keeper (flat_map (fun '(_, b) => doomed (store g) b) (collisions_of g)).
Proof.
  intros Hwf Hstore Hl Hsort Hin. apply in_flat_map in Hin.
  destruct Hin as [[k b] [Hb Hk]].
  destruct (Nat.eq_dec b a) as [->|Hba].
  - unfold doomed in Hk. rewrite Hsort in Hk. cbn [skipn] in Hk.
    apply (Permutation_in keeper (sort_by_perm depth _)) in Hk.
    pose proof (nodup_concat_deref (store g) a Hstore) as Hgroup.
    rewrite Hl in Hgroup. apply NoDup_remove_2 in Hgroup. contradiction.
  - apply (nodup_concat_disjoint (store g) keeper Hstore b a Hba).
    + now apply in_doomed.
    + rewrite Hl. apply in_or_app. right. now left.
Qed.



(** ** The timing line *)

Lemma elapsed_app (a b : list event) : elapsed (a ++ b) = (elapsed a ++ elapsed b)%list.
Proof. unfold elapsed. apply flat_map_app. Qed.

(** Nothing in the body of [clean_up] prints a timing line. *)
Lemma clean_up_body_no_elapsed (v : script) (dir : string) (show delete : bool) (w : world) :
  exists evs,
    console (snd (clean_up_body v dir show delete w)) = (console w ++ evs)%list /\
    elapsed evs = [].
Proof.
  set (R := fun a b : world =>
              exists evs, console b = (console a ++ evs)%list /\ elapsed evs = []).
  assert (Hrefl : forall a, R a a) by (intros a; exists []; now rewrite app_nil_r).
  assert (Htrans : forall a b c, R a b -> R b c -> R a c).
  { intros a b c [e1 [C1 L1]] [e2 [C2 L2]]. exists (e1 ++ e2)%list.
    rewrite C2, C1, elapsed_app, L1, L2, app_assoc. now split. }
  assert (Hprint : forall s a, R a (emit [Print s] a)) by (intros s a; now exists [Print s]).
  assert (Hinput : forall p a, R a (emit [Input p] a)) by (intros p a; now exists [Input p]).
  assert (Hstdin : forall i a, R a (set_stdin i a)).
  { intros i a. exists []. cbn. now rewrite app_nil_r. }
  apply (respects_clean_up_body R Hrefl Htrans Hprint Hinput Hstdin).
  - intros collisions. unfold delete_duplicates.
    apply (respects_for_each R Hrefl Htrans). intros [h a].
    apply (respects_bind R Htrans); [apply (respects_get_glob R Hrefl)|]. intros g.
    apply (respects_when R Hrefl).
    apply (respects_bind R Htrans).
    + unfold sort_in_place.
      apply (respects_bind R Htrans); [apply (respects_get_glob R Hrefl)|]. intros g0.
      apply (respects_bind R Htrans);
        [intros a0; exists []; cbn; now rewrite app_nil_r|].
      intros _. apply (respects_ret R Hrefl).
    + intros paths. apply (respects_for_each R Hrefl Htrans). intros path a0.
      destruct (attempt_reports path a0) as [line Hl]. now exists [Remove path; Print line].
  - intros v0 ps a. rewrite scan_frame. exists []. cbn. now rewrite app_nil_r.
Qed.

(** X15: the timing line of [time_it].  [cleanup_v2.py] prints it once, as
    the last line of the call, when [clean_up] returns; when [clean_up]
    ends with an exception the line is not printed (the decorator has no
    [finally]).  [clean_up.py] defines the decorator but does not apply it,
    and never prints the line. *)
Theorem X15_timing_line_only_when_v2_returns
    (v : script) (dir : string) (show delete : bool) (w : world) :
  let r := clean_up v dir show delete w in
  exists evs,
    console (snd r) = (console w ++ evs)%list /\
    match v, fst r with
    | V2, Ok _ => exists evs0, evs = (evs0 ++ [Elapsed "clean_up"])%list /\ elapsed evs0 = []
    | _, _ => elapsed evs = []
    end.
Proof.
  cbv zeta.
  destruct (clean_up_body_no_elapsed v dir show delete w) as [evs [Hc He]].
  destruct v; cbn [clean_up].
  - exists evs. split; [assumption|].
    now destruct (fst (clean_up_body V1 dir show delete w)).
  - unfold time_it, bind.
    destruct (clean_up_body V2 dir show delete w) as [[a|e] w1]; cbn [fst snd] in *.
    + exists (evs ++ [Elapsed "clean_up"])%list. unfold ret. cbn [fst snd emit console].
      rewrite Hc, app_assoc. split; [reflexivity|]. now exists evs.
    + exists evs. now split.
Qed.

(** ** The yes/no loops *)


Lemma is_space_true (c : N) :
  is_space c = true <->
  (9 <= c <= 13 \/ 28 <= c <= 32 \/ c = 133 \/ c = 160 \/ c = 5760 \/ 8192 <= c <= 8202
   \/ c = 8232 \/ c = 8233 \/ c = 8239 \/ c = 8287 \/ c = 12288)%N.
Proof.
  unfold is_space.
  rewrite !orb_true_iff, !andb_true_iff, !N.leb_le, !N.eqb_eq. tauto.
Qed.

Lemma not_space (c : N) :
  ~ (9 <= c <= 13 \/ 28 <= c <= 32 \/ c = 133 \/ c = 160 \/ c = 5760 \/ 8192 <= c <= 8202
     \/ c = 8232 \/ c = 8233 \/ c = 8239 \/ c = 8287 \/ c = 12288)%N ->
  is_space c = false.
Proof.
  intros H. apply not_true_is_false. intros E. apply H. now apply is_space_true.
Qed.

(** A white-space character is its own lower-case form. *)
Lemma lower_char_space (c : N) : is_space c = true -> lower_char c = [c].
Proof.
  intros H. apply is_space_true in H. unfold lower_char.
  destruct (65 <=? c)%N eqn:E1, (c <=? 90)%N eqn:E2; cbn [andb];
    try (apply N.leb_le in E1); try (apply N.leb_le in E2); try lia;
    (destruct (N.eqb_spec c 304); [lia|]); (destruct (N.eqb_spec c 8490); [lia|]);
    reflexivity.
Qed.

(** The lower-case form of any other character is not empty and holds no
    white space. *)
Lemma lower_char_solid (c : N) :
  is_space c = false ->
  exists x xs, lower_char c = x :: xs /\ Forall (fun y => is_space y = false) (x :: xs).
Proof.
  intros H. unfold lower_char.
  destruct (65 <=? c)%N eqn:E1, (c <=? 90)%N eqn:E2; cbn [andb];
    try (apply N.leb_le in E1); try (apply N.leb_le in E2).
  1:{ eexists _, _. split; [reflexivity|]. constructor; [|constructor].
      apply not_space. lia. }
  all: destruct (N.eqb_spec c 304);
    [eexists _, _; split; [reflexivity|]; repeat constructor; apply not_space; lia|];
    destruct (N.eqb_spec c 8490);
    [eexists _, _; split; [reflexivity|]; repeat constructor; apply not_space; lia|];
    (eexists _, _; split; [reflexivity|]; repeat constructor; assumption).
Qed.

Lemma lower_char_idem (c : N) : lower (lower_char c) = lower_char c.
Proof.
  unfold lower, lower_char.
  destruct (65 <=? c)%N eqn:E1, (c <=? 90)%N eqn:E2; cbn [andb flat_map app];
    try (apply N.leb_le in E1); try (apply N.leb_le in E2);
    try (apply N.leb_gt in E1); try (apply N.leb_gt in E2).
  1:{ unfold lower_char.
      replace ((65 <=? c + 32) && (c + 32 <=? 90))%N with false
        by (symmetry; apply andb_false_iff; right; apply N.leb_gt; lia).
      destruct (N.eqb_spec (c + 32) 304); [lia|].
      destruct (N.eqb_spec (c + 32) 8490); [lia|]. reflexivity. }
  all: destruct (N.eqb_spec c 304); [reflexivity|];
    destruct (N.eqb_spec c 8490); [reflexivity|];
    cbn [flat_map app]; unfold lower_char;
    (replace ((65 <=? c) && (c <=? 90))%N with false
       by (symmetry; apply andb_false_iff; first [left; apply N.leb_gt; lia
                                                  | right; apply N.leb_gt; lia]));
    (destruct (N.eqb_spec c 304); [contradiction|]);
    (destruct (N.eqb_spec c 8490); [contradiction|]); reflexivity.
Qed.

Lemma lower_app (a b : text) : lower (a ++ b) = (lower a ++ lower b)%list.
Proof. apply flat_map_app. Qed.

Lemma lower_idem (s : text) : lower (lower s) = lower s.
Proof.
  induction s as [|c s IH]; [reflexivity|].
  change (lower (c :: s)) with (lower_char c ++ lower s)%list.
  now rewrite lower_app, lower_char_idem, IH.
Qed.

Lemma lstrip_solid (l r : text) (x : N) :
  is_space x = false -> lstrip ((x :: l) ++ r) = ((x :: l) ++ r)%list.
Proof. intros H. cbn [app lstrip]. now rewrite H. Qed.

Lemma lstrip_lower (s : text) : lstrip (lower s) = lower (lstrip s).
Proof.
  induction s as [|c s IH]; [reflexivity|].
  change (lower (c :: s)) with (lower_char c ++ lower s)%list.
  cbn [lstrip]. destruct (is_space c) eqn:E.
  - rewrite (lower_char_space c E). cbn [app lstrip]. now rewrite E.
  - destruct (lower_char_solid c E) as [x [xs [Hc Hall]]].
    change (lower (c :: s)) with (lower_char c ++ lower s)%list. rewrite Hc.
    apply lstrip_solid. now inversion Hall.
Qed.

Lemma rstrip_cons_solid (c : N) (s : text) :
  is_space c = false -> rstrip (c :: s) = c :: rstrip s.
Proof. intros H. cbn [rstrip]. rewrite H. now destruct (rstrip s). Qed.

Lemma rstrip_solid_app (l r : text) :
  Forall (fun y => is_space y = false) l -> rstrip (l ++ r) = (l ++ rstrip r)%list.
Proof.
  induction 1 as [|x l Hx Hl IH]; [reflexivity|].
  cbn [app]. rewrite (rstrip_cons_solid x _ Hx). now rewrite IH.
Qed.

Lemma lower_nil (s : text) : lower s = [] -> s = [].
Proof.
  destruct s as [|c s]; [reflexivity|].
  change (lower (c :: s)) with (lower_char c ++ lower s)%list.
  unfold lower_char.
  destruct ((65 <=? c) && (c <=? 90))%N; [discriminate|].
  destruct (c =? 304)%N; [discriminate|]. destruct (c =? 8490)%N; discriminate.
Qed.

Lemma rstrip_lower (s : text) : rstrip (lower s) = lower (rstrip s).
Proof.
  induction s as [|c s IH]; [reflexivity|].
  change (lower (c :: s)) with (lower_char c ++ lower s)%list.
  destruct (is_space c) eqn:E.
  - rewrite (lower_char_space c E). cbn [app rstrip]. rewrite IH, E.
    destruct (rstrip s) as [|y r] eqn:Er; [reflexivity|].
    destruct (lower (y :: r)) as [|z l] eqn:El; [now apply lower_nil in El|].
    change (lower (c :: y :: r)) with (lower_char c ++ lower (y :: r))%list.
    now rewrite (lower_char_space c E), El.
  - destruct (lower_char_solid c E) as [x [xs [Hc Hall]]].
    rewrite (rstrip_cons_solid c s E).
    change (lower (c :: rstrip s)) with (lower_char c ++ lower (rstrip s))%list.
    rewrite Hc, <- IH. now apply rstrip_solid_app.
Qed.

Lemma strip_lower (s : text) : strip (lower s) = lower (strip s).
Proof. unfold strip. now rewrite lstrip_lower, rstrip_lower. Qed.

Lemma lstrip_padding (p s : text) : all_space p -> lstrip (p ++ s) = lstrip s.
Proof.
  induction 1 as [|c p Hc Hp IH]; [reflexivity|].
  cbn [app lstrip]. now rewrite Hc.
Qed.

Lemma rstrip_all_space (p : text) : all_space p -> rstrip p = [].
Proof.
  induction 1 as [|c p Hc Hp IH]; [reflexivity|].
  cbn [rstrip]. now rewrite IH, Hc.
Qed.

Lemma rstrip_padding (s p : text) : all_space p -> rstrip (s ++ p) = rstrip s.
Proof.
  intros H. induction s as [|c s IH]; cbn [app rstrip].
  - now apply rstrip_all_space.
  - now rewrite IH.
Qed.

Lemma lstrip_all_space (p : text) : all_space p -> lstrip p = [].
Proof.
  intros H. rewrite <- (app_nil_r p). now rewrite (lstrip_padding p [] H).
Qed.

Lemma strip_padding_right (s p : text) : all_space p -> strip (s ++ p) = strip s.
Proof.
  intros H. unfold strip. induction s as [|c s IH]; cbn [app lstrip].
  - now rewrite (lstrip_all_space p H).
  - destruct (is_space c); [exact IH|].
    exact (rstrip_padding (c :: s) p H).
Qed.

Lemma strip_padding (p1 s p2 : text) :
  all_space p1 -> all_space p2 -> strip (p1 ++ s ++ p2) = strip s.
Proof.
  intros H1 H2. rewrite <- (strip_padding_right s p2 H2).
  unfold strip. now rewrite lstrip_padding.
Qed.

(** X17: what the yes/no loops make of a reply does not depend on white
    space around it (any of the characters that [str.strip()] removes, the
    no-break space and the Unicode spaces among them) or on the case of its
    ASCII letters: a reply padded with white space on either side is
    treated exactly as any reply with the same lower-case form as its
    core. *)
Theorem X17_replies_are_read_modulo_padding_and_case
    (prompt : string) (p1 s p2 s' : text) (rest : list reply) (w : world) :
  all_space p1 -> all_space p2 -> lower s = lower s' ->
  ask_yes_no prompt (set_stdin (Line (p1 ++ s ++ p2) :: rest) w)
  = ask_yes_no prompt (set_stdin (Line s' :: rest) w).
Proof.
  intros H1 H2 Hs.
  assert (Hkey : lower (strip (p1 ++ s ++ p2)) = lower (strip s')).
  { rewrite (strip_padding p1 s p2 H1 H2), <- !strip_lower. now rewrite Hs. }
  set (wa := set_stdin (Line (p1 ++ s ++ p2) :: rest) w).
  set (wb := set_stdin (Line s' :: rest) w).
  assert (Ea : stdin wa = Line (p1 ++ s ++ p2) :: rest) by reflexivity.
  assert (Eb : stdin wb = Line s' :: rest) by reflexivity.
  destruct (str_in (lower (strip s')) yes_no) eqn:Hr.
  - rewrite (ask_yes_no_recognised prompt _ rest wa Ea) by (now rewrite Hkey).
    rewrite (ask_yes_no_recognised prompt _ rest wb Eb Hr).
    now rewrite Hkey.
  - rewrite (ask_yes_no_unrecognised prompt _ rest wa Ea) by (now rewrite Hkey).
    rewrite (ask_yes_no_unrecognised prompt _ rest wb Eb Hr).
    reflexivity.
Qed.

Lemma X17_witness :
  all_space [160%N; 8195%N; 9%N] /\ all_space [133%N; 32%N] /\
  lower (typed "YeS") = lower (typed "yes") /\
  ask_yes_no confirm_prompt
    (set_stdin [Line ([160%N; 8195%N; 9%N] ++ typed "YeS" ++ [133%N; 32%N])]
               (fresh sample_tree []))
  = ask_yes_no confirm_prompt (set_stdin [Line (typed "yes")] (fresh sample_tree [])).
Proof.
  assert (H1 : all_space [160%N; 8195%N; 9%N]) by (repeat constructor).
  assert (H2 : all_space [133%N; 32%N]) by (repeat constructor).
  assert (H3 : lower (typed "YeS") = lower (typed "yes")) by reflexivity.
  split; [exact H1|]. split; [exact H2|]. split; [exact H3|].
  exact (X17_replies_are_read_modulo_padding_and_case
           confirm_prompt [160%N; 8195%N; 9%N] (typed "YeS") [133%N; 32%N] (typed "yes")
           [] (fresh sample_tree []) H1 H2 H3).
Defined.

(** ** Gathering the paths *)

(** The paths that [get_file_paths] builds from the triples of a walk. *)
Lemma walk_from_count (cwd : string) (n : node) :
  forall top,
    List.length
      (flat_map (fun '(dirpath, _, filenames) =>
                   map (fun filename => abspath cwd (join dirpath filename)) filenames)
                (walk_from top n))
    = match n with
      | File _ => 0
      | Dir _ => count_files n
      end.
Proof.
  induction n as [f|es IH] using node_induction; intros top; [reflexivity|].
  cbn [walk_from flat_map]. rewrite length_app, length_map.
  induction IH as [|[name child] es Hchild _ IHes]; [reflexivity|].
  cbn [snd] in Hchild. rewrite flat_map_app, length_app, (Hchild (join top name)).
  cbn [count_files] in IHes |- *.
  destruct child as [f|sub].
  - change (filenames ((name, File f) :: es)) with (name :: filenames es).
    cbn [List.length count_files]. cbn [List.length] in IHes. lia.
  - change (filenames ((name, Dir sub) :: es)) with (filenames es). lia.
Qed.

(** Every regular file below a directory is listed by the walk of it. *)
Lemma files_from_complete (cwd : string) (suf : location) :
  forall n top f,
    node_at n suf = Some (File f) -> suf <> [] ->
    exists s, In (s, suf) (files_from cwd top n).
Proof.
  induction suf as [|name rest IH]; intros n top f Hn Hs; [contradiction|]. clear Hs.
  cbn [node_at] in Hn. destruct n as [g|es]; [discriminate|].
  destruct (lookup name es) as [child|] eqn:L; [|discriminate].
  apply lookup_In in L. cbn [files_from]. destruct rest as [|r rs].
  - cbn [node_at] in Hn. injection Hn as ->.
    exists (abspath cwd (join top name)). apply in_or_app. left.
    apply in_map_iff. exists name. split; [reflexivity|].
    unfold filenames. apply in_flat_map. exists (name, File f). split; [assumption | now left].
  - destruct (IH child (join top name) f Hn) as [s Hin]; [discriminate|].
    exists s. apply in_or_app. right. apply in_flat_map. exists (name, child).
    split; [assumption|]. cbn [fst snd]. apply in_map_iff. now exists (s, r :: rs).
Qed.



(** X29: in a well-formed file system (every directory lists plain names,
    each once, and the working directory is an existing directory given by
    its absolute path name), whatever the argument of [get_file_paths],
    every path [abspath(join(dirpath, filename))] that it gathers leads
    back to the regular file it was listed for, and no file is gathered
    twice: the scan is coherent. *)
Theorem X29_well_formed_trees_are_coherent (t : filesystem) (dir : string) :
  well_formed t = true -> coherent t dir = true.
Proof.
  intros Hwf. destruct (well_formed_parts t Hwf) as [Hd [Hp _]].
  apply coherent_parts. split; [assumption|].
  unfold listing. destruct (resolve t dir) as [loc|e] eqn:R; [|split; [intros e' [] | constructor]].
  unfold find_node. destruct (node_at (Dir (root t)) loc) as [n|] eqn:N;
    [|split; [intros e' [] | constructor]].
  pose proof (distinct_names_node_at loc _ n Hd N) as Hdn.
  pose proof (plain_names_node_at loc _ n Hp N) as Hpn.
  split.
  - intros e He. apply in_map_iff in He. destruct He as [e' [<- He']].
    unfold below. cbn [fst snd].
    now apply (files_from_leads t Hwf n dir loc R N Hdn Hpn).
  - rewrite map_map. unfold below. cbn [snd].
    rewrite <- map_map with (f := snd) (g := fun l => loc ++ l).
    apply Finite.Injective_map_NoDup; [|now apply files_from_NoDup].
    intros a b. apply app_inv_head.
Qed.

Lemma X29_witness :
  well_formed {| root := root sample_tree; cwd := "/data/sub"; stuck := [] |} = true /\
  get_file_paths {| root := root sample_tree; cwd := "/data/sub"; stuck := [] |} "../"
  = ["/data/A"; "/data/C"; "/data/sub/B"] /\
  coherent {| root := root sample_tree; cwd := "/data/sub"; stuck := [] |} "../" = true.
Proof.
  assert (H : well_formed {| root := root sample_tree; cwd := "/data/sub"; stuck := [] |}
              = true) by reflexivity.
  split; [exact H|]. split; [reflexivity|].
  exact (X29_well_formed_trees_are_coherent _ "../" H).
Defined.

(** ** Showing the groups *)

Lemma print_each_run {A} (line : A -> string) (body : A -> M unit) (l : list A) :
  (forall x, body x = print (line x)) ->
  forall w, for_each l body w = (Ok tt, emit (map (fun x => Print (line x)) l) w).
Proof.
  intros Hb. induction l as [|x l IH]; intros w; cbn [for_each map].
  - unfold ret. now rewrite emit_nil.
  - unfold bind. rewrite Hb. unfold print at 1. rewrite IH, emit_emit. reflexivity.
Qed.

Lemma display_groups_run (collisions : list (string * nat)) :
  forall w, exists lines,
    for_each collisions (fun '(h, a) =>
      print (nl ++ "The following files share the same hash (" ++ h
                ++ "), and have the same binary data.")%string ;;;
      g <- get_glob ;;
      let paths := deref (store g) a in
      for_each (combine (seq 0 (List.length paths)) paths) (fun '(i, path) =>
        print (str_of_nat (i + 1) ++ " - " ++ path)%string)) w
    = (Ok tt, emit (map Print lines) w) /\
    List.length lines
    = List.length collisions + total_paths (store (glob w)) collisions.
Proof.
  induction collisions as [|[h a] cs IH]; intros w.
  - exists []. cbn [for_each map]. unfold ret. now rewrite emit_nil.
  - cbn [for_each]. unfold bind at 1. unfold bind at 1, print at 1.
    unfold bind at 1, get_glob at 1. cbv zeta. cbn [glob emit].
    rewrite (print_each_run
               (fun x : nat * string => (str_of_nat (fst x + 1) ++ " - " ++ snd x)%string))
      by (now intros [i path]).
    rewrite emit_emit.
    match goal with |- context [for_each cs ?body ?w1] =>
      destruct (IH w1) as [lines [Hrun Hlen]] end.
    cbv zeta in Hrun. rewrite Hrun, emit_emit. cbn [glob emit] in Hlen.
    exists ((nl ++ "The following files share the same hash (" ++ h
                ++ "), and have the same binary data.")%string
            :: map (fun x : nat * string => (str_of_nat (fst x + 1) ++ " - " ++ snd x)%string)
                   (combine (seq 0 (List.length (deref (store (glob w)) a)))
                            (deref (store (glob w)) a))
            ++ lines)%list.
    split.
    + cbn [map app]. rewrite map_app, map_map. reflexivity.
    + cbn [List.length]. rewrite length_app, length_map, length_combine, length_seq, Hlen.
      unfold total_paths, list_sum. cbn [map fold_right].
      rewrite Nat.min_id. lia.
Qed.


(** ** A hashing error *)

(** X20: the hashing loop stops at the first path whose error it does not
    catch ([clean_up.py]: any error; [cleanup_v2.py]: any error that is not
    an [OSError]).  It ends with that error, the paths before it have been
    recorded as in a loop over them alone, and no later path is looked
    at. *)
Theorem X20_first_uncaught_error_ends_the_hashing_loop
    (v : script) (t : filesystem) (pre post : list string) (p : string)
    (e : exn) (g : globals) :
  (forall q e', In q pre -> open_read t q = Raise e' -> aborts v e' = false) ->
  open_read t p = Raise e ->
  aborts v e = true ->
  fst (scan_from v t pre g) = Ok tt /\
  scan_from v t (pre ++ p :: post) g = (Raise e, snd (scan_from v t pre g)).
Proof.
  intros Hpre Hp He. apply md5_of_file_raise in Hp.
  revert g. induction pre as [|q pre IH]; intros g.
  - rewrite scan_from_nil. split; [reflexivity|].
    cbn [app]. rewrite scan_from_cons, Hp.
    destruct v; [reflexivity|]. cbn [aborts] in He.
    destruct (is_OSError e); [discriminate | reflexivity].
  - cbn [app]. rewrite !scan_from_cons.
    assert (Hpre' : forall q0 e', In q0 pre -> open_read t q0 = Raise e' -> aborts v e' = false).
    { intros q0 e' Hq. apply Hpre. now right. }
    destruct (md5_of_file t q) as [h|e'] eqn:E; [apply (IH Hpre')|].
    apply md5_of_file_raise in E.
    pose proof (Hpre q e' (or_introl eq_refl) E) as Hq.
    destruct v; [discriminate|]. cbn [aborts] in Hq.
    destruct (is_OSError e'); [apply (IH Hpre') | discriminate].
Qed.

Lemma X20_witness :
  (forall q e', In q ["/box/a"; "/box/secret"] ->
                open_read locked_tree q = Raise e' -> aborts V2 e' = false) /\
  open_read locked_tree "/bad/huge" = Raise MemoryError /\
  aborts V2 MemoryError = true /\
  scan_from V2 locked_tree ["/box/a"; "/box/secret"; "/bad/huge"; "/box/b"] module_init
  = (Raise MemoryError,
     snd (scan_from V2 locked_tree ["/box/a"; "/box/secret"] module_init)).
Proof.
  assert (H1 : forall q e', In q ["/box/a"; "/box/secret"] ->
                 open_read locked_tree q = Raise e' -> aborts V2 e' = false).
  { intros q e' [<-|[<-|[]]]; vm_compute; intros [= <-] || discriminate; reflexivity. }
  assert (H2 : open_read locked_tree "/bad/huge" = Raise MemoryError)
    by (vm_compute; reflexivity).
  assert (H3 : aborts V2 MemoryError = true) by reflexivity.
  split; [exact H1|]. split; [exact H2|]. split; [exact H3|].
  exact (proj2 (X20_first_uncaught_error_ends_the_hashing_loop
                  V2 locked_tree ["/box/a"; "/box/secret"] ["/box/b"] "/bad/huge"
                  MemoryError module_init H1 H2 H3)).
Defined.

(** X21: an error of the hashing loop ends [clean_up] at once, with that
    error.  Nothing is reported, no prompt is issued, nothing is removed and
    no timing line is printed: the call leaves the world as the hashing
    loop left it. *)
Theorem X21_a_hashing_error_ends_the_run
    (v : script) (dir : string) (show delete : bool) (w : world) (e : exn) :
  let file_paths := get_file_paths (fs w) dir in
  fst (scan_from v (fs w) file_paths (glob w)) = Raise e ->
  clean_up v dir show delete w
  = (Raise e, set_glob (snd (scan_from v (fs w) file_paths (glob w)))
                       (announce v file_paths w)).
Proof.
  cbv zeta. intros H.
  assert (Hbody : clean_up_body v dir show delete w
                  = (Raise e, set_glob (snd (scan_from v (fs w) (get_file_paths (fs w) dir)
                                               (glob w)))
                                       (announce v (get_file_paths (fs w) dir) w))).
  { rewrite clean_up_body_run. cbv zeta.
    destruct (scan_from v (fs w) (get_file_paths (fs w) dir) (glob w)) as [[[]|e0] g1];
      cbn [fst snd] in *; [discriminate|]. congruence. }
  destruct v; cbn [clean_up]; [exact Hbody|].
  unfold time_it, bind. now rewrite Hbody.
Qed.

Lemma X21_witness :
  fst (scan_from V2 (fs (fresh locked_tree [Line "y"]))
         (get_file_paths (fs (fresh locked_tree [Line "y"])) "/bad")
         (glob (fresh locked_tree [Line "y"]))) = Raise MemoryError /\
  fst (clean_up V2 "/bad" true true (fresh locked_tree [Line "y"])) = Raise MemoryError /\
  stdin (snd (clean_up V2 "/bad" true true (fresh locked_tree [Line "y"]))) = [Line "y"].
Proof.
  assert (H : fst (scan_from V2 (fs (fresh locked_tree [Line "y"]))
                     (get_file_paths (fs (fresh locked_tree [Line "y"])) "/bad")
                     (glob (fresh locked_tree [Line "y"]))) = Raise MemoryError)
    by (vm_compute; reflexivity).
  split; [exact H|].
  rewrite (X21_a_hashing_error_ends_the_run V2 "/bad" true true
             (fresh locked_tree [Line "y"]) MemoryError H).
  split; reflexivity.
Defined.

(** ** The two scripts side by side *)

Lemma agree_ret {A} (a : A) : agree (ret a) (ret a).
Proof. intros w1 w2 H. now split. Qed.

Lemma agree_raise {A} (e : exn) : agree (@raise A e) (@raise A e).
Proof. intros w1 w2 H. now split. Qed.

Lemma agree_bind {A B} (m1 m2 : M A) (k1 k2 : A -> M B) :
  agree m1 m2 -> (forall a, agree (k1 a) (k2 a)) -> agree (bind m1 k1) (bind m2 k2).
Proof.
  intros Hm Hk w1 w2 H. unfold bind. destruct (Hm w1 w2 H) as [Hr Hw].
  destruct (m1 w1) as [[a1|e1] w1'], (m2 w2) as [[a2|e2] w2']; cbn [fst snd] in *;
    try discriminate.
  - injection Hr as ->. now apply Hk.
  - injection Hr as ->. now split.
Qed.

Lemma agree_when (b : bool) (m1 m2 : M unit) : agree m1 m2 -> agree (when b m1) (when b m2).
Proof. destruct b; [auto | intros _; apply agree_ret]. Qed.

Lemma agree_for_each {A} (l : list A) (body1 body2 : A -> M unit) :
  (forall x, agree (body1 x) (body2 x)) -> agree (for_each l body1) (for_each l body2).
Proof.
  intros Hb. induction l as [|x l IH]; cbn [for_each]; [apply agree_ret|].
  apply agree_bind; [apply Hb | intros _; exact IH].
Qed.

Lemma agree_try_except {A} (m1 m2 : M A) (c : exn -> bool) (h1 h2 : exn -> M A) :
  agree m1 m2 -> (forall e, agree (h1 e) (h2 e)) ->
  agree (try_except m1 c h1) (try_except m2 c h2).
Proof.
  intros Hm Hh w1 w2 H. unfold try_except. destruct (Hm w1 w2 H) as [Hr Hw].
  destruct (m1 w1) as [[a1|e1] w1'], (m2 w2) as [[a2|e2] w2']; cbn [fst snd] in *;
    try discriminate.
  - now split.
  - injection Hr as ->. destruct (c e2); [now apply Hh | now split].
Qed.

Lemma same_but_talk_emit (e1 e2 : list event) (w1 w2 : world) :
  removals e1 = removals e2 ->
  same_but_talk w1 w2 -> same_but_talk (emit e1 w1) (emit e2 w2).
Proof.
  intros He [Hg [Hf [Hi Hr]]]. repeat split; cbn [glob fs stdin console emit]; try assumption.
  now rewrite !removals_app, Hr, He.
Qed.

Lemma agree_print (s1 s2 : string) : agree (print s1) (print s2).
Proof. intros w1 w2 H. split; [reflexivity|]. now apply same_but_talk_emit. Qed.

Lemma agree_get_glob : agree get_glob get_glob.
Proof. intros w1 w2 H. split; [|exact H]. cbn. destruct H as [-> _]. reflexivity. Qed.

Lemma agree_put_glob (g : globals) : agree (put_glob g) (put_glob g).
Proof. intros w1 w2 [Hg [Hf [Hi Hr]]]. split; [reflexivity|]. now repeat split. Qed.

Lemma agree_input (p1 p2 : string) : agree (input p1) (input p2).
Proof.
  intros w1 w2 [Hg [Hf [Hi Hr]]]. unfold input. rewrite Hi.
  destruct (stdin w2) as [|[s|] rest] eqn:E; (split; [reflexivity|]);
    repeat split; cbn [snd glob fs stdin console emit set_stdin];
    first [assumption | reflexivity | congruence | now rewrite !removals_app, Hr].
Qed.

Lemma agree_remove (path : string) : agree (remove path) (remove path).
Proof.
  intros w1 w2 [Hg [Hf [Hi Hr]]]. unfold remove. rewrite Hf.
  destruct (os_remove (fs w2) path) as [t|e]; (split; [reflexivity|]);
    repeat split; cbn [snd glob fs stdin console emit set_fs];
    first [assumption | reflexivity | congruence | now rewrite !removals_app, Hr].
Qed.

Lemma agree_ask_yes_no (p1 p2 : string) : agree (ask_yes_no p1) (ask_yes_no p2).
Proof.
  assert (Hloop : forall fuel, agree (ask_loop fuel p1) (ask_loop fuel p2)).
  { induction fuel as [|fuel IH]; cbn [ask_loop]; [apply agree_raise|].
    apply agree_bind; [apply agree_input|]. intros line.
    destruct (str_in (lower (strip line)) yes_no); [apply agree_ret|].
    apply agree_bind; [apply agree_print | intros _; exact IH]. }
  intros w1 w2 H. unfold ask_yes_no.
  destruct H as [Hg [Hf [Hi Hr]]]. rewrite Hi. apply Hloop. now repeat split.
Qed.

Lemma agree_display_collisions (collisions : list (string * nat)) :
  agree (display_collisions collisions) (display_collisions collisions).
Proof.
  unfold display_collisions. destruct collisions as [|c cs]; [apply agree_print|].
  apply agree_for_each. intros [h a].
  apply agree_bind; [apply agree_print|]. intros _.
  apply agree_bind; [apply agree_get_glob|]. intros g.
  apply agree_for_each. intros [i path]. apply agree_print.
Qed.

Lemma agree_report (show : bool) (collisions : list (string * nat)) :
  agree (report show collisions) (report show collisions).
Proof.
  unfold report. destruct show; [apply agree_display_collisions | apply agree_print].
Qed.

Lemma agree_delete_duplicates (collisions : list (string * nat)) :
  agree (delete_duplicates collisions) (delete_duplicates collisions).
Proof.
  unfold delete_duplicates. apply agree_for_each. intros [h a].
  apply agree_bind; [apply agree_get_glob|]. intros g.
  apply agree_when. apply agree_bind.
  - unfold sort_in_place. apply agree_bind; [apply agree_get_glob|]. intros g0.
    apply agree_bind; [apply agree_put_glob | intros _; apply agree_ret].
  - intros paths. apply agree_for_each. intros path.
    apply agree_try_except.
    + apply agree_bind; [apply agree_remove | intros _; apply agree_print].
    + intros e. apply agree_print.
Qed.

Lemma agree_confirm_and_delete (v1 v2 : script) (show : bool)
    (collisions : list (string * nat)) :
  agree (confirm_and_delete v1 show collisions) (confirm_and_delete v2 show collisions).
Proof.
  unfold confirm_and_delete. destruct collisions as [|c cs]; [apply agree_print|].
  apply agree_bind; [apply agree_print|]. intros _.
  apply agree_bind.
  - apply agree_when. apply agree_bind; [apply agree_ask_yes_no|].
    intros b. apply agree_when, agree_display_collisions.
  - intros _. apply agree_bind; [apply agree_ask_yes_no|].
    intros [|]; [apply agree_delete_duplicates | apply agree_print].
Qed.

Lemma bind_run {A B} (m : M A) (k : A -> M B) (w : world) :
  bind m k w = match m w with
               | (Ok a, w') => k a w'
               | (Raise e, w') => (Raise e, w')
               end.
Proof. reflexivity. Qed.

(** The first prompt sets the scripts apart on an interrupt only. *)
Lemma proceed_agree (w1 w2 : world) :
  same_but_talk w1 w2 ->
  (forall rest, stdin w1 <> CtrlC :: rest) ->
  fst (proceed V1 w1) = fst (proceed V2 w2) /\
  same_but_talk (snd (proceed V1 w1)) (snd (proceed V2 w2)).
Proof.
  intros [Hg [Hf [Hi Hr]]] Hno. cbn [proceed]. unfold try_except, bind, input.
  rewrite <- Hi. destruct (stdin w1) as [|[s|] rest] eqn:E.
  - cbn [is_KeyboardInterrupt]. split; [reflexivity|].
    repeat split; cbn [snd glob fs stdin console emit];
      first [assumption | reflexivity | congruence | now rewrite !removals_app, Hr].
  - split; [reflexivity|].
    repeat split; cbn [snd ret glob fs stdin console emit set_stdin];
      first [assumption | reflexivity | congruence | now rewrite !removals_app, Hr].
  - now destruct (Hno rest).
Qed.

(** X22: on a tree whose files can all be read, the two scripts do the
    same.  Given the same flags and replies, and unless the first prompt is
    interrupted (which only [cleanup_v2.py] catches), [clean_up.py] and
    [cleanup_v2.py] end in the same way, leave the same globals, the same
    file system and the same unread replies, and hand the same paths to
    [os.remove] in the same order; they differ in what they print. *)
Theorem X22_the_two_scripts_agree_on_readable_trees
    (dir : string) (show delete : bool) (w : world) :
  (forall p, In p (get_file_paths (fs w) dir) -> readable (fs w) p = true) ->
  (forall rest, stdin w <> CtrlC :: rest) ->
  let r1 := clean_up V1 dir show delete w in
  let r2 := clean_up V2 dir show delete w in
  fst r1 = fst r2 /\ same_but_talk (snd r1) (snd r2).
Proof.
  intros Hread Hno. cbv zeta.
  assert (Hbody : fst (clean_up_body V1 dir show delete w)
                  = fst (clean_up_body V2 dir show delete w) /\
                  same_but_talk (snd (clean_up_body V1 dir show delete w))
                                (snd (clean_up_body V2 dir show delete w))).
  { rewrite !clean_up_body_run. cbv zeta.
    destruct (scan_from_readable (fs w) (get_file_paths (fs w) dir) (glob w) Hread)
      as [-> Hok].
    destruct (scan_from V1 (fs w) (get_file_paths (fs w) dir) (glob w)) as [[[]|e] g1];
      cbn [fst] in Hok; [|discriminate].
    assert (Hstart : same_but_talk (set_glob g1 (announce V1 (get_file_paths (fs w) dir) w))
                                   (set_glob g1 (announce V2 (get_file_paths (fs w) dir) w))).
    { cbn [announce]. repeat split; cbn [glob fs stdin console set_glob emit].
      now rewrite <- app_assoc, removals_app, app_nil_r. }
    set (wa := set_glob g1 (announce V1 (get_file_paths (fs w) dir) w)) in *.
    set (wb := set_glob g1 (announce V2 (get_file_paths (fs w) dir) w)) in *.
    assert (Hin : stdin wa = stdin w) by reflexivity.
    rewrite !bind_run.
    destruct (agree_report show (collisions_of g1) wa wb Hstart) as [Hr Hw].
    destruct (report_run show (collisions_of g1) wa) as [evs [Ha _]].
    rewrite Ha in *. cbn [fst snd] in *.
    destruct (report show (collisions_of g1) wb) as [[[]|e] wb']; cbn [fst snd] in *;
      [|discriminate].
    destruct delete; cbn [when]; [|now split].
    unfold delete_block. rewrite !bind_run.
    destruct (proceed_agree (emit evs wa) wb' Hw) as [Hp Hw'].
    { intros rest. cbn [stdin emit]. rewrite Hin. apply Hno. }
    destruct (proceed V1 (emit evs wa)) as [[b1|e1] w1'],
             (proceed V2 wb') as [[b2|e2] w2']; cbn [fst snd] in *; try discriminate.
    - injection Hp as ->.
      exact (agree_when b2 _ _ (agree_confirm_and_delete V1 V2 show (collisions_of g1))
               w1' w2' Hw').
    - injection Hp as ->. now split. }
  cbn [clean_up]. unfold time_it, bind. destruct Hbody as [Hr Hw].
  destruct (clean_up_body V1 dir show delete w) as [r1 w1],
           (clean_up_body V2 dir show delete w) as [[a|e] w2]; cbn [fst snd ret] in *.
  - split; [destruct a; exact Hr|].
    destruct Hw as [Hg [Hf [Hi Hrem]]].
    repeat split; cbn [glob fs stdin console emit]; try assumption.
    now rewrite removals_app, app_nil_r.
  - now split.
Qed.

Lemma X22_witness :
  (forall p, In p (get_file_paths (fs (fresh sample_tree [Line ""; Line "y"])) "/data") ->
             readable (fs (fresh sample_tree [Line ""; Line "y"])) p = true) /\
  (forall rest, stdin (fresh sample_tree [Line ""; Line "y"]) <> CtrlC :: rest) /\
  fs (snd (clean_up V1 "/data" true true (fresh sample_tree [Line ""; Line "y"])))
  = fs (snd (clean_up V2 "/data" true true (fresh sample_tree [Line ""; Line "y"]))).
Proof.
  assert (H1 : forall p,
             In p (get_file_paths (fs (fresh sample_tree [Line ""; Line "y"])) "/data") ->
             readable (fs (fresh sample_tree [Line ""; Line "y"])) p = true).
  { intros p [<-|[<-|[<-|[]]]]; vm_compute; reflexivity. }
  assert (H2 : forall rest, stdin (fresh sample_tree [Line ""; Line "y"]) <> CtrlC :: rest)
    by (intros rest; discriminate).
  split; [exact H1|]. split; [exact H2|].
  exact (proj1 (proj2 (proj2 (X22_the_two_scripts_agree_on_readable_trees
                                "/data" true true _ H1 H2)))).
Defined.

(** ** A second run *)

Lemma readable_is_file (t : filesystem) (p : string) : readable t p = true -> is_file t p = true.
Proof.
  unfold readable, is_file, open_read. destruct (resolve t p) as [l|e]; [|discriminate].
  now destruct (find_node t l) as [[[d|e]|es]|].
Qed.

(** The hashing loop looks at the file system through [md5_of_file] only. *)
Lemma scan_from_ext (v : script) (t t' : filesystem) (ps : list string) :
  (forall q, In q ps -> md5_of_file t' q = md5_of_file t q) ->
  forall g, scan_from v t' ps g = scan_from v t ps g.
Proof.
  induction ps as [|p ps IH]; intros Hq g; [now rewrite !scan_from_nil|].
  rewrite !scan_from_cons, (Hq p (or_introl eq_refl)).
  assert (Hq' : forall q, In q ps -> md5_of_file t' q = md5_of_file t q)
    by (intros q H; apply Hq; now right).
  destruct (md5_of_file t p) as [h|e]; [now apply IH|].
  destruct v; [reflexivity|]. destruct (is_OSError e); [now apply IH | reflexivity].
Qed.

(** The hashing loop ends without error exactly when no path raises an
    error that the script lets through. *)
Lemma scan_from_ok_iff (v : script) (t : filesystem) (ps : list string) :
  forall g,
    fst (scan_from v t ps g) = Ok tt <->
    (forall q e, In q ps -> open_read t q = Raise e -> aborts v e = false).
Proof.
  induction ps as [|p ps IH]; intros g.
  - rewrite scan_from_nil. split; [intros _ q e [] | reflexivity].
  - rewrite scan_from_cons. destruct (md5_of_file t p) as [h|e] eqn:E.
    + rewrite IH. split.
      * intros H q e0 [<-|Hq] Ho; [|now apply (H q)].
        apply md5_of_file_raise in Ho. congruence.
      * intros H q e0 Hq. apply H. now right.
    + apply md5_of_file_raise in E. destruct v.
      * cbn [fst]. split; [discriminate|]. intros H.
        now specialize (H p e (or_introl eq_refl) E).
      * destruct (is_OSError e) eqn:O.
        -- rewrite IH. split.
           ++ intros H q e0 [<-|Hq] Ho; [|now apply (H q)].
              assert (e0 = e) by congruence. subst e0. cbn [aborts]. now rewrite O.
           ++ intros H q e0 Hq. apply H. now right.
        -- cbn [fst]. split; [discriminate|]. intros H.
           specialize (H p e (or_introl eq_refl) E). cbn [aborts] in H.
           now rewrite O in H.
Qed.

Lemma filter_at_most_one {A} (f : A -> bool) (l : list A) (k : A) :
  NoDup l -> (forall x, In x l -> f x = true -> x = k) ->
  List.length (filter f l) <= 1.
Proof.
  intros Hnd Hk.
  destruct (Nat.le_gt_cases (List.length (filter f l)) 1) as [H|H]; [exact H|].
  destruct (two_in_filter f l Hnd H) as [x [y [Hxy [Hx [Hy [Fx Fy]]]]]].
  destruct Hxy. now rewrite (Hk x Hx Fx), (Hk y Hy Fy).
Qed.

Lemma filter_comm {A} (f g : A -> bool) (l : list A) :
  filter f (filter g l) = filter g (filter f l).
Proof.
  induction l as [|x l IH]; [reflexivity|]. cbn [filter].
  destruct (f x) eqn:F, (g x) eqn:G; cbn [filter]; rewrite ?F, ?G, IH; reflexivity.
Qed.



(** ** Two calls in one process *)

Lemma twice_survives (l pre post : list string) (k p : string) :
  (l ++ l)%list = (pre ++ k :: post)%list -> In p l -> In p (pre ++ post).
Proof.
  intros E Hp.
  apply (count_occ_In string_dec) in Hp.
  apply (count_occ_In string_dec).
  pose proof (f_equal (fun x => count_occ string_dec x p) E) as C. cbv beta in C.
  rewrite !count_occ_app in C. rewrite count_occ_app.
  cbn [count_occ] in C. destruct (string_dec k p); lia.
Qed.



(** * The generator of test trees *)

Lemma random_chars_spec (draw : Dupgen.source) (letters : list ascii) (len : nat) :
  letters <> [] ->
  forall pos,
    String.length (fst (Dupgen.random_chars draw letters len pos)) = len /\
    snd (Dupgen.random_chars draw letters len pos) = pos + len /\
    Forall (fun c => In c letters)
           (list_ascii_of_string (fst (Dupgen.random_chars draw letters len pos))).
Proof.
  intros Hne. induction len as [|len IH]; intros pos; cbn [Dupgen.random_chars].
  - cbn. repeat split; [lia | constructor].
  - unfold Dupgen.choice. cbv beta iota.
    destruct (IH (S pos)) as [Hlen [Hpos Hall]].
    destruct (Dupgen.random_chars draw letters len (S pos)) as [s pos2].
    cbn [fst snd String.length list_ascii_of_string] in *. repeat split; [lia | lia |].
    constructor; [|assumption].
    apply nth_In. apply Nat.mod_upper_bound.
    destruct letters; [now destruct Hne | discriminate].
Qed.

(** X25: the random strings of [dupgen.py].  Whatever the random source
    yields, [generate_random_text(length)] and [generate_random_name(length)]
    return a string of exactly [length] characters, all of them from the
    alphabet of the function, and make exactly [length] draws. *)
Theorem X25_random_strings_have_the_length_asked_for
    (draw : Dupgen.source) (length pos : nat) :
  let text := Dupgen.generate_random_text draw length pos in
  let name := Dupgen.generate_random_name draw length pos in
  String.length (fst text) = length /\
  snd text = pos + length /\
  Forall (fun c => In c Dupgen.text_letters) (list_ascii_of_string (fst text)) /\
  String.length (fst name) = length /\
  snd name = pos + length /\
  Forall (fun c => In c Dupgen.name_letters) (list_ascii_of_string (fst name)).
Proof.
  cbv zeta. unfold Dupgen.generate_random_text, Dupgen.generate_random_name.
  destruct (random_chars_spec draw Dupgen.text_letters length) with (pos := pos)
    as [H1 [H2 H3]]; [discriminate|].
  destruct (random_chars_spec draw Dupgen.name_letters length) with (pos := pos)
    as [H4 [H5 H6]]; [discriminate|].
  repeat split; assumption.
Qed.

Lemma file_names_spec (draw : Dupgen.source) (dir_path : string) (k : nat) :
  forall pos,
    List.length (fst (Dupgen.file_names draw dir_path k pos)) = k /\
    snd (Dupgen.file_names draw dir_path k pos) = pos + 9 * k.
Proof.
  induction k as [|k IH]; intros pos; cbn [Dupgen.file_names]; [cbn; lia|].
  destruct (random_chars_spec draw Dupgen.name_letters 8) with (pos := pos)
    as [_ [Hpos _]]; [discriminate|].
  unfold Dupgen.generate_random_name.
  destruct (Dupgen.random_chars draw Dupgen.name_letters 8 pos) as [name pos1].
  cbn [snd] in Hpos. subst pos1. unfold Dupgen.choice. cbv beta iota.
  destruct (IH (S (pos + 8))) as [Hlen Hp].
  destruct (Dupgen.file_names draw dir_path k (S (pos + 8))) as [rest pos3].
  cbn [fst snd List.length] in *. lia.
Qed.

Lemma make_dirs_spec (draw : Dupgen.source) (existed : string -> bool)
    (below : string -> Dupgen.progress -> list string * Dupgen.progress)
    (num_files_per_dir d : nat) (base_path : string) :
  (forall dir_path st,
      List.length (fst (below dir_path st)) = num_files_per_dir * d /\
      Dupgen.draws (snd (below dir_path st))
      = Dupgen.draws st + (8 + 9 * num_files_per_dir) * d /\
      exists new, Dupgen.made (snd (below dir_path st)) = (Dupgen.made st ++ new)%list /\
                  List.length new <= d) ->
  forall k st,
    let r := Dupgen.make_dirs draw existed below base_path num_files_per_dir k st in
    List.length (fst r) = num_files_per_dir * (k * (1 + d)) /\
    Dupgen.draws (snd r) = Dupgen.draws st + (8 + 9 * num_files_per_dir) * (k * (1 + d)) /\
    exists new, Dupgen.made (snd r) = (Dupgen.made st ++ new)%list /\
                List.length new <= k * (1 + d).
Proof.
  intros Hbelow. induction k as [|k IHk]; intros st; cbv zeta.
  - cbn. repeat split; try lia. exists []. now rewrite app_nil_r.
  - remember (Dupgen.make_dirs draw existed below base_path num_files_per_dir (S k) st)
      as r eqn:Er.
    cbn [Dupgen.make_dirs] in Er.
    destruct (random_chars_spec draw Dupgen.name_letters 8) with (pos := Dupgen.draws st)
      as [_ [Hpos _]]; [discriminate|].
    unfold Dupgen.generate_random_name in Er.
    destruct (Dupgen.random_chars draw Dupgen.name_letters 8 (Dupgen.draws st))
      as [dir_name pos1].
    cbn [snd] in Hpos. subst pos1. cbv zeta in Er.
    destruct (file_names_spec draw (join base_path dir_name) num_files_per_dir
                (Dupgen.draws st + 8)) as [Hfl Hfp].
    destruct (Dupgen.file_names draw (join base_path dir_name) num_files_per_dir
                (Dupgen.draws st + 8)) as [files pos2].
    cbn [fst snd] in Hfl, Hfp. subst pos2.
    match type of Er with context [below ?b ?s] =>
      destruct (Hbelow b s) as [Hbl [Hbd [new1 [Hbm Hbn]]]];
      destruct (below b s) as [deeper st2] end.
    cbn [fst snd Dupgen.draws Dupgen.made] in Hbl, Hbd, Hbm.
    destruct (IHk st2) as [Hrl [Hrd [new2 [Hrm Hrn]]]].
    destruct (Dupgen.make_dirs draw existed below base_path num_files_per_dir k st2)
      as [rest st3].
    subst r. cbn [fst snd] in *. rewrite !length_app. split; [nia|]. split; [nia|].
    destruct (existed (join base_path dir_name)
              || existsb (String.eqb (join base_path dir_name)) (Dupgen.made st)).
    + exists (new1 ++ new2)%list. rewrite Hrm, Hbm, length_app, app_assoc.
      split; [reflexivity | nia].
    + exists (join base_path dir_name :: new1 ++ new2)%list.
      rewrite Hrm, Hbm, <- !app_assoc. cbn [app List.length]. rewrite length_app.
      split; [reflexivity | nia].
Qed.

Lemma generate_from_spec (draw : Dupgen.source) (existed : string -> bool)
    (num_dirs num_files_per_dir : nat) (levels : nat) :
  forall base_path st,
    let r := Dupgen.generate_from draw existed levels base_path num_dirs num_files_per_dir st in
    List.length (fst r) = num_files_per_dir * Dupgen.directories num_dirs levels /\
    Dupgen.draws (snd r)
    = Dupgen.draws st + (8 + 9 * num_files_per_dir) * Dupgen.directories num_dirs levels /\
    exists new, Dupgen.made (snd r) = (Dupgen.made st ++ new)%list /\
                List.length new <= Dupgen.directories num_dirs levels.
Proof.
  induction levels as [|levels IH]; intros base_path st; cbv zeta.
  - cbn. repeat split; try lia. exists []. now rewrite app_nil_r.
  - cbn [Dupgen.generate_from Dupgen.directories].
    apply (make_dirs_spec draw existed _ num_files_per_dir
             (Dupgen.directories num_dirs levels) base_path).
    intros dir_path st'. apply IH.
Qed.


Lemma generate_random_text_draws (draw : Dupgen.source) (len pos : nat) :
  snd (Dupgen.generate_random_text draw len pos) = pos + len.
Proof.
  unfold Dupgen.generate_random_text.
  destruct (random_chars_spec draw Dupgen.text_letters len) with (pos := pos)
    as [_ [H _]]; [discriminate | exact H].
Qed.

Lemma random_texts_spec (draw : Dupgen.source) (len count : nat) :
  forall p,
    snd (Dupgen.random_texts draw len count p) = p + count * len /\
    forall b, b < count ->
      nth_error (fst (Dupgen.random_texts draw len count p)) b = Some (nth_text draw len p b).
Proof.
  induction count as [|count IH]; intros p; cbn [Dupgen.random_texts].
  - cbn. split; [lia | intros b Hb; lia].
  - pose proof (generate_random_text_draws draw len p) as Hp.
    unfold nth_text.
    destruct (Dupgen.generate_random_text draw len p) as [text p1] eqn:E.
    cbn [snd] in Hp. subst p1.
    destruct (IH (p + len)) as [Hs Hn].
    destruct (Dupgen.random_texts draw len count (p + len)) as [rest p2].
    cbn [fst snd] in *. split; [lia|].
    intros [|b] Hb; cbn [nth_error].
    + replace (p + 0 * len) with p by lia. now rewrite E.
    + rewrite Hn by lia. unfold nth_text. do 3 f_equal. lia.
Qed.

Section PopulateLoop.
Variable draw : Dupgen.source.
Variables text_length num_files_per_dir duplicate_count p0 : nat.
Variable duplicate_content_list : list string.
Hypothesis some_files : 0 < num_files_per_dir.
Hypothesis contents :
  forall b, b < duplicate_count ->
    nth_error duplicate_content_list b = Some (nth_text draw text_length p0 b).

Lemma text_of_file_block (b f : nat) :
  S b < duplicate_count -> f < num_files_per_dir ->
  Dupgen.text_of_file num_files_per_dir duplicate_count (b * num_files_per_dir + f) = b.
Proof.
  intros Hb Hf. unfold Dupgen.text_of_file.
  destruct (Nat.eqb_spec duplicate_count 0) as [E|_]; [lia|].
  destruct (Nat.ltb_spec (b * num_files_per_dir + f)
              ((duplicate_count - 1) * num_files_per_dir)) as [_|H]; [|nia].
  symmetry. apply (Nat.div_unique _ _ b f); [assumption | lia].
Qed.

Lemma text_of_file_start (b : nat) :
  b < duplicate_count ->
  Dupgen.text_of_file num_files_per_dir duplicate_count (b * num_files_per_dir) = b.
Proof.
  intros Hb. destruct (Nat.eq_dec (S b) duplicate_count) as [E|Hne].
  - unfold Dupgen.text_of_file.
    destruct (Nat.eqb_spec duplicate_count 0) as [E0|_]; [lia|].
    destruct (Nat.ltb_spec (b * num_files_per_dir)
                ((duplicate_count - 1) * num_files_per_dir)) as [H|H]; [nia|].
    replace (duplicate_count - 1) with b by lia. lia.
  - rewrite <- (Nat.add_0_r (b * num_files_per_dir)).
    apply text_of_file_block; lia.
Qed.

Lemma text_of_file_own (j : nat) :
  shared_files num_files_per_dir duplicate_count <= j ->
  Dupgen.text_of_file num_files_per_dir duplicate_count j
  = duplicate_count + (j - shared_files num_files_per_dir duplicate_count).
Proof.
  unfold shared_files, Dupgen.text_of_file.
  destruct (Nat.eqb_spec duplicate_count 0) as [E|Hne]; [lia|].
  intros Hj.
  destruct (Nat.ltb_spec j ((duplicate_count - 1) * num_files_per_dir)) as [H|H]; lia.
Qed.

(** One round of the loop. *)
Lemma write_file_stands (file_path : string) (j : nat) (vars : Dupgen.loop_vars) (pos : nat) :
  loop_stands draw text_length num_files_per_dir duplicate_count p0 j vars pos ->
  exists vars' pos',
    Dupgen.write_file draw text_length num_files_per_dir duplicate_count
      duplicate_content_list file_path vars pos
    = Dupgen.Done
        ((file_path,
          nth_text draw text_length p0
            (Dupgen.text_of_file num_files_per_dir duplicate_count j)),
         vars', pos') /\
    loop_stands draw text_length num_files_per_dir duplicate_count p0 (S j) vars' pos'.
Proof.
  intros [[b [Hb [Hf [Hd [Hj Hp]]]]]
         |[[b [f [Hb [Hf [Hfs [Hd [Hc [Hj Hp]]]]]]]]
          |[Hd [Hj Hp]]]]; unfold Dupgen.write_file.
  - rewrite Hf, Hd.
    replace (0 <? num_files_per_dir)%nat with true by (symmetry; apply Nat.ltb_lt; lia).
    replace (b <? duplicate_count)%nat with true by (symmetry; now apply Nat.ltb_lt).
    change (0 =? 0)%nat with true. cbn [andb]. rewrite (contents b Hb).
    rewrite Hj, (text_of_file_start b Hb).
    eexists _, _. split; [reflexivity|].
    destruct (Nat.eq_dec (S b) duplicate_count) as [E|Hne].
    + right. right. cbn [Dupgen.duplicate_index]. split; [assumption|].
      unfold shared_files. destruct (Nat.eqb_spec duplicate_count 0) as [E0|_]; [lia|].
      replace (duplicate_count - 1) with b by lia. split; [lia|].
      rewrite Hp. f_equal. f_equal. lia.
    + destruct (Nat.eqb_spec 1 num_files_per_dir) as [E1|Hn1].
      * left. exists (S b). cbn [Dupgen.files_since_last_duplicate Dupgen.duplicate_index].
        repeat split; [lia | nia | assumption].
      * right. left. exists b, 1.
        cbn [Dupgen.files_since_last_duplicate Dupgen.duplicate_index
             Dupgen.current_duplicate_content].
        repeat split; first [lia | assumption | reflexivity].
  - rewrite Hfs, Hd, Hc.
    replace (f <? num_files_per_dir)%nat with true by (symmetry; apply Nat.ltb_lt; lia).
    replace (S b <? duplicate_count)%nat with true by (symmetry; now apply Nat.ltb_lt).
    replace (f =? 0)%nat with false by (symmetry; apply Nat.eqb_neq; lia).
    cbn [andb]. rewrite Hj, (text_of_file_block b f Hb (proj2 Hf)).
    eexists _, _. split; [reflexivity|].
    destruct (Nat.eqb_spec (S f) num_files_per_dir) as [E|Hne].
    + left. exists (S b). cbn [Dupgen.files_since_last_duplicate Dupgen.duplicate_index].
      repeat split; [assumption | nia | assumption].
    + right. left. exists b, (S f).
      cbn [Dupgen.files_since_last_duplicate Dupgen.duplicate_index
           Dupgen.current_duplicate_content].
      repeat split; first [lia | assumption | reflexivity].
  - rewrite Hd, Nat.ltb_irrefl, andb_false_r.
    pose proof (generate_random_text_draws draw text_length pos) as Hs.
    rewrite (text_of_file_own j Hj). unfold nth_text. rewrite <- Hp.
    destruct (Dupgen.generate_random_text draw text_length pos) as [text pos'].
    cbn [fst snd] in *. eexists _, _. split; [reflexivity|].
    right. right. cbn [Dupgen.duplicate_index]. split; [reflexivity|]. split; [lia|].
    rewrite Hs, Hp. replace (S j - shared_files num_files_per_dir duplicate_count)
      with (S (j - shared_files num_files_per_dir duplicate_count)) by lia. nia.
Qed.

(** The whole loop. *)
Lemma write_files_stands (file_paths : list string) :
  forall j vars pos,
    loop_stands draw text_length num_files_per_dir duplicate_count p0 j vars pos ->
    exists writes pos',
      Dupgen.write_files draw text_length num_files_per_dir duplicate_count
        duplicate_content_list file_paths vars pos
      = Dupgen.Done (writes, pos') /\
      map fst writes = file_paths /\
      forall i, i < List.length file_paths ->
        nth i (map snd writes) EmptyString
        = nth_text draw text_length p0
            (Dupgen.text_of_file num_files_per_dir duplicate_count (j + i)).
Proof.
  induction file_paths as [|file_path rest IH]; intros j vars pos Hinv.
  - exists [], pos. cbn. repeat split. intros i Hi. lia.
  - cbn [Dupgen.write_files].
    destruct (write_file_stands file_path j vars pos Hinv) as [vars' [pos' [-> Hinv']]].
    destruct (IH (S j) vars' pos' Hinv') as [ws [pos'' [-> [Hpaths Htexts]]]].
    eexists _, _. split; [reflexivity|]. cbn [map fst snd]. split; [now rewrite Hpaths|].
    intros [|i] Hi; cbn [nth].
    + now rewrite Nat.add_0_r.
    + rewrite Htexts by (cbn [List.length] in Hi; lia). do 2 f_equal. lia.
Qed.
End PopulateLoop.

(** What [populate_files] writes. *)
Lemma populate_files_spec
    (draw : Dupgen.source) (shuffle : list string -> Dupgen.Rand (list string))
    (file_paths : list string) (text_length duplicate_percentage num_files_per_dir pos : nat) :
  0 < num_files_per_dir ->
  exists writes pos',
    Dupgen.populate_files draw shuffle file_paths text_length duplicate_percentage
      num_files_per_dir pos
    = Dupgen.Done (writes, pos') /\
    map fst writes = fst (shuffle file_paths pos) /\
    forall i, i < List.length (fst (shuffle file_paths pos)) ->
      nth i (map snd writes) EmptyString
      = nth_text draw text_length (snd (shuffle file_paths pos))
          (Dupgen.text_of_file num_files_per_dir
             (List.length file_paths * duplicate_percentage / 100 / num_files_per_dir) i).
Proof.
  intros Hn. unfold Dupgen.populate_files.
  destruct num_files_per_dir as [|n'] eqn:En; [lia|]. rewrite <- En in *.
  destruct (shuffle file_paths pos) as [shuffled p0]. cbn [fst snd].
  set (dc := List.length file_paths * duplicate_percentage / 100 / num_files_per_dir).
  destruct (random_texts_spec draw text_length dc p0) as [Hp Hc].
  destruct (Dupgen.random_texts draw text_length dc p0) as [D p2].
  cbn [fst snd] in Hp, Hc.
  destruct (write_files_stands draw text_length num_files_per_dir dc p0 D Hn Hc shuffled 0
              {| Dupgen.files_since_last_duplicate := 0;
                 Dupgen.duplicate_index := 0;
                 Dupgen.current_duplicate_content := None |} p2)
    as [writes [pos' [Hrun [Hpaths Htexts]]]].
  - destruct (Nat.eq_dec dc 0) as [E|Hne].
    + right. right. cbn [Dupgen.duplicate_index]. unfold shared_files. rewrite E.
      cbn [Nat.eqb]. repeat split; lia.
    + left. exists 0. cbn [Dupgen.files_since_last_duplicate Dupgen.duplicate_index].
      repeat split; lia.
  - exists writes, pos'. repeat split; assumption.
Qed.

(** The paths that the configured run generates. *)
Lemma configured_paths (draw : Dupgen.source) (existed : string -> bool) (root_dir : string) :
  let r := Dupgen.generate_file_paths draw existed root_dir 2 10 5 0
             {| Dupgen.draws := 0; Dupgen.made := [] |} in
  List.length (fst r) = 620.
Proof.
  cbv zeta.
  destruct (generate_from_spec draw existed 2 10 5 root_dir
              {| Dupgen.draws := 0; Dupgen.made := [] |}) as [H1 _].
  exact H1.
Qed.




